(** * create-dzx: a shallow embedding of the scaffolding CLI

    The development follows the single source file of the CLI:
    [slugify], [parseArgs], [isEmptyDir], [listFiles], [copyDir],
    [detectPackageManager], [getInstallCommand], [runCommand],
    [resolveTemplatesRoot], [color], [createSpinner],
    [printKeyValueList], [getDzxVersion] and [main] with its step
    timer; and the script that copies the templates into the package,
    with its [copyDir] and [updateTemplateDependency].

    Conventions of the embedding.
    - A JavaScript string is a [string] of code units below 256.
    - A path is the list of its components below the POSIX root.
    - The file system is a finite map from paths to entries, regular
      files and directories only; every [fs] primitive is a function
      on that map which returns or throws as the Node.js primitive
      does.
    - A command is a function from a state to a completion and a
      state: it returns, throws, leaves the process, or runs out of
      the budget that bounds the depth of the two recursive walks;
      what it wrote before it threw stays written.
    - [main] is a command over the files, the trace of what the run
      showed or started, and the label of the step under way.  The
      spinner and the elapsed times are not part of the trace: they
      are a state machine of their own, [Progress], over what is
      written to the terminal and the intervals that are live.

    The first part holds the definitions, the second the properties. *)

From Stdlib Require Import String Ascii List ZArith Lia Bool DecimalString.
From stdpp Require Import base option list gmap strings sorting.

Local Open Scope string_scope.
Local Open Scope list_scope.

(** ** Strings *)

Section JsStrings.

(** [String.prototype.toLowerCase] on one code unit below 256: [A-Z]
    and the Latin-1 capitals (0xC0..0xDE without the multiplication
    sign 0xD7) move up by 32; every other unit is unchanged. *)
Definition toLowerUnit (c : ascii) : ascii :=
  let n := nat_of_ascii c in
  if (65 <=? n)%nat && (n <=? 90)%nat then ascii_of_nat (n + 32)
  else if (192 <=? n)%nat && (n <=? 222)%nat && negb (n =? 215)%nat
       then ascii_of_nat (n + 32)
       else c.

(** [String.prototype.toLowerCase] on a string of code units below
    256, where it maps unit to unit.  Names with higher code units are
    outside the embedding: there JavaScript can change the number of
    units (U+0130 becomes two). *)
Fixpoint toLowerCase (s : string) : string :=
  match s with
  | EmptyString => EmptyString
  | String c rest => String (toLowerUnit c) (toLowerCase rest)
  end.

Definition isDash (c : ascii) : bool := (nat_of_ascii c =? 45)%nat.

(** The character class [[a-z0-9-_]]. *)
Definition inSlugClass (c : ascii) : bool :=
  let n := nat_of_ascii c in
  ((97 <=? n)%nat && (n <=? 122)%nat)
  || ((48 <=? n)%nat && (n <=? 57)%nat)
  || (n =? 45)%nat || (n =? 95)%nat.

(** [.replace(/[^a-z0-9-_]/g, "-")] *)
Fixpoint replaceOutsideClass (s : string) : string :=
  match s with
  | EmptyString => EmptyString
  | String c rest =>
      String (if inSlugClass c then c else "-"%char) (replaceOutsideClass rest)
  end.

(** [.replace(/--+/g, "-")]: every maximal run of two or more dashes
    becomes one dash.  Scanning left to right, a dash that is followed
    by another dash lies inside such a run and is dropped; the last
    dash of the run is the one that remains. *)
Fixpoint replaceDashRuns (s : string) : string :=
  match s with
  | EmptyString => EmptyString
  | String c rest =>
      if isDash c then
        match rest with
        | String d _ =>
            if isDash d then replaceDashRuns rest
            else String c (replaceDashRuns rest)
        | EmptyString => String c EmptyString
        end
      else String c (replaceDashRuns rest)
  end.

(** [.replace(/^-+/, "")] *)
Fixpoint dropLeadingDashes (s : string) : string :=
  match s with
  | EmptyString => EmptyString
  | String c rest => if isDash c then dropLeadingDashes rest else s
  end.

Fixpoint allDashes (s : string) : bool :=
  match s with
  | EmptyString => true
  | String c rest => isDash c && allDashes rest
  end.

(** [.replace(/-+$/, "")]: the first position at which [-+$] matches is
    the first position from which only dashes follow. *)
Fixpoint dropTrailingDashes (s : string) : string :=
  match s with
  | EmptyString => EmptyString
  | String c rest =>
      if allDashes s then EmptyString else String c (dropTrailingDashes rest)
  end.

Definition slugify (value : string) : string :=
  dropTrailingDashes
    (dropLeadingDashes
       (replaceDashRuns
          (replaceOutsideClass
             (toLowerCase value)))).


(** A code unit below 256 that [String.prototype.trim] removes: the
    white space and line terminators TAB, LF, VT, FF, CR, SP, NBSP. *)
Definition isTrimmed (c : ascii) : bool :=
  let n := nat_of_ascii c in
  ((9 <=? n)%nat && (n <=? 13)%nat) || (n =? 32)%nat || (n =? 160)%nat.

Fixpoint trimStart (s : string) : string :=
  match s with
  | EmptyString => EmptyString
  | String c rest => if isTrimmed c then trimStart rest else s
  end.

Fixpoint allTrimmed (s : string) : bool :=
  match s with
  | EmptyString => true
  | String c rest => isTrimmed c && allTrimmed rest
  end.

Fixpoint trimEnd (s : string) : string :=
  match s with
  | EmptyString => EmptyString
  | String c rest => if allTrimmed s then EmptyString else String c (trimEnd rest)
  end.

Definition trim (s : string) : string := trimEnd (trimStart s).

(** [s.startsWith("--")] *)
Definition startsWithDashes (s : string) : bool := String.prefix "--" s.

(** [s.slice(2)] *)
Definition slice2 (s : string) : string :=
  match s with
  | String _ (String _ rest) => rest
  | _ => EmptyString
  end.

(** [parts.join(sep)] *)
Fixpoint joinWith (sep : string) (parts : list string) : string :=
  match parts with
  | [] => EmptyString
  | [p] => p
  | p :: rest => p +:+ sep +:+ joinWith sep rest
  end.

Definition newline : string := String (ascii_of_nat 10) EmptyString.

End JsStrings.

(** ** Paths (node:path, POSIX) *)

(** An absolute, normalised path: its components below the root. *)
Abbreviation path := (list string).

Section Paths.

(** The pieces of a path string between its ["/"] separators. *)
Fixpoint segments (s : string) : list string :=
  match s with
  | EmptyString => [EmptyString]
  | String c rest =>
      if (nat_of_ascii c =? 47)%nat then EmptyString :: segments rest
      else match segments rest with
           | seg :: more => String c seg :: more
           | [] => [String c EmptyString]
           end
  end.

Definition isAbsolute (s : string) : bool := String.prefix "/" s.

(** Normalisation of one segment against the path built so far. *)
Definition applySegment (p : path) (seg : string) : path :=
  if decide (seg = "") then p
  else if decide (seg = ".") then p
  else if decide (seg = "..") then removelast p
  else p ++ [seg].

(** [path.resolve(from, to)] for an absolute [from]. *)
Definition resolve (from : path) (to : string) : path :=
  fold_left applySegment (segments to) (if isAbsolute to then [] else from).

(** [path.dirname(p)]; the root is its own parent. *)
Definition dirname (p : path) : path := removelast p.

(** [path.basename(p)]; empty for the root. *)
Definition basename (p : path) : string := List.last p "".

(** [path.relative(from, to)]: the common prefix is dropped and each
    remaining component of [from] is climbed with [".."]. *)
Fixpoint relative (from to : path) : list string :=
  match from, to with
  | a :: from', b :: to' =>
      if decide (a = b) then relative from' to'
      else replicate (length from) ".." ++ to
  | _, _ => replicate (length from) ".." ++ to
  end.

(** The text of an absolute path, as a template literal prints it. *)
Definition pathString (p : path) : string :=
  match p with
  | [] => "/"
  | _ => "/" +:+ joinWith "/" p
  end.

(** The text of a relative path. *)
Definition relativeString (r : list string) : string := joinWith "/" r.

(** [stripDir dir q] is the remainder of [q] below [dir]. *)
Fixpoint stripDir (dir q : path) : option (list string) :=
  match dir, q with
  | [], _ => Some q
  | a :: dir', b :: q' => if decide (a = b) then stripDir dir' q' else None
  | _ :: _, [] => None
  end.

End Paths.

(** ** JSON values and file contents *)

(** A value produced by [JSON.parse].  A number is the finite double it
    denotes, written as the decimal [m * 10^e]; an object keeps its
    properties in enumeration order. *)
#[warnings="-register-all"] Inductive json : Type :=
| JNull
| JBool (b : bool)
| JNum (m e : Z)
| JStr (s : string)
| JArr (items : list json)
| JObj (props : list (string * json)).

(** What a file holds.  [Text s] is text that [JSON.parse] rejects;
    [JsonText j indent nl] is a serialisation of [j], which
    [JSON.parse] maps back to [j]; for a file written by
    [JSON.stringify(j, null, indent)] the layout is recorded: [indent]
    spaces per level and, when [nl] holds, one trailing newline. *)
Inductive contents : Type :=
| Text (s : string)
| JsonText (j : json) (indent : nat) (nl : bool).

Inductive entry : Type :=
| File (c : contents)
| Directory.

Abbreviation filesystem := (gmap (list string) entry).

(** ** Errors and commands *)

Inductive error : Type :=
| TypeError                   (* raised by the runtime *)
| SyntaxError                 (* JSON.parse on malformed text *)
| SystemError (code : string) (* raised by node:fs *)
| Error (message : string).   (* new Error(message) *)

Inductive completion (A : Type) : Type :=
| Normal (a : A)              (* returns a *)
| Throw (e : error)           (* throws e *)
| Exit (code : nat)           (* process.exit(code) *)
| OutOfFuel.                  (* the recursion budget of the model ran out *)

Arguments Normal {A} a.
Arguments Throw {A} e.
Arguments Exit {A} code.
Arguments OutOfFuel {A}.

(** A command over a state [S]: it ends in a completion and leaves a
    state behind, also when it throws. *)
Definition prog (S A : Type) : Type := S → completion A * S.

Section Commands.
Context {S : Type}.

Definition ret {A} (a : A) : prog S A := λ s, (Normal a, s).

Definition bind {A B} (c : prog S A) (k : A → prog S B) : prog S B :=
  λ s, match c s with
       | (Normal a, s') => k a s'
       | (Throw e, s') => (Throw e, s')
       | (Exit n, s') => (Exit n, s')
       | (OutOfFuel, s') => (OutOfFuel, s')
       end.

Definition throw {A} (e : error) : prog S A := λ s, (Throw e, s).
Definition exit {A} (code : nat) : prog S A := λ s, (Exit code, s).
Definition outOfFuel {A} : prog S A := λ s, (OutOfFuel, s).

(** A command that reads the state. *)
Definition reads {A} (f : S → completion A) : prog S A := λ s, (f s, s).

(** A command that replaces the state, unless it throws. *)
Definition writes (f : S → completion S) : prog S unit :=
  λ s, match f s with
       | Normal s' => (Normal tt, s')
       | Throw e => (Throw e, s)
       | Exit n => (Exit n, s)
       | OutOfFuel => (OutOfFuel, s)
       end.

(** [try { c } catch { h }] *)
Definition tryCatch {A} (c : prog S A) (h : prog S A) : prog S A :=
  λ s, match c s with
       | (Throw _, s') => h s'
       | r => r
       end.
End Commands.

Notation "x <~ c ;; k" := (bind c (λ x, k))
  (at level 100, c at next level, right associativity).
Notation "c ;;; k" := (bind c (λ _, k))
  (at level 100, right associativity).

Section Loops.
Context {S : Type}.

(** [for (const x of xs) body(x)] *)
Fixpoint forEach {A} (xs : list A) (body : A → prog S unit) : prog S unit :=
  match xs with
  | [] => ret tt
  | x :: rest => body x ;;; forEach rest body
  end.

(** The same loop threading an accumulator. *)
Fixpoint forFold {A B} (xs : list A) (acc : B) (body : B → A → prog S B)
  : prog S B :=
  match xs with
  | [] => ret acc
  | x :: rest => acc' <~ body acc x ;; forFold rest acc' body
  end.
End Loops.

(** ** The file system (node:fs) *)

(** A [Dirent]: the entry's name and whether it is a directory. *)
Record dirent : Type := Dirent { name : string; isDirectory : bool }.

Section FileSystem.

Definition entryIsDirectory (e : entry) : bool :=
  match e with Directory => true | File _ => false end.

(** The entry of [dir] that a key of the map stands for, if any. *)
Definition childOf (dir : path) (item : path * entry) : option dirent :=
  match stripDir dir item.1 with
  | Some [n] => Some (Dirent n (entryIsDirectory item.2))
  | _ => None
  end.

Definition fsExists (fs : filesystem) (p : path) : bool :=
  match fs !! p with Some _ => true | None => false end.

(** The error code of a system call on a path that does not exist.
    The path is walked from the root, [done] being the part already
    walked and [todo] what remains: a regular file met before the end
    of the path gives ENOTDIR; a missing component, or the missing
    path itself, gives ENOENT. *)
Fixpoint missingCode (fs : filesystem) (done todo : path) : string :=
  match todo with
  | [] => "ENOENT"
  | n :: rest =>
      match fs !! done with
      | Some (File _) => "ENOTDIR"
      | Some Directory => missingCode fs (done ++ [n]) rest
      | None => "ENOENT"
      end
  end.

Definition fsReaddir (fs : filesystem) (dir : path) : completion (list dirent) :=
  match fs !! dir with
  | Some Directory => Normal (omap (childOf dir) (map_to_list fs))
  | Some (File _) => Throw (SystemError "ENOTDIR")
  | None => Throw (SystemError (missingCode fs [] dir))
  end.

(** [mkdir -p]: [done] is the part of the path already walked, [todo]
    what remains; missing directories are created on the way and a
    file in the way is an error. *)
Fixpoint fsMkdirs (done todo : path) (fs : filesystem) : completion filesystem :=
  match todo with
  | [] => Normal fs
  | n :: rest =>
      let p := done ++ [n] in
      match fs !! p with
      | None => fsMkdirs p rest (<[p := Directory]> fs)
      | Some Directory => fsMkdirs p rest fs
      | Some (File _) =>
          Throw (SystemError (match rest with [] => "EEXIST" | _ => "ENOTDIR" end))
      end
  end.

Definition fsReadFile (fs : filesystem) (p : path) : completion contents :=
  match fs !! p with
  | Some (File c) => Normal c
  | Some Directory => Throw (SystemError "EISDIR")
  | None => Throw (SystemError (missingCode fs [] p))
  end.

Definition fsWriteFile (p : path) (c : contents) (fs : filesystem)
  : completion filesystem :=
  match fs !! p with
  | Some Directory => Throw (SystemError "EISDIR")
  | _ =>
      match fs !! dirname p with
      | Some Directory => Normal (<[p := File c]> fs)
      | Some (File _) => Throw (SystemError "ENOTDIR")
      | None => Throw (SystemError (missingCode fs [] (dirname p)))
      end
  end.

Definition fsCopyFile (src dest : path) (fs : filesystem) : completion filesystem :=
  match fs !! src with
  | Some (File c) => fsWriteFile dest c fs
  | Some Directory => Throw (SystemError "EISDIR")
  | None => Throw (SystemError (missingCode fs [] src))
  end.

(** The primitives as commands. *)
Definition existsSync (p : path) : prog filesystem bool :=
  reads (λ fs, Normal (fsExists fs p)).
Definition readdirSync (dir : path) : prog filesystem (list dirent) :=
  reads (λ fs, fsReaddir fs dir).
(** [fs.mkdirSync(p, { recursive: true })] *)
Definition mkdirSync (p : path) : prog filesystem unit := writes (fsMkdirs [] p).
Definition readFileSync (p : path) : prog filesystem contents :=
  reads (λ fs, fsReadFile fs p).
Definition writeFileSync (p : path) (c : contents) : prog filesystem unit :=
  writes (fsWriteFile p c).
Definition copyFileSync (src dest : path) : prog filesystem unit :=
  writes (fsCopyFile src dest).

(** [JSON.parse(text)] *)
Definition JSON_parse {S} (c : contents) : prog S json :=
  match c with
  | JsonText j _ _ => ret j
  | Text _ => throw SyntaxError
  end.

(** [JSON.stringify(j, null, indent)], with a newline appended when
    [nl] holds. *)
Definition JSON_stringify (j : json) (indent : nat) (nl : bool) : contents :=
  JsonText j indent nl.

End FileSystem.

(** ** Helpers of the CLI *)

Section Helpers.

(** Return true when the directory is missing or empty. *)
Definition isEmptyDir (dir : path) : prog filesystem bool :=
  present <~ existsSync dir ;;
  if negb present then ret true
  else entries <~ readdirSync dir ;; ret (length entries =? 0)%nat.

(** The order of [a.name.localeCompare(b.name)].  The collation of the
    host locale is not part of the program; code-unit order stands in
    for it.  No property below depends on which total order is used. *)
Definition nameLe (a b : dirent) : Prop := Is_true (String.leb (name a) (name b)).

#[local] Instance nameLe_dec a b : Decision (nameLe a b) := Is_true_dec _.

(** Recursively list files relative to the base directory.  [fuel]
    bounds the depth of the recursion. *)
Fixpoint listFiles (fuel : nat) (dir baseDir : path) : prog filesystem (list path) :=
  match fuel with
  | O => outOfFuel
  | S fuel' =>
      present <~ existsSync dir ;;
      if negb present then ret []
      else
        unsorted <~ readdirSync dir ;;
        let entries := merge_sort nameLe unsorted in
        forFold entries [] (λ files entry,
          let entryPath := dir ++ [name entry] in
          if isDirectory entry then
            below <~ listFiles fuel' entryPath baseDir ;;
            ret (files ++ below)
          else ret (files ++ [relative baseDir entryPath]))
  end.

(** Copy a directory recursively.  [fuel] bounds the depth of the
    recursion. *)
Fixpoint copyDir (fuel : nat) (src dest : path) : prog filesystem unit :=
  match fuel with
  | O => outOfFuel
  | S fuel' =>
      mkdirSync dest ;;;
      entries <~ readdirSync src ;;
      forEach entries (λ entry,
        let srcPath := src ++ [name entry] in
        let destPath := dest ++ [name entry] in
        if isDirectory entry then copyDir fuel' srcPath destPath
        else copyFileSync srcPath destPath)
  end.

Definition lockfiles : list (string * string) :=
  [ ("pnpm-lock.yaml", "pnpm");
    ("package-lock.json", "npm");
    ("yarn.lock", "yarn");
    ("bun.lockb", "bun") ].

(** One pass of [for (const [lockfile, pm] of Object.entries(lockfiles))]
    in a directory: the manager of the first lockfile that exists. *)
Fixpoint probe (fs : filesystem) (dir : path) (table : list (string * string))
  : option string :=
  match table with
  | [] => None
  | (lockfile, pm) :: rest =>
      if fsExists fs (dir ++ [lockfile]) then Some pm else probe fs dir rest
  end.

(** The loop [for (let i = 0; i < 5; i++)] over the parents, with
    [rounds] iterations left. *)
Fixpoint probeParents (rounds : nat) (fs : filesystem) (current : path) : string :=
  match rounds with
  | O => "pnpm"
  | S rounds' =>
      let parent := dirname current in
      if decide (parent = current) then "pnpm"
      else match probe fs parent lockfiles with
           | Some pm => pm
           | None => probeParents rounds' fs parent
           end
  end.

(** Detect package manager from lockfiles. *)
Definition detectPackageManager (fs : filesystem) (cwd : path) : string :=
  match probe fs cwd lockfiles with
  | Some pm => pm
  | None => probeParents 5 fs cwd
  end.

(** Get install command for a package manager. *)
Definition getInstallCommand (pm : string) : string := pm +:+ " install".

End Helpers.

(** ** Parsed arguments *)

(** What a property of the [args] object holds: [true], a string, or
    the array of positionals. *)
Inductive value : Type :=
| VTrue
| VStr (s : string)
| VList (items : list string).

Abbreviation parsedArgs := (gmap string value).

Section Args.

(** [args[key] = v].  An assignment to ["__proto__"] with a value that
    is not an object leaves the object as it is. *)
Definition setProperty (key : string) (v : value) (args : parsedArgs) : parsedArgs :=
  if decide (key = "__proto__") then args else <[key := v]> args.

(** Truthiness of a string. *)
Definition nonEmpty (s : string) : bool :=
  match s with EmptyString => false | String _ _ => true end.

(** Truthiness of [args[key]]; an absent property is [undefined]. *)
Definition truthy (v : option value) : bool :=
  match v with
  | None => false
  | Some VTrue => true
  | Some (VStr s) => nonEmpty s
  | Some (VList _) => true
  end.

(** The body of the loop of [parseArgs], over the rest of [argv]. *)
Fixpoint parseLoop (argv : list string) (args : parsedArgs) : completion parsedArgs :=
  match argv with
  | [] => Normal args
  | arg :: rest =>
      if negb (startsWithDashes arg) then
        match args !! "positional" with
        | Some (VList items) =>
            parseLoop rest (<["positional" := VList (items ++ [arg])]> args)
        | _ => Throw TypeError (* args.positional.push is not a function *)
        end
      else
        let key := slice2 arg in
        match rest with
        | next :: rest' =>
            if nonEmpty next && negb (startsWithDashes next)
            then parseLoop rest' (setProperty key (VStr next) args)
            else parseLoop rest (setProperty key VTrue args)
        | [] => parseLoop rest (setProperty key VTrue args)
        end
  end.

(** Parse CLI argv into a simple key/value map. *)
Definition parseArgs (argv : list string) : completion parsedArgs :=
  parseLoop argv {[ "positional" := VList [] ]}.

(** [args.install ? true : args["no-install"] ? false : true] *)
Definition shouldInstallOf (args : parsedArgs) : bool :=
  if truthy (args !! "install") then true
  else if truthy (args !! "no-install") then false
  else true.

(** [args.help || args.h] *)
Definition helpRequested (args : parsedArgs) : bool :=
  truthy (args !! "help") || truthy (args !! "h").

(** [args.positional[0]] *)
Definition firstPositional (args : parsedArgs) : completion (option value) :=
  match args !! "positional" with
  | Some (VList items) => Normal (VStr <$> head items)
  | Some (VStr s) =>
      Normal (match s with
              | String c _ => Some (VStr (String c EmptyString))
              | EmptyString => None
              end)
  | Some VTrue => Normal None
  | None => Throw TypeError
  end.

(** A value inside a template literal. *)
Definition valueString (v : value) : string :=
  match v with
  | VTrue => "true"
  | VStr s => s
  | VList items => joinWith "," items
  end.

(** [list.includes(v)] for a list of strings. *)
Definition includes (list : list string) (v : value) : bool :=
  match v with
  | VStr s => bool_decide (s ∈ list)
  | _ => false
  end.

End Args.

Definition TEMPLATES : list string := ["basic"; "tools-only"; "full"].
Definition RUNTIMES : list string := ["node"; "deno"].

(** ** Members of parsed JSON *)

Section JsonMembers.

Fixpoint lookupProp (k : string) (props : list (string * json)) : option json :=
  match props with
  | [] => None
  | (k', v) :: rest => if decide (k' = k) then Some v else lookupProp k rest
  end.

(** Assignment keeps the position of a property that exists and
    appends one that does not. *)
Fixpoint assignProp (k : string) (v : json) (props : list (string * json))
  : list (string * json) :=
  match props with
  | [] => [(k, v)]
  | (k', v') :: rest =>
      if decide (k' = k) then (k, v) :: rest else (k', v') :: assignProp k v rest
  end.

Definition jsTruthy (j : json) : bool :=
  match j with
  | JNull => false
  | JBool b => b
  | JNum m _ => negb (m =? 0)%Z
  | JStr s => nonEmpty s
  | JArr _ | JObj _ => true
  end.

(** [j[k]] for a key that names neither an index nor a built-in
    member: reading from [null] throws, every value but an object
    yields [undefined]. *)
Definition getMember {S} (j : json) (k : string) : prog S (option json) :=
  match j with
  | JNull => throw TypeError
  | JObj props => ret (lookupProp k props)
  | _ => ret None
  end.

(** [j[k] = v] in strict mode, as [JSON.stringify] sees [j] afterwards:
    an object gains or updates the property, an array keeps its items
    (the extra property is not serialised), anything else throws. *)
Definition setMember {S} (j : json) (k : string) (v : json) : prog S json :=
  match j with
  | JObj props => ret (JObj (assignProp k v props))
  | JArr items => ret (JArr items)
  | _ => throw TypeError
  end.

(** Truthiness of a member that may be [undefined]. *)
Definition memberTruthy (m : option json) : bool :=
  match m with Some j => jsTruthy j | None => false end.

End JsonMembers.

(** ** The process and its surroundings *)

(** What the run shows or starts, in order.  Elapsed times and terminal
    styling are left out of the events. *)
Inductive event : Type :=
| Usage                                  (* console.log of the usage text *)
| Intro                                  (* clack.intro *)
| AskDirectory (initialValue : string)   (* clack.text *)
| AskTemplate                            (* clack.select *)
| AskRuntime                             (* clack.select *)
| AskOverwrite                           (* clack.confirm *)
| Cancelled                              (* clack.cancel *)
| Banner
| StepLine (label : string)              (* logStep *)
| Spawn (command : string) (cwd : path)  (* child_process.spawn *)
| Ready (dir : path) (template runtime : string) (install : bool)
| Next (hint : string)
| Failure (e : error).                   (* console.error(err) *)

Record childResult : Type := ChildResult {
  exitCode : option nat;     (* None: the child could not be spawned *)
  filesAfter : filesystem    (* the files once the child is gone *)
}.

(** Everything the run takes from outside the program. *)
Record env : Type := Env {
  cwd : path;                         (* process.cwd() *)
  here : path;                        (* the directory of the script *)
  dzxPackageJson : option path;       (* require.resolve("@dwizi/dzx/package.json") *)
  directoryAnswer : option string;    (* clack.text; None: cancelled *)
  templateAnswer : option string;     (* clack.select; None: cancelled *)
  runtimeAnswer : option string;      (* clack.select; None: cancelled *)
  overwriteAnswer : option bool;      (* clack.confirm; None: cancelled *)
  child : string → path → filesystem → childResult
}.

Record world : Type := World {
  files : filesystem;
  trace : list event;
  lastStep : string
}.

Section Process.

(** A file-system command inside the process. *)
Definition onFiles {A} (c : prog filesystem A) : prog world A :=
  λ w, let (r, fs') := c (files w) in (r, World fs' (trace w) (lastStep w)).

Definition log (ev : event) : prog world unit :=
  λ w, (Normal tt, World (files w) (trace w ++ [ev]) (lastStep w)).

(** A value computed without effects that may throw. *)
Definition pure {S A} (r : completion A) : prog S A := λ s, (r, s).

(** [step(message)]: print the line of the step that just ended and
    remember the new one. *)
Definition step (message : string) : prog world unit :=
  λ w, (Normal tt,
        World (files w)
              (if nonEmpty (lastStep w) then trace w ++ [StepLine (lastStep w)]
               else trace w)
              message).

(** The flush after the last step: print its line. *)
Definition flushStep : prog world unit :=
  λ w, (Normal tt,
        World (files w)
              (if nonEmpty (lastStep w) then trace w ++ [StepLine (lastStep w)]
               else trace w)
              (lastStep w)).

(** Run a shell command in a given working directory. *)
Definition runCommand (e : env) (command : string) (dir : path) : prog world unit :=
  log (Spawn command dir) ;;;
  λ w, let r := child e command dir (files w) in
       let w' := World (filesAfter r) (trace w) (lastStep w) in
       match exitCode r with
       | Some O => (Normal tt, w')
       | Some (S n) =>
           (Throw (Error ("Command failed ("
                          +:+ NilZero.string_of_uint (Nat.to_uint (S n))
                          +:+ "): " +:+ command)), w')
       | None => (Throw (SystemError "ENOENT"), w')
       end.

(** Resolve the templates directory for create-dzx. *)
Definition resolveTemplatesRoot (e : env) : prog filesystem path :=
  let localTemplatesRoot := dirname (here e) ++ ["templates"] in
  present <~ existsSync localTemplatesRoot ;;
  if present then ret localTemplatesRoot
  else ret (cwd e ++ ["node_modules"; "create-dzx"; "templates"]).

(** The version of the installed @dwizi/dzx, or ["*"]. *)
Definition getDzxVersion (e : env) : prog filesystem string :=
  tryCatch
    (match dzxPackageJson e with
     | None => throw (Error "Cannot find module")
     | Some dzxPkgJsonPath =>
         text <~ readFileSync dzxPkgJsonPath ;;
         dzxPkg <~ JSON_parse text ;;
         if jsTruthy dzxPkg then
           version <~ getMember dzxPkg "version" ;;
           match version with
           | Some (JStr v) => if nonEmpty (trim v) then ret (trim v) else ret "*"
           | _ => ret "*"
           end
         else ret "*"
     end)
    (ret "*").

End Process.

(** ** Main scaffolding function *)

(** The options a run has settled on once its flags are read and its
    questions answered. *)
Record options : Type := Options {
  targetDir : path;
  template : string;
  runtime : string;
  force : bool;
  isYes : bool;
  shouldInstall : bool
}.

Section Main.
Variable e : env.

Definition defaultDir : string := "my-agent".

(** [dirArg || defaultDir] *)
Definition orDefaultDir (dirArg : option value) : value :=
  if truthy dirArg then default (VStr defaultDir) dirArg else VStr defaultDir.

(** [path.resolve(process.cwd(), v)]; only a string is accepted. *)
Definition resolveFromCwd (v : value) : completion path :=
  match v with
  | VStr s => Normal (resolve (cwd e) s)
  | _ => Throw TypeError
  end.

(** A [clack.select] whose cancellation ends the process. *)
Definition ask (question : event) (answer : option string) : prog world value :=
  log question ;;;
  match answer with
  | None => log Cancelled ;;; exit 1
  | Some choice => ret (VStr choice)
  end.

(** From [clack.intro] to the two checks against the closed sets:
    the directory, the template and the runtime of this run. *)
Definition resolveOptions (args : parsedArgs) : prog world options :=
  let force := truthy (args !! "force") in
  let isYes := truthy (args !! "yes") in
  log Intro ;;;
  dirArg <~ match args !! "dir" with
            | Some v => ret (Some v)
            | None => pure (firstPositional args)
            end ;;
  targetDir <~ pure (resolveFromCwd (orDefaultDir dirArg)) ;;
  targetDir <~ (if negb isYes then
                  log (AskDirectory (valueString (orDefaultDir dirArg))) ;;;
                  match directoryAnswer e with
                  | None => log Cancelled ;;; exit 1
                  | Some dirResponse =>
                      ret (resolve (cwd e)
                             (if nonEmpty dirResponse then dirResponse else defaultDir))
                  end
                else ret targetDir) ;;
  template <~ (if truthy (args !! "template") then ret (default VTrue (args !! "template"))
               else if isYes then ret (VStr "basic")
               else ask AskTemplate (templateAnswer e)) ;;
  runtime <~ (if truthy (args !! "runtime") then ret (default VTrue (args !! "runtime"))
              else if isYes then ret (VStr "node")
              else ask AskRuntime (runtimeAnswer e)) ;;
  if negb (includes TEMPLATES template)
  then throw (Error ("Unknown template: " +:+ valueString template))
  else if negb (includes RUNTIMES runtime)
  then throw (Error ("Unknown runtime: " +:+ valueString runtime))
  else ret (Options targetDir (valueString template) (valueString runtime)
                    force isYes (shouldInstallOf args)).

Definition targetNotEmptyMessage (dir : path) : string :=
  "Target directory is not empty: " +:+ pathString dir
  +:+ ". Use --force to overwrite.".

(** The listing of colliding files: at most 8 lines, then ["- ..."]. *)
Definition collisionMessage (collisions : list path) : string :=
  let preview :=
    joinWith newline (map (λ file, "- " +:+ relativeString file) (take 8 collisions)) in
  let suffix := if (8 <? length collisions)%nat then newline +:+ "- ..." else "" in
  "Refusing to overwrite existing files. Use --force to proceed."
  +:+ newline +:+ preview +:+ suffix.

(** The step "Validating destination". *)
Definition checkCollisions (fuel : nat) (templateDir dir : path) : prog filesystem unit :=
  templateFiles <~ listFiles fuel templateDir templateDir ;;
  collisions <~ reads (λ fs,
    Normal (filter (λ file, Is_true (fsExists fs (dir ++ file))) templateFiles)) ;;
  if (0 <? length collisions)%nat
  then throw (Error (collisionMessage collisions))
  else ret tt.

(** The step "Configuring manifest", first file: mcp.json. *)
Definition configureManifest (dir : path) (runtime : string) : prog filesystem unit :=
  let manifestPath := dir ++ ["mcp.json"] in
  present <~ existsSync manifestPath ;;
  if present then
    text <~ readFileSync manifestPath ;;
    manifest <~ JSON_parse text ;;
    manifest <~ setMember manifest "name" (JStr (slugify (basename dir))) ;;
    manifest <~ setMember manifest "runtime" (JStr runtime) ;;
    writeFileSync manifestPath (JSON_stringify manifest 2 false)
  else ret tt.

(** Second file: package.json gets the @dwizi/dzx version. *)
Definition updatePackageJson (dir : path) (dzxVersion : string) : prog filesystem unit :=
  let pkgPath := dir ++ ["package.json"] in
  present <~ existsSync pkgPath ;;
  if present then
    text <~ readFileSync pkgPath ;;
    pkg <~ JSON_parse text ;;
    dependencies <~ getMember pkg "dependencies" ;;
    match dependencies with
    | Some deps =>
        if jsTruthy deps then
          current <~ getMember deps "@dwizi/dzx" ;;
          if memberTruthy current then
            deps' <~ setMember deps "@dwizi/dzx" (JStr ("^" +:+ dzxVersion)) ;;
            pkg' <~ setMember pkg "dependencies" deps' ;;
            writeFileSync pkgPath (JSON_stringify pkg' 2 true)
          else ret tt
        else ret tt
    | None => ret tt
    end
  else ret tt.

(** The step "Installing dependencies". *)
Definition installDependencies (dir : path) : prog world unit :=
  step "Installing dependencies" ;;;
  present <~ onFiles (existsSync (dir ++ ["package.json"])) ;;
  if negb present
  then throw (Error "Missing package.json in template. Cannot install dependencies.")
  else
    pm <~ onFiles (reads (λ fs, Normal (detectPackageManager fs dir))) ;;
    let installCommand := getInstallCommand pm in
    tryCatch (runCommand e installCommand dir)
      (throw (Error ("Dependency installation failed. Run `"
                     +:+ installCommand +:+ "` manually."))).

(** From the check of the destination to the last printed line. *)
Definition scaffold (fuel : nat) (o : options) : prog world unit :=
  empty <~ (if negb (force o) then onFiles (isEmptyDir (targetDir o)) else ret true) ;;
  if negb (force o) && negb empty
  then throw (Error (targetNotEmptyMessage (targetDir o)))
  else
    templatesRoot <~ onFiles (resolveTemplatesRoot e) ;;
    let templateDir := templatesRoot ++ [template o] in
    found <~ onFiles (existsSync templateDir) ;;
    if negb found then throw (Error ("Template not found: " +:+ template o))
    else
      (if force o && negb (isYes o) then
         log AskOverwrite ;;;
         match overwriteAnswer e with
         | Some true => ret tt
         | _ => log Cancelled ;;; exit 1
         end
       else ret tt) ;;;
      dzxVersion <~ onFiles (getDzxVersion e) ;;
      log Banner ;;;
      step "Validating destination" ;;;
      (if negb (force o)
       then onFiles (checkCollisions fuel templateDir (targetDir o))
       else ret tt) ;;;
      step "Copying template" ;;;
      onFiles (copyDir fuel templateDir (targetDir o)) ;;;
      step "Configuring manifest" ;;;
      onFiles (configureManifest (targetDir o) (runtime o)) ;;;
      onFiles (updatePackageJson (targetDir o) dzxVersion) ;;;
      (if shouldInstall o then installDependencies (targetDir o) else ret tt) ;;;
      step "Finalizing" ;;;
      flushStep ;;;
      log (Ready (targetDir o) (template o) (runtime o) (shouldInstall o)) ;;;
      pm <~ (if shouldInstall o
             then onFiles (reads (λ fs, Normal (detectPackageManager fs (targetDir o))))
             else ret "pnpm") ;;
      log (Next (joinWith " && "
                   (filter (λ s, Is_true (nonEmpty s))
                      [ "cd " +:+ basename (targetDir o);
                        if shouldInstall o then "dzx dev" else pm +:+ " install";
                        if shouldInstall o then "" else "dzx dev" ]))).

Definition main (argv : list string) (fuel : nat) : prog world unit :=
  args <~ pure (parseArgs argv) ;;
  if helpRequested args then log Usage
  else o <~ resolveOptions args ;; scaffold fuel o.

(** [main().catch(...)]: the exit code of the process, if it ends. *)
Definition run (argv : list string) (fuel : nat) (fs : filesystem)
  : option nat * world :=
  match main argv fuel (World fs [] "") with
  | (Normal _, w) => (Some 0, w)
  | (Throw err, w) => (Some 1, World (files w) (trace w ++ [Failure err]) (lastStep w))
  | (Exit code, w) => (Some code, w)
  | (OutOfFuel, w) => (None, w)
  end.

End Main.

(** ** Vocabulary of the statements about slugs *)

Section SlugVocabulary.

(** The characters that a slug may hold, written out one by one. *)
Definition slugAlphabet : string := "abcdefghijklmnopqrstuvwxyz0123456789-_".

Fixpoint occursIn (c : ascii) (s : string) : bool :=
  match s with
  | EmptyString => false
  | String d rest => Ascii.eqb c d || occursIn c rest
  end.

(** The class [[a-z0-9_]]: the slug class without the dash. *)
Definition isWordUnit (c : ascii) : bool := inSlugClass c && negb (isDash c).

Fixpoint allInClass (s : string) : bool :=
  match s with
  | EmptyString => true
  | String c rest => inSlugClass c && allInClass rest
  end.

Fixpoint noDashPair (s : string) : bool :=
  match s with
  | EmptyString => true
  | String c rest =>
      negb (isDash c && match rest with String d _ => isDash d | _ => false end)
      && noDashPair rest
  end.

Definition startsWithDash (s : string) : bool :=
  match s with String c _ => isDash c | EmptyString => false end.

Fixpoint endsWithDash (s : string) : bool :=
  match s with
  | EmptyString => false
  | String c EmptyString => isDash c
  | String _ rest => endsWithDash rest
  end.

End SlugVocabulary.

(** ** The lockfile scan, in the words of its contract *)

Section DetectorContract.

(** The parents of [dir], nearest first, at most [n] of them. *)
Fixpoint ancestors (n : nat) (dir : path) : list path :=
  match n with
  | O => []
  | S n' =>
      if decide (dirname dir = dir) then []
      else dirname dir :: ancestors n' (dirname dir)
  end.

(** The starting directory, then up to 5 ancestors. *)
Definition probedDirectories (start : path) : list path := start :: ancestors 5 start.

(** The four lockfile names of the contract. *)
Definition lockfileNames : list string :=
  ["pnpm-lock.yaml"; "package-lock.json"; "yarn.lock"; "bun.lockb"].

(** The check of one directory in the words of the contract: the
    four names in the fixed priority order pnpm-lock.yaml >
    package-lock.json > yarn.lock > bun.lockb, each with its
    identifier. *)
Definition managerIn (fs : filesystem) (dir : path) : option string :=
  if fsExists fs (dir ++ ["pnpm-lock.yaml"]) then Some "pnpm"
  else if fsExists fs (dir ++ ["package-lock.json"]) then Some "npm"
  else if fsExists fs (dir ++ ["yarn.lock"]) then Some "yarn"
  else if fsExists fs (dir ++ ["bun.lockb"]) then Some "bun"
  else None.

(** The first of the directories that holds a lockfile decides; with
    none, the fixed default. *)
Fixpoint firstManager (fs : filesystem) (dirs : list path) : string :=
  match dirs with
  | [] => "pnpm"
  | dir :: rest =>
      match managerIn fs dir with
      | Some pm => pm
      | None => firstManager fs rest
      end
  end.

(** The contract of the detector. *)
Definition contractManager (fs : filesystem) (start : path) : string :=
  firstManager fs (probedDirectories start).

End DetectorContract.

(** ** Vocabulary of the statements about file trees *)

Section TreeVocabulary.

(** [p] is [q] or one of its ancestors. *)
Definition isPrefix (p q : path) : bool :=
  match stripDir p q with Some _ => true | None => false end.

(** Neither path lies inside the other. *)
Definition apart (p q : path) : bool := negb (isPrefix p q) && negb (isPrefix q p).

Definition allEntries (fs : filesystem) (P : path → entry → bool) : bool :=
  forallb (λ item : path * entry, P item.1 item.2) (map_to_list fs).

(** The root is a directory and every entry sits in a directory. *)
Definition wellFormed (fs : filesystem) : bool :=
  match fs !! [] with Some Directory => true | _ => false end
  && allEntries fs (λ q _,
       match q with
       | [] => true
       | _ => match fs !! dirname q with Some Directory => true | _ => false end
       end).

(** The length of the longest path below [dir]. *)
Definition depthBelow (fs : filesystem) (dir : path) : nat :=
  foldr (λ (item : path * entry) acc,
           match stripDir dir item.1 with
           | Some r => Nat.max (length r) acc
           | None => acc
           end) 0%nat (map_to_list fs).

(** No file stands where [mkdir -p dest] has to walk. *)
Fixpoint clearWay (fs : filesystem) (done todo : path) : bool :=
  match fs !! done with
  | Some (File _) => false
  | _ => match todo with
         | [] => true
         | n :: rest => clearWay fs (done ++ [n]) rest
         end
  end.

(** Wherever the tree at [src] and the tree at [dest] both have an
    entry at the same relative path, both are files or both are
    directories. *)
Definition sameKinds (fs : filesystem) (src dest : path) : bool :=
  allEntries fs (λ q e,
    match stripDir src q with
    | Some r => match fs !! (dest ++ r) with
                | Some e' => eqb (entryIsDirectory e) (entryIsDirectory e')
                | None => true
                end
    | None => true
    end).

(** What [copyDir src dest] leaves at [q], read off the files before
    the copy. *)
Definition copied (fs : filesystem) (src dest q : path) : option entry :=
  match stripDir dest q with
  | Some r => match fs !! (src ++ r) with
              | Some e => Some e
              | None => fs !! q
              end
  | None => if isPrefix q dest then Some Directory else fs !! q
  end.

(** What the loop of [copyDir src dest] has left at [q] once the
    entries called [names] are done: [before] are the files at the
    call, [made] the files after its [mkdirSync]. *)
Definition copiedSoFar (before made : filesystem) (src dest : path)
           (names : list string) (q : path) : option entry :=
  match stripDir dest q with
  | Some (n :: r) =>
      if bool_decide (n ∈ names) then
        match before !! (src ++ n :: r) with
        | Some e => Some e
        | None => made !! q
        end
      else made !! q
  | _ => made !! q
  end.

(** Below [dir], every entry sits in a directory. *)
Definition closedBelow (fs : filesystem) (dir : path) : Prop :=
  ∀ r n, is_Some (fs !! (dir ++ r ++ [n])) → fs !! (dir ++ r) = Some Directory.

End TreeVocabulary.

(** ** Vocabulary of the statements about the manifests *)

Section ManifestVocabulary.

(** mcp.json holds a JSON object. *)
Definition holdsObject (e : option entry) : bool :=
  match e with
  | Some (File (JsonText (JObj _) _ _)) => true
  | _ => false
  end.

(** package.json is missing, or holds JSON other than [null]. *)
Definition missingOrJson (e : option entry) : bool :=
  match e with
  | None => true
  | Some (File (JsonText JNull _ _)) => false
  | Some (File (JsonText _ _ _)) => true
  | _ => false
  end.

(** The kind of what is at a path: [Some true] for a directory,
    [Some false] for a file. *)
Definition kindAt (fs : filesystem) (q : path) : option bool :=
  entryIsDirectory <$> fs !! q.


(** The version that [getDzxVersion] finds: the trimmed [version] of
    the installed package's manifest, when the package resolves, its
    manifest is a file that holds a JSON object, and that [version] is
    a string with something other than white space in it. *)
Definition installedVersion (e : env) (fs : filesystem) : option string :=
  match dzxPackageJson e with
  | Some p =>
      match fs !! p with
      | Some (File (JsonText (JObj props) _ _)) =>
          match lookupProp "version" props with
          | Some (JStr v) => if nonEmpty (trim v) then Some (trim v) else None
          | _ => None
          end
      | _ => None
      end
  | None => None
  end.

End ManifestVocabulary.

(** ** Vocabulary of the statements about a run *)

Section RunVocabulary.

(** A command of the process that writes no file and whose result,
    when it returns, satisfies [Q]. *)
Definition reading {A} (c : prog world A) (Q : A → Prop) : Prop :=
  ∀ w r w', c w = (r, w') → files w' = files w ∧ ∀ a, r = Normal a → Q a.

(** What a run has settled on when [main] reaches the check of the
    destination; [None] when it printed the usage text instead. *)
Definition settle (e : env) (argv : list string) : prog world (option options) :=
  args <~ pure (parseArgs argv) ;;
  if helpRequested args then log Usage ;;; ret None
  else o <~ resolveOptions e args ;; ret (Some o).

(** What the parser stored, looked at through [f]. *)
Definition inspect {A} (argv : list string) (f : parsedArgs → A) : option A :=
  match parseArgs argv with
  | Normal args => Some (f args)
  | _ => None
  end.

Definition isSpawn (ev : event) : bool :=
  match ev with Spawn _ _ => true | _ => false end.

End RunVocabulary.

(** ** Sample worlds *)

Section Samples.

Definition sampleManifest : json :=
  JObj [ ("name", JStr "dzx-template"); ("version", JStr "0.1.0");
         ("runtime", JStr "deno") ].

Definition samplePackage : json :=
  JObj [ ("name", JStr "dzx-template");
         ("dependencies",
          JObj [ ("@dwizi/dzx", JStr "^0.1.0"); ("zod", JStr "^3.0.0") ]);
         ("private", JBool true) ].

Definition templatesDir : path := ["opt"; "create-dzx"; "templates"].

(** A machine with the CLI installed under /opt/create-dzx, the
    templates tools-only and basic, and an empty /work. *)
Definition sampleFiles : filesystem :=
  list_to_map
    [ ([], Directory);
      (["work"], Directory);
      (["opt"], Directory);
      (["opt"; "create-dzx"], Directory);
      (["opt"; "create-dzx"; "bin"], Directory);
      (["opt"; "create-dzx"; "bin"; "index.js"], File (Text "#!/usr/bin/env node"));
      (templatesDir, Directory);
      (templatesDir ++ ["tools-only"], Directory);
      (templatesDir ++ ["tools-only"; "mcp.json"], File (JsonText sampleManifest 2 true));
      (templatesDir ++ ["tools-only"; "package.json"],
       File (JsonText samplePackage 2 true));
      (templatesDir ++ ["tools-only"; "tools"], Directory);
      (templatesDir ++ ["tools-only"; "tools"; "hello.ts"], File (Text "export {}"));
      (templatesDir ++ ["basic"], Directory);
      (templatesDir ++ ["basic"; ".gitignore"], File (Text "node_modules"));
      (templatesDir ++ ["basic"; "README.md"], File (Text "# basic"));
      (templatesDir ++ ["basic"; "mcp.json"], File (JsonText sampleManifest 2 true));
      (templatesDir ++ ["basic"; "package.json"], File (JsonText samplePackage 2 true));
      (templatesDir ++ ["basic"; "tsconfig.json"], File (JsonText (JObj []) 2 true));
      (templatesDir ++ ["basic"; "prompts"], Directory);
      (templatesDir ++ ["basic"; "prompts"; "greet.md"], File (Text "Hello"));
      (templatesDir ++ ["basic"; "resources"], Directory);
      (templatesDir ++ ["basic"; "resources"; "about.md"], File (Text "About"));
      (templatesDir ++ ["basic"; "src"], Directory);
      (templatesDir ++ ["basic"; "src"; "server.ts"], File (Text "export {}"));
      (templatesDir ++ ["basic"; "tools"], Directory);
      (templatesDir ++ ["basic"; "tools"; "hello.ts"], File (Text "export {}")) ].

(** The same machine with a project already in /work/my-agent: one
    file for each of the nine files of the basic template. *)
Definition occupiedFiles : filesystem :=
  list_to_map
    [ (["work"; "my-agent"], Directory);
      (["work"; "my-agent"; ".gitignore"], File (Text "dist"));
      (["work"; "my-agent"; "README.md"], File (Text "# mine"));
      (["work"; "my-agent"; "mcp.json"], File (JsonText sampleManifest 2 true));
      (["work"; "my-agent"; "package.json"], File (JsonText samplePackage 2 true));
      (["work"; "my-agent"; "tsconfig.json"], File (JsonText (JObj []) 2 true));
      (["work"; "my-agent"; "prompts"], Directory);
      (["work"; "my-agent"; "prompts"; "greet.md"], File (Text "Hi"));
      (["work"; "my-agent"; "resources"], Directory);
      (["work"; "my-agent"; "resources"; "about.md"], File (Text "Mine"));
      (["work"; "my-agent"; "src"], Directory);
      (["work"; "my-agent"; "src"; "server.ts"], File (Text "export {}"));
      (["work"; "my-agent"; "tools"], Directory);
      (["work"; "my-agent"; "tools"; "hello.ts"], File (Text "export {}")) ]
  ∪ sampleFiles.

(** The same machine with one note in /work/site. *)
Definition notedFiles : filesystem :=
  <[ ["work"; "site"; "notes.txt"] := File (Text "todo") ]>
    (<[ ["work"; "site"] := Directory ]> sampleFiles).

(** A run from /work in which every prompt is cancelled, no
    @dwizi/dzx is installed and a child process would succeed
    without touching the files. *)
Definition sampleEnv : env :=
  {| cwd := ["work"];
     here := ["opt"; "create-dzx"; "bin"];
     dzxPackageJson := None;
     directoryAnswer := None;
     templateAnswer := None;
     runtimeAnswer := None;
     overwriteAnswer := None;
     child := λ _ _ fs, ChildResult (Some 0%nat) fs |}.





(** The tools-only template with an mcp.json that is not JSON. *)
Definition brokenManifestFiles : filesystem :=
  <[ templatesDir ++ ["tools-only"; "mcp.json"] := File (Text "{ name: ") ]> sampleFiles.

End Samples.

(** ** The parser, in the words of its contract *)

Section ParserContract.

(** A token that can be the value of the flag before it: it is not
    empty and is not itself a flag. *)
Definition isValue (token : string) : bool :=
  nonEmpty token && negb (startsWithDashes token).

(** The positionals of [argv], read off token by token: a token is
    positional when it is not a flag and is not the value of a flag
    right before it.  [prev] is the token before [argv], if any. *)
Fixpoint positionalsAfter (prev : option string) (argv : list string) : list string :=
  match argv with
  | [] => []
  | token :: rest =>
      let taken :=
        match prev with
        | Some flag => startsWithDashes flag && isValue token
        | None => false
        end in
      (if negb (startsWithDashes token) && negb taken then [token] else [])
      ++ positionalsAfter (Some token) rest
  end.

Definition positionalsOf (argv : list string) : list string :=
  positionalsAfter None argv.

(** What the flag [--key] stands for in [argv]: its last occurrence
    decides, and gives the token after it when that token can be a
    value, [true] otherwise. *)
Fixpoint flagValue (key : string) (argv : list string) : option value :=
  match argv with
  | [] => None
  | token :: rest =>
      match flagValue key rest with
      | Some v => Some v
      | None =>
          if decide (token = "--" +:+ key) then
            match rest with
            | next :: _ => if isValue next then Some (VStr next) else Some VTrue
            | [] => Some VTrue
            end
          else None
      end
  end.

(** The cut between [a] and [b] does not part a flag from its value. *)
Definition cleanCut (a b : list string) : bool :=
  match last a, b with
  | Some flag, token :: _ => negb (startsWithDashes flag && isValue token)
  | _, _ => true
  end.

End ParserContract.

(** ** More vocabulary of the statements about file trees *)

Section MoreTreeVocabulary.

(** Every entry of [fs] is still there in [fs'], and is of the same
    kind as before. *)
Definition kept (fs fs' : filesystem) : Prop :=
  ∀ q k, kindAt fs q = Some k → kindAt fs' q = Some k.

(** The code of the error that [mkdir -p dest] raises when a file
    stands at [q], on the way to [dest]. *)
Definition blockedCode (q dest : path) : string :=
  if decide (q = dest) then "EEXIST" else "ENOTDIR".

(** The code of the error that [readdir] raises for a source that is
    not a directory: ENOTDIR when the source is a regular file or a
    regular file stands above it, ENOENT when it is missing and no
    file stands above it. *)
Definition readdirCode (fs : filesystem) (src : path) : string :=
  if clearWay fs [] src then "ENOENT" else "ENOTDIR".

End MoreTreeVocabulary.

(** ** More vocabulary of the statements about slugs and versions *)

Section MoreSlugVocabulary.

(** A string that is already a slug. *)
Definition isSlug (s : string) : bool :=
  allInClass s && noDashPair s && negb (startsWithDash s) && negb (endsWithDash s).

End MoreSlugVocabulary.

(** ** More vocabulary of the statements about a run *)

Section MoreRunVocabulary.

(** A question put to the user, or the notice that one was cancelled. *)
Definition isPrompt (ev : event) : bool :=
  match ev with
  | AskDirectory _ | AskTemplate | AskRuntime | AskOverwrite | Cancelled => true
  | _ => false
  end.

(** A command of the process that, whatever its outcome, only adds to
    the trace, and only events that satisfy [P]. *)
Definition emits {A} (P : event → bool) (c : prog world A) : Prop :=
  ∀ w, ∃ evs, trace (snd (c w)) = trace w ++ evs ∧ forallb P evs = true.

(** The line that closes the step "Validating destination"; it is
    printed when the step "Copying template" begins. *)
Definition isValidated (ev : event) : bool :=
  match ev with
  | StepLine label => bool_decide (label = "Validating destination")
  | _ => false
  end.

Definition copyBegun (tr : list event) : bool := existsb isValidated tr.

End MoreRunVocabulary.

(** ** More sample worlds *)

Section MoreSamples.

(** A run from /work in which the user names the directory "app",
    picks the basic template and the node runtime, and declines to
    overwrite. *)
Definition decliningEnv : env :=
  {| cwd := ["work"];
     here := ["opt"; "create-dzx"; "bin"];
     dzxPackageJson := None;
     directoryAnswer := Some "app";
     templateAnswer := Some "basic";
     runtimeAnswer := Some "node";
     overwriteAnswer := Some false;
     child := λ _ _ fs, ChildResult (Some 0%nat) fs |}.

(** A checkout with the package of the CLI beside the dzx package,
    which is at version 0.5.1: the templates of dzx, and an older copy
    of them in the package of the CLI, one file of which dzx no longer
    has. *)
Definition monorepoFiles : filesystem :=
  list_to_map
    [ ([], Directory);
      (["repo"], Directory);
      (["repo"; "dzx"], Directory);
      (["repo"; "dzx"; "package.json"],
       File (JsonText (JObj [("name", JStr "@dwizi/dzx"); ("version", JStr "0.5.1")])
                      2 true));
      (["repo"; "dzx"; "templates"], Directory);
      (["repo"; "dzx"; "templates"; "basic"], Directory);
      (["repo"; "dzx"; "templates"; "basic"; "mcp.json"],
       File (JsonText (JObj [("name", JStr "basic")]) 2 true));
      (["repo"; "dzx"; "templates"; "basic"; "package.json"],
       File (JsonText (JObj [("name", JStr "basic")]) 2 true));
      (["repo"; "create-dzx"], Directory);
      (["repo"; "create-dzx"; "scripts"], Directory);
      (["repo"; "create-dzx"; "templates"], Directory);
      (["repo"; "create-dzx"; "templates"; "basic"], Directory);
      (["repo"; "create-dzx"; "templates"; "basic"; "old.txt"], File (Text "stale")) ].

End MoreSamples.

(** ** Terminal output: colours, the summary list, the spinner *)

Section Colours.









End Colours.

(** ** The progress reporter: the spinner and the timed steps *)

Module Progress.

(** What is written to the terminal.  The glyph of a frame and the
    layout of a finished line are not spelled out: [Frame i m] is the
    write of ["\r"], the [i]-th of the four frames in gray, two spaces
    and [m]; [Done label ms] is the line that [logStep] logs for a
    step and its time. *)
Inductive output : Type :=
| ClearLine
| Frame (frame : nat) (message : string)
| Done (label : string) (ms : Z).

(** The variables of [createSpinner]; [timer] holds the handle that
    [setInterval] returned. *)
Record spinner : Type := Spinner {
  timer : option nat;
  message : string;
  frameIndex : nat
}.

(** The terminal and the timers of the runtime: what was written, the
    intervals that are live, and how many handles were given out. *)
Record runtime : Type := Runtime {
  stdout : list output;
  intervals : list nat;
  handles : nat
}.

(** The variables of the step timer in [main]. *)
Record timings : Type := Timings {
  stepTimes : list (string * Z);
  stepStart : Z;
  lastStep : string;
  spinnerStarted : bool
}.

Record state : Type := State {
  spin : spinner;
  term : runtime;
  steps : timings
}.

Section Spinner.
(** [createSpinner(enabled)] *)
Variable enabled : bool.

Definition write (o : output) (s : state) : state :=
  State (spin s) (Runtime (stdout (term s) ++ [o]) (intervals (term s)) (handles (term s)))
        (steps s).

Definition setMessage (m : string) (s : state) : state :=
  State (Spinner (timer (spin s)) m (frameIndex (spin s))) (term s) (steps s).

(** [timer = setInterval(render, 80)] *)
Definition setInterval (s : state) : state :=
  let h := handles (term s) in
  State (Spinner (Some h) (message (spin s)) (frameIndex (spin s)))
        (Runtime (stdout (term s)) (h :: intervals (term s)) (S h))
        (steps s).

(** [clearInterval(timer); timer = null] *)
Definition clearInterval (h : nat) (s : state) : state :=
  State (Spinner None (message (spin s)) (frameIndex (spin s)))
        (Runtime (stdout (term s)) (filter (λ i, i ≠ h) (intervals (term s)))
                 (handles (term s)))
        (steps s).

Definition clearLine (s : state) : state :=
  if negb enabled then s else write ClearLine s.

Definition render (s : state) : state :=
  if negb enabled then s
  else
    let frame := (frameIndex (spin s) mod 4)%nat in
    write (Frame frame (message (spin s)))
          (State (Spinner (timer (spin s)) (message (spin s)) (S (frameIndex (spin s))))
                 (term s) (steps s)).

Definition start (nextMessage : string) (s : state) : state :=
  let s := setMessage nextMessage s in
  match timer (spin s) with
  | Some _ => s
  | None => if negb enabled then s else setInterval (render s)
  end.

Definition update (nextMessage : string) (s : state) : state :=
  let s := setMessage nextMessage s in
  match timer (spin s) with
  | Some _ => if negb enabled then s else render s
  | None => s
  end.

Definition pause (s : state) : state :=
  match timer (spin s) with
  | Some h => if negb enabled then s else clearLine (clearInterval h s)
  | None => s
  end.

Definition resume (s : state) : state :=
  match timer (spin s) with
  | Some _ => s
  | None =>
      if negb enabled || negb (nonEmpty (message (spin s))) then s
      else setInterval (render s)
  end.

Definition stop (s : state) : state := setMessage "" (pause s).

(** The runtime fires the interval [h]: its callback is [render]. *)
Definition tick (h : nat) (s : state) : state :=
  if bool_decide (h ∈ intervals (term s)) then render s else s.

(** [logStep(label, ms)] *)
Definition logStep (label : string) (ms : Z) (s : state) : state :=
  if enabled then resume (write (Done label ms) (pause s))
  else write (Done label ms) s.

(** [stepTimes.push({ label: lastStep, ms }); logStep(lastStep, ms)],
    when [lastStep] is not empty. *)
Definition closeStep (now : Z) (s : state) : state :=
  if nonEmpty (lastStep (steps s)) then
    let ms := (now - stepStart (steps s))%Z in
    let s := State (spin s) (term s)
                   (Timings (stepTimes (steps s) ++ [(lastStep (steps s), ms)])
                            (stepStart (steps s)) (lastStep (steps s))
                            (spinnerStarted (steps s))) in
    logStep (lastStep (steps s)) ms s
  else s.

(** [step(message)]; [now] is what [Date.now()] returns. *)
Definition step (now : Z) (nextMessage : string) (s : state) : state :=
  let s := closeStep now s in
  let s := State (spin s) (term s)
                 (Timings (stepTimes (steps s)) now nextMessage (spinnerStarted (steps s))) in
  if enabled then
    if spinnerStarted (steps s) then update nextMessage s
    else start nextMessage
           (State (spin s) (term s)
                  (Timings (stepTimes (steps s)) (stepStart (steps s)) (lastStep (steps s))
                           true))
  else s.

(** The end of [main]: the last step is closed and the spinner
    stopped. *)
Definition finish (now : Z) (s : state) : state := stop (closeStep now s).

(** [stepTimes.reduce((sum, item) => sum + item.ms, 0)] *)
Definition totalMs (s : state) : Z :=
  fold_left (λ sum item, (sum + item.2)%Z) (stepTimes (steps s)) 0%Z.

(** What can happen to the reporter, one event at a time. *)
Inductive action : Type :=
| Start (nextMessage : string)
| Update (nextMessage : string)
| Pause
| Resume
| Stop
| Tick (h : nat)
| LogStep (label : string) (ms : Z)
| Step (now : Z) (nextMessage : string)
| Finish (now : Z).

Definition act (a : action) (s : state) : state :=
  match a with
  | Start m => start m s
  | Update m => update m s
  | Pause => pause s
  | Resume => resume s
  | Stop => stop s
  | Tick h => tick h s
  | LogStep label ms => logStep label ms s
  | Step now m => step now m s
  | Finish now => finish now s
  end.

Definition run (actions : list action) (s : state) : state :=
  fold_left (λ s a, act a s) actions s.

End Spinner.

(** The reporter when [main] creates it; [now] is the first reading
    of the clock. *)
Definition initial (now : Z) : state :=
  State (Spinner None "" 0) (Runtime [] [] 0) (Timings [] now "" false).

(** The frames among what was written, and the finished lines. *)
Definition frames (out : list output) : list nat :=
  omap (λ o, match o with Frame i _ => Some i | _ => None end) out.

Definition finished (out : list output) : list (string * Z) :=
  omap (λ o, match o with Done label ms => Some (label, ms) | _ => None end) out.

(** No finished line comes right after a frame. *)
Fixpoint tidy (out : list output) : bool :=
  match out with
  | Frame _ _ :: (Done _ _ :: _) => false
  | _ :: rest => tidy rest
  | [] => true
  end.

Definition lastIsFrame (out : list output) : bool :=
  match last out with Some (Frame _ _) => true | _ => false end.

(** What holds of the reporter after every action: the live intervals
    are the one that [timer] holds, if any; no finished line was
    written onto a frame; while no interval is live the last write is
    not a frame; a spinner that is not enabled holds no interval; and
    the frames written run through the four glyphs in a cycle. *)
Definition consistent (enabled : bool) (s : state) : Prop :=
  intervals (term s) = match timer (spin s) with Some h => [h] | None => [] end
  ∧ tidy (stdout (term s)) = true
  ∧ (timer (spin s) = None → lastIsFrame (stdout (term s)) = false)
  ∧ (enabled = false → timer (spin s) = None)
  ∧ frames (stdout (term s)) = (λ i, i mod 4)%nat <$> seq 0 (frameIndex (spin s)).

(** A run of [main]: steps with labels that are not empty, and firings
    of the interval in between. *)
Definition isProtocol (a : action) : bool :=
  match a with
  | Step _ m => nonEmpty m
  | Tick _ => true
  | _ => false
  end.

Definition stepsOf (actions : list action) : list (Z * string) :=
  omap (λ a, match a with Step now m => Some (now, m) | _ => None end) actions.

(** The spinner proper leaves the timings and the finished lines
    alone. *)
Definition untouched (f : state → state) : Prop :=
  ∀ s, steps (f s) = steps s ∧ finished (stdout (term (f s))) = finished (stdout (term s)).

(** The timings while [main] goes through its steps. *)
Definition onTrack (actions : list action) (s : state) : Prop :=
  map fst (stepTimes (steps s))
    ++ (if nonEmpty (lastStep (steps s)) then [lastStep (steps s)] else [])
  = map snd (stepsOf actions)
  ∧ finished (stdout (term s)) = stepTimes (steps s)
  ∧ match stepsOf actions with
    | [] => lastStep (steps s) = "" ∧ stepTimes (steps s) = []
    | (first, _) :: _ =>
        nonEmpty (lastStep (steps s)) = true
        ∧ totalMs s = (stepStart (steps s) - first)%Z
    end.

Definition isDone (o : output) : bool :=
  match o with Done _ _ => true | _ => false end.

End Progress.

(** The steps of the reporter as [main] in this development shows
    them: [step] for each step of the protocol, then the flush. *)
Definition shownSteps (actions : list Progress.action) (w : world) : world :=
  snd (flushStep
         (fold_left (λ w a, match a with
                            | Progress.Step _ m => snd (step m w)
                            | _ => w
                            end) actions w)).

Definition stepLabels (tr : list event) : list string :=
  omap (λ ev, match ev with StepLine label => Some label | _ => None end) tr.

(** ** The script that copies the templates into the package *)

Section CopyTemplates.

(** [fs.rmSync(p, { recursive: true, force: true })]: [p] goes with
    all that is below it; a path that does not exist is no error. *)
Definition fsRm (p : path) (fs : filesystem) : filesystem :=
  filter (λ item : path * entry, isPrefix p item.1 = false) fs.

Definition rmSync (p : path) : prog filesystem unit :=
  writes (λ fs, Normal (fsRm p fs)).

(** [v ?? {}] *)
Definition orEmptyObject (v : option json) : json :=
  match v with
  | None | Some JNull => JObj []
  | Some d => d
  end.

(** Update the copied templates to pin the current @dwizi/dzx version.
    [version] is the text that the template literal gives for the
    argument. *)
Definition updateTemplateDependency (createDzxTemplatesDir : path)
           (templateName version : string) : prog filesystem unit :=
  let templatePackagePath :=
    resolve (resolve createDzxTemplatesDir templateName) "package.json" in
  present <~ existsSync templatePackagePath ;;
  if negb present then ret tt
  else
    contents <~ readFileSync templatePackagePath ;;
    pkg <~ JSON_parse contents ;;
    current <~ getMember pkg "dependencies" ;;
    let dependencies := orEmptyObject current in
    pkg <~ setMember pkg "dependencies" dependencies ;;
    dependencies <~ setMember dependencies "@dwizi/dzx" (JStr ("^" +:+ version)) ;;
    pkg <~ setMember pkg "dependencies" dependencies ;;
    writeFileSync templatePackagePath (JSON_stringify pkg 2 true).

(** The digits that [Number.prototype.toString] writes for the double
    [m * 10^e] are outside the embedding, which takes them from
    here. *)
Variable numberToString : Z → Z → string.

(** [String(j)] for a value that [JSON.parse] produced, as a template
    literal computes it; [None] when the conversion throws a
    TypeError.  An array is its items joined by [","], with [null]
    written as the empty text; an object is ["[object Object]"],
    unless it has a property of its own named [toString], which is no
    function and leaves nothing to convert with. *)
Fixpoint toText (j : json) : option string :=
  match j with
  | JNull => Some "null"
  | JBool true => Some "true"
  | JBool false => Some "false"
  | JNum m e => Some (numberToString m e)
  | JStr s => Some s
  | JArr items =>
      (fix join (items : list json) : option string :=
         match items with
         | [] => Some ""
         | item :: rest =>
             match (match item with JNull => Some "" | _ => toText item end) with
             | None => None
             | Some first =>
                 match rest with
                 | [] => Some first
                 | _ :: _ =>
                     match join rest with
                     | Some more => Some (first +:+ "," +:+ more)
                     | None => None
                     end
                 end
             end
         end) items
  | JObj props =>
      match lookupProp "toString" props with
      | Some _ => None
      | None => Some "[object Object]"
      end
  end.

(** The text of [${v}] in a template literal; [None] is
    [undefined]. *)
Definition templateLiteral {S} (v : option json) : prog S string :=
  match v with
  | None => ret "undefined"
  | Some j => match toText j with
              | Some text => ret text
              | None => throw TypeError
              end
  end.

(** [updateTemplateDependency] as the script calls it, with a version
    that is whatever the [version] property of the dzx package.json
    holds. *)
Definition updateTemplateDependencyOf (createDzxTemplatesDir : path)
           (templateName : string) (version : option json) : prog filesystem unit :=
  let templatePackagePath :=
    resolve (resolve createDzxTemplatesDir templateName) "package.json" in
  present <~ existsSync templatePackagePath ;;
  if negb present then ret tt
  else
    contents <~ readFileSync templatePackagePath ;;
    pkg <~ JSON_parse contents ;;
    current <~ getMember pkg "dependencies" ;;
    let dependencies := orEmptyObject current in
    pkg <~ setMember pkg "dependencies" dependencies ;;
    text <~ templateLiteral version ;;
    dependencies <~ setMember dependencies "@dwizi/dzx" (JStr ("^" +:+ text)) ;;
    pkg <~ setMember pkg "dependencies" dependencies ;;
    writeFileSync templatePackagePath (JSON_stringify pkg 2 true).

(** The paths of the script, from the directory it lies in. *)
Definition dzxTemplatesDir (__dirname : path) : path :=
  resolve (resolve __dirname "../..") "dzx/templates".

Definition createDzxTemplatesDir (__dirname : path) : path :=
  resolve (resolve __dirname "..") "templates".

Definition dzxPackagePath (__dirname : path) : path :=
  resolve (resolve (resolve __dirname "../..") "dzx") "package.json".

Definition templateNames : list string := ["basic"; "tools-only"; "full"].

(** The script, statement by statement; what it logs is left out.
    An error that it does not catch ends it. *)
Definition copyTemplates (fuel : nat) (__dirname : path) : prog filesystem unit :=
  present <~ existsSync (createDzxTemplatesDir __dirname) ;;
  (if negb present then mkdirSync (createDzxTemplatesDir __dirname) else ret tt) ;;;
  found <~ existsSync (dzxTemplatesDir __dirname) ;;
  if negb found then exit 1
  else
    present <~ existsSync (createDzxTemplatesDir __dirname) ;;
    (if present then rmSync (createDzxTemplatesDir __dirname) else ret tt) ;;;
    copyDir fuel (dzxTemplatesDir __dirname) (createDzxTemplatesDir __dirname) ;;;
    contents <~ readFileSync (dzxPackagePath __dirname) ;;
    dzxPackage <~ JSON_parse contents ;;
    dzxVersion <~ getMember dzxPackage "version" ;;
    forEach templateNames (λ name,
      updateTemplateDependencyOf (createDzxTemplatesDir __dirname) name dzxVersion).

(** The dependencies of a package.json that the script can pin: the
    property is absent, [null], or an object. *)
Definition pinnable (props : list (string * json)) : option (list (string * json)) :=
  match lookupProp "dependencies" props with
  | None | Some JNull => Some []
  | Some (JObj deps) => Some deps
  | Some _ => None
  end.

(** What the script can pin at the place of a package.json: nothing
    is there, or a file that holds an object with such
    dependencies. *)
Definition pinnableEntry (e : option entry) : bool :=
  match e with
  | None => true
  | Some (File (JsonText (JObj props) _ _)) =>
      match pinnable props with Some _ => true | None => false end
  | Some _ => false
  end.

End CopyTemplates.

(** * Properties *)

(** ** slugify *)

Example slugify_my_agent : slugify "My Agent!!" = "my-agent".
Proof. reflexivity. Qed.

Example slugify_out : slugify "out" = "out".
Proof. reflexivity. Qed.

Example slugify_dashes : slugify "--A__b--c.d--" = "a__b-c-d".
Proof. reflexivity. Qed.

Section SlugFacts.

Lemma toLowerUnit_class c : inSlugClass c = true → toLowerUnit c = c.
Proof.
  unfold inSlugClass, toLowerUnit. intros H.
  destruct ((65 <=? nat_of_ascii c)%nat && (nat_of_ascii c <=? 90)%nat) eqn:E1.
  { apply andb_true_iff in E1 as [?%Nat.leb_le ?%Nat.leb_le].
    repeat (apply orb_true_iff in H as [H|H]);
      try apply andb_true_iff in H as [?%Nat.leb_le ?%Nat.leb_le];
      try apply Nat.eqb_eq in H; lia. }
  destruct ((192 <=? nat_of_ascii c)%nat && (nat_of_ascii c <=? 222)%nat
            && negb (nat_of_ascii c =? 215)%nat) eqn:E2; [|reflexivity].
  apply andb_true_iff in E2 as [E2 _].
  apply andb_true_iff in E2 as [?%Nat.leb_le ?%Nat.leb_le].
  repeat (apply orb_true_iff in H as [H|H]);
    try apply andb_true_iff in H as [?%Nat.leb_le ?%Nat.leb_le];
    try apply Nat.eqb_eq in H; lia.
Qed.

Lemma toLowerCase_class s : allInClass s = true → toLowerCase s = s.
Proof.
  induction s as [|c s IH]; simpl; [reflexivity|].
  intros [Hc Hs]%andb_true_iff. rewrite toLowerUnit_class, IH; auto.
Qed.

Lemma replaceOutsideClass_allInClass s : allInClass (replaceOutsideClass s) = true.
Proof.
  induction s as [|c s IH]; simpl; [reflexivity|].
  rewrite IH, andb_true_r. destruct (inSlugClass c) eqn:E; [exact E|reflexivity].
Qed.

Lemma replaceOutsideClass_class s : allInClass s = true → replaceOutsideClass s = s.
Proof.
  induction s as [|c s IH]; simpl; [reflexivity|].
  intros [Hc Hs]%andb_true_iff. rewrite Hc, IH; auto.
Qed.

Lemma replaceDashRuns_allInClass s :
  allInClass s = true → allInClass (replaceDashRuns s) = true.
Proof.
  induction s as [|c s IH]; [reflexivity|].
  intros [Hc Hs]%andb_true_iff. specialize (IH Hs).
  cbn [replaceDashRuns]. destruct (isDash c); [destruct s as [|d s']|].
  - simpl. rewrite Hc. reflexivity.
  - destruct (isDash d); [exact IH|].
    cbn [allInClass]. rewrite Hc. exact IH.
  - cbn [allInClass]. rewrite Hc. exact IH.
Qed.

Lemma replaceDashRuns_head s :
  startsWithDash (replaceDashRuns s) = startsWithDash s.
Proof.
  induction s as [|c s IH]; [reflexivity|].
  cbn [replaceDashRuns]. destruct (isDash c) eqn:Ec.
  - destruct s as [|d s']; [reflexivity|].
    destruct (isDash d) eqn:Ed.
    + rewrite IH. simpl. rewrite Ec, Ed. reflexivity.
    + reflexivity.
  - reflexivity.
Qed.

Lemma replaceDashRuns_noDashPair s : noDashPair (replaceDashRuns s) = true.
Proof.
  induction s as [|c s IH]; [reflexivity|].
  cbn [replaceDashRuns]. destruct (isDash c) eqn:Ec.
  - destruct s as [|d s']; [simpl; rewrite Ec; reflexivity|].
    destruct (isDash d) eqn:Ed; [exact IH|].
    cbn [noDashPair]. rewrite IH, andb_true_r.
    pose proof (replaceDashRuns_head (String d s')) as Hh.
    unfold startsWithDash in Hh at 2. rewrite Ed in Hh.
    unfold startsWithDash in Hh.
    destruct (replaceDashRuns (String d s')); [rewrite andb_false_r; reflexivity|].
    rewrite Hh, andb_false_r. reflexivity.
  - cbn [noDashPair]. rewrite Ec, IH. reflexivity.
Qed.

Lemma replaceDashRuns_fixed s : noDashPair s = true → replaceDashRuns s = s.
Proof.
  induction s as [|c s IH]; [reflexivity|].
  cbn [noDashPair replaceDashRuns].
  intros [Hc Hs]%andb_true_iff. rewrite (IH Hs).
  destruct (isDash c); [|reflexivity].
  destruct s as [|d s']; [reflexivity|].
  simpl in Hc. destruct (isDash d); [discriminate|reflexivity].
Qed.

Lemma dropLeadingDashes_allInClass s :
  allInClass s = true → allInClass (dropLeadingDashes s) = true.
Proof.
  induction s as [|c s IH]; [reflexivity|].
  intros H. pose proof H as [Hc Hs]%andb_true_iff.
  cbn [dropLeadingDashes]. destruct (isDash c); auto.
Qed.

Lemma dropLeadingDashes_noDashPair s :
  noDashPair s = true → noDashPair (dropLeadingDashes s) = true.
Proof.
  induction s as [|c s IH]; [reflexivity|].
  intros H. pose proof H as [Hc Hs]%andb_true_iff.
  cbn [dropLeadingDashes]. destruct (isDash c); auto.
Qed.

Lemma dropLeadingDashes_head s : startsWithDash (dropLeadingDashes s) = false.
Proof.
  induction s as [|c s IH]; [reflexivity|].
  cbn [dropLeadingDashes]. destruct (isDash c) eqn:Ec; [exact IH|exact Ec].
Qed.

Lemma dropLeadingDashes_fixed s : startsWithDash s = false → dropLeadingDashes s = s.
Proof. destruct s as [|c s]; simpl; [reflexivity|]. intros ->. reflexivity. Qed.

Lemma dropLeadingDashes_allDashes s : allDashes s = true → dropLeadingDashes s = "".
Proof.
  induction s as [|c s IH]; [reflexivity|].
  simpl. intros [-> Hs]%andb_true_iff. auto.
Qed.

Lemma dropTrailingDashes_allInClass s :
  allInClass s = true → allInClass (dropTrailingDashes s) = true.
Proof.
  induction s as [|c s IH]; [reflexivity|].
  intros [Hc Hs]%andb_true_iff. cbn [dropTrailingDashes].
  destruct (allDashes (String c s)); [reflexivity|].
  cbn [allInClass]. rewrite Hc. auto.
Qed.

Lemma dropTrailingDashes_empty s :
  dropTrailingDashes s = "" → allDashes s = true.
Proof.
  destruct s as [|c s]; [reflexivity|]. cbn [dropTrailingDashes].
  destruct (allDashes (String c s)); [reflexivity|discriminate].
Qed.

Lemma dropTrailingDashes_noDashPair s :
  noDashPair s = true → noDashPair (dropTrailingDashes s) = true.
Proof.
  induction s as [|c s IH]; [reflexivity|].
  intros [Hc Hs]%andb_true_iff. cbn [dropTrailingDashes].
  destruct (allDashes (String c s)) eqn:Ea; [reflexivity|].
  cbn [noDashPair]. rewrite (IH Hs), andb_true_r.
  destruct (isDash c) eqn:Ec; [|reflexivity].
  destruct s as [|d s']; [reflexivity|].
  simpl in Hc. destruct (isDash d) eqn:Ed; [discriminate|].
  cbn [dropTrailingDashes]. cbn [allDashes]. rewrite Ed. simpl. rewrite Ed.
  reflexivity.
Qed.

Lemma dropTrailingDashes_head s :
  startsWithDash s = false → startsWithDash (dropTrailingDashes s) = false.
Proof.
  destruct s as [|c s]; [reflexivity|]. cbn [dropTrailingDashes].
  destruct (allDashes (String c s)); [reflexivity|]. simpl. auto.
Qed.

Lemma dropTrailingDashes_tail s : endsWithDash (dropTrailingDashes s) = false.
Proof.
  induction s as [|c s IH]; [reflexivity|].
  cbn [dropTrailingDashes]. destruct (allDashes (String c s)) eqn:Ea; [reflexivity|].
  destruct (dropTrailingDashes s) as [|d t] eqn:Et.
  - apply dropTrailingDashes_empty in Et. simpl in Ea. rewrite Et, andb_true_r in Ea.
    simpl. exact Ea.
  - exact IH.
Qed.

Lemma allDashes_endsWithDash c s :
  allDashes (String c s) = true → endsWithDash (String c s) = true.
Proof.
  revert c. induction s as [|d s IH]; intros c.
  - simpl. rewrite andb_true_r. auto.
  - intros [Hc Hs]%andb_true_iff. specialize (IH d Hs). exact IH.
Qed.

Lemma dropTrailingDashes_fixed s : endsWithDash s = false → dropTrailingDashes s = s.
Proof.
  induction s as [|c s IH]; [reflexivity|].
  intros H. cbn [dropTrailingDashes].
  destruct (allDashes (String c s)) eqn:Ea.
  - apply allDashes_endsWithDash in Ea. congruence.
  - f_equal. apply IH. destruct s as [|d s']; [reflexivity|exact H].
Qed.

Lemma replaceDashRuns_allDashes s :
  allDashes s = true → allDashes (replaceDashRuns s) = true.
Proof.
  induction s as [|c s IH]; [reflexivity|].
  intros [Hc Hs]%andb_true_iff. cbn [replaceDashRuns]. rewrite Hc.
  destruct s as [|d s']; [simpl; rewrite Hc; reflexivity|].
  pose proof Hs as [Hd _]%andb_true_iff. rewrite Hd. auto.
Qed.

(** The four facts about a slug, on the boolean predicates. *)
Lemma slugify_shape s :
  allInClass (slugify s) = true ∧ noDashPair (slugify s) = true
  ∧ startsWithDash (slugify s) = false ∧ endsWithDash (slugify s) = false.
Proof.
  unfold slugify. repeat split.
  - apply dropTrailingDashes_allInClass, dropLeadingDashes_allInClass,
      replaceDashRuns_allInClass, replaceOutsideClass_allInClass.
  - apply dropTrailingDashes_noDashPair, dropLeadingDashes_noDashPair,
      replaceDashRuns_noDashPair.
  - apply dropTrailingDashes_head, dropLeadingDashes_head.
  - apply dropTrailingDashes_tail.
Qed.

Lemma slugify_fixed s :
  allInClass s = true → noDashPair s = true →
  startsWithDash s = false → endsWithDash s = false → slugify s = s.
Proof.
  intros H1 H2 H3 H4. unfold slugify.
  rewrite toLowerCase_class, replaceOutsideClass_class, replaceDashRuns_fixed,
    dropLeadingDashes_fixed, dropTrailingDashes_fixed; auto.
Qed.

(** The boolean predicates, read through [String.get]. *)
Lemma allInClass_get s i c :
  allInClass s = true → String.get i s = Some c → inSlugClass c = true.
Proof.
  revert i. induction s as [|d s IH]; intros i; [discriminate 2|].
  intros [Hd Hs]%andb_true_iff. destruct i as [|i]; simpl.
  - intros [= <-]. exact Hd.
  - eauto.
Qed.

Lemma noDashPair_get s i :
  noDashPair s = true →
  ¬ (String.get i s = Some "-"%char ∧ String.get (S i) s = Some "-"%char).
Proof.
  revert i. induction s as [|d s IH]; intros i; [intros _ [? _]; discriminate|].
  intros [Hd Hs]%andb_true_iff [G1 G2]. destruct i as [|i].
  - simpl in G1, G2. injection G1 as ->.
    destruct s as [|d' s']; [discriminate|]. simpl in G2. injection G2 as ->.
    discriminate Hd.
  - apply (IH i Hs). split; [exact G1|exact G2].
Qed.

Lemma startsWithDash_get s :
  startsWithDash s = false → String.get 0 s ≠ Some "-"%char.
Proof.
  destruct s as [|c s]; [discriminate|]. simpl. intros H [= ->]. discriminate H.
Qed.

Lemma endsWithDash_get s :
  endsWithDash s = false → String.get (String.length s - 1) s ≠ Some "-"%char.
Proof.
  induction s as [|c s IH]; [discriminate|].
  destruct s as [|d s'].
  - simpl. intros H [= ->]. discriminate H.
  - intros H. specialize (IH H).
    replace (String.length (String c (String d s')) - 1)
      with (S (String.length (String d s') - 1)) by (simpl; lia).
    exact IH.
Qed.

(** The class of the regular expression holds the 38 characters of
    the alphabet and no other. *)
Lemma inSlugClass_alphabet c : inSlugClass c = occursIn c slugAlphabet.
Proof.
  destruct c as [b0 b1 b2 b3 b4 b5 b6 b7].
  destruct b0, b1, b2, b3, b4, b5, b6, b7; vm_compute; reflexivity.
Qed.

End SlugFacts.

(** C4. [slugify] is idempotent, and a slug holds only characters of
    [[a-z0-9-_]], has no two dashes in a row and neither begins nor
    ends with a dash.  The characters are those of the alphabet
    written out: the lower-case letters a to z, the digits, the dash
    and the underscore. *)
Theorem slugify_idempotent_clean (s : string) :
  slugify (slugify s) = slugify s
  ∧ (∀ i c, String.get i (slugify s) = Some c → inSlugClass c = true)
  ∧ (∀ i, ¬ (String.get i (slugify s) = Some "-"%char
             ∧ String.get (S i) (slugify s) = Some "-"%char))
  ∧ String.get 0 (slugify s) ≠ Some "-"%char
  ∧ String.get (String.length (slugify s) - 1) (slugify s) ≠ Some "-"%char
  ∧ (∀ i c, String.get i (slugify s) = Some c →
            occursIn c "abcdefghijklmnopqrstuvwxyz0123456789-_" = true).
Proof.
  destruct (slugify_shape s) as (H1 & H2 & H3 & H4).
  split; [apply slugify_fixed; assumption|].
  split; [intros i c; apply allInClass_get; assumption|].
  split; [intros i; apply noDashPair_get; assumption|].
  split; [apply startsWithDash_get; assumption|].
  split; [apply endsWithDash_get; assumption|].
  intros i c Hget. change "abcdefghijklmnopqrstuvwxyz0123456789-_" with slugAlphabet.
  rewrite <- inSlugClass_alphabet. eapply allInClass_get; eassumption.
Qed.

(** ** parseArgs and the flags *)

Section ArgFacts.

Lemma truthy_setProperty key v (args : parsedArgs) k :
  truthy (Some v) = true →
  truthy (args !! k) = true → truthy (setProperty key v args !! k) = true.
Proof.
  intros Hv Hk. unfold setProperty. destruct (decide (key = "__proto__")); [exact Hk|].
  destruct (decide (key = k)) as [->|Hne].
  - rewrite lookup_insert_eq. exact Hv.
  - rewrite lookup_insert_ne by exact Hne. exact Hk.
Qed.

(** Every property that the parser stores is truthy. *)
Lemma parseLoop_truthy_bounded n : ∀ argv (args parsed : parsedArgs),
  (length argv ≤ n)%nat →
  (∀ k, is_Some (args !! k) → truthy (args !! k) = true) →
  parseLoop argv args = Normal parsed →
  ∀ k, is_Some (parsed !! k) → truthy (parsed !! k) = true.
Proof.
  induction n as [|n IH]; intros argv args parsed Hlen Hargs.
  { destruct argv; [intros [= <-]; exact Hargs|simpl in Hlen; lia]. }
  destruct argv as [|arg rest']; [intros [= <-]; exact Hargs|].
  simpl in Hlen. cbn [parseLoop].
  assert (Hset : ∀ key v, truthy (Some v) = true →
            ∀ k, is_Some (setProperty key v args !! k) →
                 truthy (setProperty key v args !! k) = true).
  { intros key v Hv k. unfold setProperty.
    destruct (decide (key = "__proto__")); [apply Hargs|].
    destruct (decide (key = k)) as [->|Hne].
    - rewrite lookup_insert_eq. intros _. exact Hv.
    - rewrite lookup_insert_ne by exact Hne. apply Hargs. }
  destruct (negb (startsWithDashes arg)).
  - destruct (args !! "positional") as [[| |items]|] eqn:Ep; try discriminate.
    apply IH; [simpl; lia|]. intros k.
    destruct (decide ("positional" = k)) as [<-|Hne].
    + rewrite lookup_insert_eq. reflexivity.
    + rewrite lookup_insert_ne by exact Hne. apply Hargs.
  - destruct rest' as [|next rest''].
    + apply IH; [simpl; lia|]. apply Hset. reflexivity.
    + destruct (nonEmpty next && negb (startsWithDashes next)) eqn:En.
      * apply IH; [simpl in *; lia|]. apply Hset.
        apply andb_true_iff in En as [En _]. exact En.
      * apply IH; [simpl in *; lia|]. apply Hset. reflexivity.
Qed.

Lemma parseLoop_truthy argv (args parsed : parsedArgs) :
  (∀ k, is_Some (args !! k) → truthy (args !! k) = true) →
  parseLoop argv args = Normal parsed →
  ∀ k, is_Some (parsed !! k) → truthy (parsed !! k) = true.
Proof. apply (parseLoop_truthy_bounded (length argv)). lia. Qed.

Lemma parseArgs_truthy argv (parsed : parsedArgs) k :
  parseArgs argv = Normal parsed →
  is_Some (parsed !! k) → truthy (parsed !! k) = true.
Proof.
  intros H. eapply parseLoop_truthy; [|exact H].
  intros k'. destruct (decide ("positional" = k')) as [<-|Hne].
  - rewrite lookup_singleton_eq. reflexivity.
  - rewrite lookup_singleton_ne by exact Hne. intros [? ?]. discriminate.
Qed.

(** A [--help] token is never taken as the value of another flag,
    and once the [help] property is set it stays truthy. *)
Lemma parseLoop_help n : ∀ argv (args parsed : parsedArgs),
  (length argv ≤ n)%nat →
  truthy (args !! "help") = true ∨ "--help" ∈ argv →
  parseLoop argv args = Normal parsed →
  truthy (parsed !! "help") = true.
Proof.
  induction n as [|n IH]; intros argv args parsed Hlen Hhelp.
  { destruct argv; [|simpl in Hlen; lia].
    intros [= <-]. destruct Hhelp as [H|H]; [exact H|inversion H]. }
  destruct argv as [|arg rest].
  { intros [= <-]. destruct Hhelp as [H|H]; [exact H|inversion H]. }
  simpl in Hlen. cbn [parseLoop].
  assert (Hset : ∀ v, truthy (Some v) = true →
            truthy (args !! "help") = true ∨ arg = "--help" →
            truthy (setProperty (slice2 arg) v args !! "help") = true).
  { intros v Hv [H| ->].
    - apply truthy_setProperty; assumption.
    - unfold setProperty. cbn [slice2].
      rewrite decide_False by discriminate. rewrite lookup_insert_eq. exact Hv. }
  destruct (startsWithDashes arg) eqn:Earg; cbn [negb].
  - destruct rest as [|next rest'].
    + apply IH; [simpl; lia|]. left. apply Hset; [reflexivity|].
      destruct Hhelp as [H|H]; [auto|]. apply elem_of_cons in H as [H|H]; [auto|inversion H].
    + destruct (nonEmpty next && negb (startsWithDashes next)) eqn:En.
      * apply andb_true_iff in En as [En1 En2]. apply negb_true_iff in En2.
        apply IH; [simpl in *; lia|].
        destruct Hhelp as [H|H].
        { left. apply Hset; auto. }
        apply elem_of_cons in H as [H|H]; [left; apply Hset; auto|].
        apply elem_of_cons in H as [H|H]; [|right; exact H].
        subst next. discriminate En2.
      * apply IH; [simpl in *; lia|].
        destruct Hhelp as [H|H].
        { left. apply Hset; [reflexivity|auto]. }
        apply elem_of_cons in H as [H|H]; [left; apply Hset; [reflexivity|auto]|].
        right. exact H.
  - destruct (args !! "positional") as [[| |items]|] eqn:Ep; try discriminate.
    apply IH; [lia|].
    destruct Hhelp as [H|H].
    + left. rewrite lookup_insert_ne by discriminate. exact H.
    + apply elem_of_cons in H as [H|H]; [subst arg; discriminate Earg|].
      right. exact H.
Qed.

Lemma parseArgs_help argv (parsed : parsedArgs) :
  "--help" ∈ argv → parseArgs argv = Normal parsed → helpRequested parsed = true.
Proof.
  intros Hin Hparse. unfold helpRequested.
  rewrite (parseLoop_help (length argv) argv _ parsed (le_n _) (or_intror Hin) Hparse).
  reflexivity.
Qed.

End ArgFacts.

(** C10. The install decision is true whenever [install] is truthy, also
    when [no-install] is there as well; it is false only when
    [no-install] is truthy and [install] is not; it is true when neither
    is.  Every property that [parseArgs] stores is truthy, so for
    parsed arguments "truthy" and "present" are the same. *)
Theorem install_decision (args : parsedArgs) :
  (truthy (args !! "install") = true → shouldInstallOf args = true)
  ∧ (shouldInstallOf args = false
     ↔ truthy (args !! "no-install") = true ∧ truthy (args !! "install") = false)
  ∧ (truthy (args !! "install") = false → truthy (args !! "no-install") = false →
     shouldInstallOf args = true)
  ∧ (∀ argv, parseArgs argv = Normal args →
       ∀ k, is_Some (args !! k) ↔ truthy (args !! k) = true).
Proof.
  unfold shouldInstallOf. repeat split.
  - intros ->. reflexivity.
  - destruct (truthy (args !! "install")); [discriminate|].
    destruct (truthy (args !! "no-install")); [reflexivity|discriminate].
  - destruct (truthy (args !! "install")); [discriminate|reflexivity].
  - intros [-> ->]. reflexivity.
  - intros -> ->. reflexivity.
  - eapply parseArgs_truthy; eassumption.
  - destruct (args !! k); [eauto|discriminate].
Qed.

Example install_wins :
  ∃ a b c d,
    parseArgs ["--no-install"; "--install"] = Normal a ∧ shouldInstallOf a = true
    ∧ parseArgs ["--install"; "--no-install"] = Normal b ∧ shouldInstallOf b = true
    ∧ parseArgs ["--no-install"] = Normal c ∧ shouldInstallOf c = false
    ∧ parseArgs ["--yes"] = Normal d ∧ shouldInstallOf d = true.
Proof. do 4 eexists. repeat split; vm_compute; reflexivity. Qed.

(** ** detectPackageManager *)

Section DetectorFacts.
Variable fs : filesystem.

Lemma probe_managerIn dir : probe fs dir lockfiles = managerIn fs dir.
Proof. reflexivity. Qed.

Lemma probeParents_firstManager n : ∀ current,
  probeParents n fs current = firstManager fs (ancestors n current).
Proof.
  induction n as [|n IH]; intros current; [reflexivity|].
  cbn [probeParents ancestors].
  destruct (decide (dirname current = current)); [reflexivity|].
  cbn [firstManager]. rewrite probe_managerIn.
  destruct (managerIn fs (dirname current)); [reflexivity|apply IH].
Qed.

Lemma detect_contractManager start :
  detectPackageManager fs start = contractManager fs start.
Proof.
  unfold detectPackageManager, contractManager, probedDirectories.
  cbn [firstManager]. rewrite probe_managerIn.
  destruct (managerIn fs start); [reflexivity|apply probeParents_firstManager].
Qed.

Lemma managerIn_none dir :
  (∀ name, name ∈ lockfileNames → fsExists fs (dir ++ [name]) = false) →
  managerIn fs dir = None.
Proof.
  intros H. unfold managerIn, lockfileNames in *.
  rewrite !H by (repeat constructor). reflexivity.
Qed.

Lemma managerIn_known dir pm :
  managerIn fs dir = Some pm → pm ∈ ["pnpm"; "npm"; "yarn"; "bun"].
Proof.
  unfold managerIn.
  repeat match goal with
    | |- context [fsExists fs ?p] => destruct (fsExists fs p)
    end; intros [= <-]; set_solver.
Qed.

Lemma firstManager_skip dirs rest :
  (∀ d name, d ∈ dirs → name ∈ lockfileNames → fsExists fs (d ++ [name]) = false) →
  firstManager fs (dirs ++ rest) = firstManager fs rest.
Proof.
  induction dirs as [|d dirs IH]; intros H; [reflexivity|].
  cbn [app firstManager]. rewrite managerIn_none.
  - apply IH. intros d' name Hd'. apply H. right. exact Hd'.
  - intros name. apply H. left.
Qed.

Lemma firstManager_known dirs :
  firstManager fs dirs ∈ ["pnpm"; "npm"; "yarn"; "bun"].
Proof.
  induction dirs as [|d dirs IH]; cbn [firstManager]; [set_solver|].
  destruct (managerIn fs d) eqn:E; [|exact IH]. exact (managerIn_known d _ E).
Qed.

Lemma detect_known start :
  detectPackageManager fs start ∈ ["pnpm"; "npm"; "yarn"; "bun"].
Proof. rewrite detect_contractManager. apply firstManager_known. Qed.

Lemma ancestors_length n : ∀ dir, (length (ancestors n dir) ≤ n)%nat.
Proof.
  induction n as [|n IH]; intros dir; cbn [ancestors]; [simpl; lia|].
  destruct (decide (dirname dir = dir)); [simpl; lia|].
  simpl. specialize (IH (dirname dir)). lia.
Qed.

End DetectorFacts.

(** C2. From any starting directory the detector gives what the
    contract gives.  Spelled out: the directories probed are the
    starting directory and then its ancestors, nearest first, at most 5
    of them; in the first of these that holds any of the four
    lockfiles the result is "pnpm" if pnpm-lock.yaml is there, else
    "npm" if package-lock.json is there, else "yarn" if yarn.lock is
    there, else "bun" for bun.lockb; a starting directory that holds
    exactly one of the four names gives that name's identifier; with
    no lockfile in any probed directory the result is "pnpm"; the
    function is total and its result is one of the four
    identifiers. *)
Theorem detectPackageManager_contract (fs : filesystem) (start : path) :
  detectPackageManager fs start = contractManager fs start
  ∧ (∀ before dir after,
       probedDirectories start = before ++ dir :: after →
       (∀ d name, d ∈ before → name ∈ lockfileNames → fsExists fs (d ++ [name]) = false) →
       (fsExists fs (dir ++ ["pnpm-lock.yaml"]) = true →
        detectPackageManager fs start = "pnpm")
       ∧ (fsExists fs (dir ++ ["pnpm-lock.yaml"]) = false →
          fsExists fs (dir ++ ["package-lock.json"]) = true →
          detectPackageManager fs start = "npm")
       ∧ (fsExists fs (dir ++ ["pnpm-lock.yaml"]) = false →
          fsExists fs (dir ++ ["package-lock.json"]) = false →
          fsExists fs (dir ++ ["yarn.lock"]) = true →
          detectPackageManager fs start = "yarn")
       ∧ (fsExists fs (dir ++ ["pnpm-lock.yaml"]) = false →
          fsExists fs (dir ++ ["package-lock.json"]) = false →
          fsExists fs (dir ++ ["yarn.lock"]) = false →
          fsExists fs (dir ++ ["bun.lockb"]) = true →
          detectPackageManager fs start = "bun"))
  ∧ (∀ name pm,
       (name, pm) ∈ [("pnpm-lock.yaml", "pnpm"); ("package-lock.json", "npm");
                     ("yarn.lock", "yarn"); ("bun.lockb", "bun")] →
       fsExists fs (start ++ [name]) = true →
       (∀ other, other ∈ lockfileNames → other ≠ name →
                 fsExists fs (start ++ [other]) = false) →
       detectPackageManager fs start = pm)
  ∧ ((∀ dir name, dir ∈ probedDirectories start → name ∈ lockfileNames →
                  fsExists fs (dir ++ [name]) = false) →
     detectPackageManager fs start = "pnpm")
  ∧ detectPackageManager fs start ∈ ["pnpm"; "npm"; "yarn"; "bun"]
  ∧ (length (probedDirectories start) ≤ 6)%nat
  ∧ (∀ p a b c d e f,
       probedDirectories (p ++ [a; b; c; d; e; f])
       = [p ++ [a; b; c; d; e; f]; p ++ [a; b; c; d; e]; p ++ [a; b; c; d];
          p ++ [a; b; c]; p ++ [a; b]; p ++ [a]]).
Proof.
  split; [apply detect_contractManager|].
  split.
  { intros before dir after Hsplit Hnone.
    rewrite detect_contractManager. unfold contractManager.
    rewrite Hsplit, (firstManager_skip fs before _ Hnone).
    cbn [firstManager]. unfold managerIn.
    repeat split; intros; repeat match goal with H : fsExists _ _ = _ |- _ =>
      rewrite H; clear H end; reflexivity. }
  split.
  { intros name pm Hin Hyes Hno.
    rewrite detect_contractManager. unfold contractManager, probedDirectories.
    cbn [firstManager]. unfold managerIn, lockfileNames in *.
    repeat (apply elem_of_cons in Hin as [[= -> ->]|Hin]); [| | | |inversion Hin];
      rewrite ?Hyes;
      rewrite ?(Hno "pnpm-lock.yaml") by (repeat constructor || discriminate);
      rewrite ?(Hno "package-lock.json") by (repeat constructor || discriminate);
      rewrite ?(Hno "yarn.lock") by (repeat constructor || discriminate);
      rewrite ?Hyes; reflexivity. }
  split.
  { intros Hnone. rewrite detect_contractManager. unfold contractManager.
    rewrite <- (app_nil_r (probedDirectories start)).
    rewrite (firstManager_skip fs _ [] Hnone). reflexivity. }
  split; [apply detect_known|].
  split.
  { unfold probedDirectories. pose proof (ancestors_length 5 start). cbn [length]. lia. }
  intros p a b c d e f. unfold probedDirectories.
  assert (Hup : ∀ q n, dirname (q ++ [n]) = q ∧ dirname (q ++ [n]) ≠ q ++ [n]).
  { intros q n. unfold dirname. rewrite removelast_last. split; [reflexivity|].
    intros E. rewrite <- (app_nil_r q) in E at 1. apply app_inv_head in E. discriminate. }
  assert (Hstep : ∀ k q n, ancestors (S k) (q ++ [n]) = q :: ancestors k q).
  { intros k q n. cbn [ancestors]. destruct (Hup q n) as [-> Hne].
    destruct (decide (q = q ++ [n])) as [E|_]; [|reflexivity].
    destruct Hne. exact E. }
  f_equal.
  replace (p ++ [a; b; c; d; e; f]) with ((p ++ [a; b; c; d; e]) ++ [f])
    by (rewrite <- app_assoc; reflexivity).
  rewrite Hstep. f_equal.
  replace (p ++ [a; b; c; d; e]) with ((p ++ [a; b; c; d]) ++ [e])
    by (rewrite <- app_assoc; reflexivity).
  rewrite Hstep. f_equal.
  replace (p ++ [a; b; c; d]) with ((p ++ [a; b; c]) ++ [d])
    by (rewrite <- app_assoc; reflexivity).
  rewrite Hstep. f_equal.
  replace (p ++ [a; b; c]) with ((p ++ [a; b]) ++ [c])
    by (rewrite <- app_assoc; reflexivity).
  rewrite Hstep. f_equal.
  replace (p ++ [a; b]) with ((p ++ [a]) ++ [b])
    by (rewrite <- app_assoc; reflexivity).
  rewrite Hstep. reflexivity.
Qed.

Example detect_examples :
  let fs : filesystem :=
    list_to_map [ ([], Directory); (["w"], Directory);
                  (["w"; "yarn.lock"], File (Text ""));
                  (["w"; "a"], Directory); (["w"; "a"; "b"], Directory);
                  (["w"; "a"; "bun.lockb"], File (Text ""));
                  (["w"; "a"; "package-lock.json"], File (Text "")) ] in
  detectPackageManager fs ["w"; "a"; "b"] = "npm"
  ∧ detectPackageManager fs ["w"; "a"] = "npm"
  ∧ detectPackageManager fs ["w"] = "yarn"
  ∧ detectPackageManager fs [] = "pnpm"
  ∧ detectPackageManager fs ["w"; "1"; "2"; "3"; "4"; "5"; "6"] = "pnpm"
  ∧ detectPackageManager fs ["w"; "1"; "2"; "3"; "4"; "5"] = "yarn".
Proof. repeat split; vm_compute; reflexivity. Qed.

(** ** Paths *)

Section PathFacts.

Lemma stripDir_app (dir r : path) : stripDir dir (dir ++ r) = Some r.
Proof.
  induction dir as [|a dir IH]; [reflexivity|].
  simpl. rewrite decide_True by reflexivity. exact IH.
Qed.

Lemma stripDir_Some (dir q r : path) : stripDir dir q = Some r → q = dir ++ r.
Proof.
  revert q. induction dir as [|a dir IH]; intros q; simpl.
  - intros [= ->]. reflexivity.
  - destruct q as [|b q]; [discriminate|].
    destruct (decide (a = b)) as [->|]; [|discriminate].
    intros H. rewrite (IH _ H). reflexivity.
Qed.

Lemma isPrefix_true (p q : path) : isPrefix p q = true ↔ ∃ r, q = p ++ r.
Proof.
  unfold isPrefix. split.
  - destruct (stripDir p q) eqn:E; [|discriminate].
    intros _. eexists. apply stripDir_Some. exact E.
  - intros [r ->]. rewrite stripDir_app. reflexivity.
Qed.

Lemma isPrefix_false (p q : path) : isPrefix p q = false ↔ ∀ r, q ≠ p ++ r.
Proof.
  split.
  - intros H r Hr. assert (isPrefix p q = true) by (apply isPrefix_true; eauto).
    congruence.
  - intros H. destruct (isPrefix p q) eqn:E; [|reflexivity].
    apply isPrefix_true in E as [r Hr]. destruct (H r Hr).
Qed.

Lemma isPrefix_false_1 (p q : path) : isPrefix p q = false → ∀ r, q ≠ p ++ r.
Proof. apply isPrefix_false. Qed.

Lemma isPrefix_false_2 (p q : path) : (∀ r, q ≠ p ++ r) → isPrefix p q = false.
Proof. apply isPrefix_false. Qed.

Lemma isPrefix_app (p r : path) : isPrefix p (p ++ r) = true.
Proof. apply isPrefix_true. eauto. Qed.

Lemma isPrefix_refl (p : path) : isPrefix p p = true.
Proof. apply isPrefix_true. exists []. rewrite app_nil_r. reflexivity. Qed.

(** The prefixes of [p ++ [n]] are those of [p], and the path itself. *)
Lemma isPrefix_snoc (q p : path) (n : string) :
  isPrefix q (p ++ [n]) = true → isPrefix q p = true ∨ q = p ++ [n].
Proof.
  rewrite !isPrefix_true. intros [r Hr].
  destruct r as [|m r' _] using rev_ind.
  - right. rewrite app_nil_r in Hr. congruence.
  - left. rewrite app_assoc in Hr. apply app_inj_tail in Hr as [-> _]. eauto.
Qed.

Lemma apart_spec (p q : path) :
  apart p q = true ↔ isPrefix p q = false ∧ isPrefix q p = false.
Proof.
  unfold apart. rewrite andb_true_iff, !negb_true_iff. reflexivity.
Qed.

(** Two paths that are comparable after one step down were so before,
    unless they are equal. *)
Lemma apart_below (p q r : path) :
  apart p q = true → isPrefix q (p ++ r) = false.
Proof.
  rewrite apart_spec. intros [Hpq Hqp]. apply isPrefix_false_2. intros t Ht.
  (* q ++ t = p ++ r: one of p, q is a prefix of the other *)
  assert (Hc : (∃ k, p = q ++ k) ∨ (∃ k, q = p ++ k)).
  { clear Hpq Hqp. revert q Ht. induction p as [|a p IH]; intros q Ht.
    - right. exists q. reflexivity.
    - destruct q as [|b q]; [left; eauto|].
      simpl in Ht. injection Ht as -> Ht.
      destruct (IH q Ht) as [[k ->]|[k ->]]; [left|right]; eauto. }
  destruct Hc as [[k Hk]|[k Hk]].
  - exact (isPrefix_false_1 _ _ Hqp k Hk).
  - exact (isPrefix_false_1 _ _ Hpq k Hk).
Qed.

Lemma apart_stripDir (p q r : path) :
  apart p q = true → stripDir q (p ++ r) = None.
Proof.
  intros H. pose proof (apart_below p q r H) as Hb. unfold isPrefix in Hb.
  destruct (stripDir q (p ++ r)); [discriminate|reflexivity].
Qed.

Lemma apart_not_above (p q r : path) :
  apart p q = true → isPrefix (p ++ r) q = false.
Proof.
  rewrite apart_spec. intros [Hpq _]. apply isPrefix_false_2. intros t Ht.
  apply (isPrefix_false_1 _ _ Hpq (r ++ t)).
  rewrite app_assoc. exact Ht.
Qed.

Lemma apart_snoc (p q : path) (n : string) :
  apart p q = true → apart (p ++ [n]) (q ++ [n]) = true.
Proof.
  intros H. apply apart_spec. split.
  - apply isPrefix_false_2. intros r Hr.
    destruct r as [|m r' _] using rev_ind.
    + rewrite app_nil_r in Hr. apply app_inj_tail in Hr as [-> _].
      apply apart_spec in H as [H _]. rewrite isPrefix_refl in H. discriminate.
    + rewrite !app_assoc in Hr. apply app_inj_tail in Hr as [Hr _].
      apply apart_spec in H as [H _].
      apply (isPrefix_false_1 _ _ H ([n] ++ r')). rewrite app_assoc. exact Hr.
  - apply isPrefix_false_2. intros r Hr.
    destruct r as [|m r' _] using rev_ind.
    + rewrite app_nil_r in Hr. apply app_inj_tail in Hr as [-> _].
      apply apart_spec in H as [H _]. rewrite isPrefix_refl in H. discriminate.
    + rewrite !app_assoc in Hr. apply app_inj_tail in Hr as [Hr _].
      apply apart_spec in H as [_ H].
      apply (isPrefix_false_1 _ _ H ([n] ++ r')). rewrite app_assoc. exact Hr.
Qed.

Lemma dirname_snoc (p : path) (n : string) : dirname (p ++ [n]) = p.
Proof. unfold dirname. apply removelast_last. Qed.

Lemma basename_snoc (p : path) (n : string) : basename (p ++ [n]) = n.
Proof. unfold basename. apply last_last. Qed.

Lemma relative_app (base r : path) : relative base (base ++ r) = r.
Proof.
  induction base as [|a base IH]; [destruct r; reflexivity|].
  simpl. rewrite decide_True by reflexivity. exact IH.
Qed.

End PathFacts.

(** ** The file-system primitives *)

Section FileSystemFacts.
Implicit Types (fs : filesystem) (p q dir : path).

Lemma allEntries_spec fs P q e :
  allEntries fs P = true → fs !! q = Some e → P q e = true.
Proof.
  unfold allEntries. rewrite forallb_forall. intros H Hq.
  apply (H (q, e)). apply list_elem_of_In, elem_of_map_to_list. exact Hq.
Qed.

Lemma wellFormed_root fs : wellFormed fs = true → fs !! [] = Some Directory.
Proof.
  unfold wellFormed. intros [H _]%andb_true_iff.
  destruct (fs !! []) as [[]|]; try discriminate. reflexivity.
Qed.

Lemma wellFormed_parent fs p n :
  wellFormed fs = true → is_Some (fs !! (p ++ [n])) → fs !! p = Some Directory.
Proof.
  unfold wellFormed. intros [_ H]%andb_true_iff [e He].
  pose proof (allEntries_spec _ _ _ _ H He) as Hp. cbv beta in Hp.
  rewrite dirname_snoc in Hp.
  destruct (p ++ [n]) eqn:E; [destruct p; discriminate|].
  destruct (fs !! p) as [[]|]; try discriminate. reflexivity.
Qed.

(** In a well-formed tree everything above an entry is a directory. *)
Lemma wellFormed_above fs p r :
  wellFormed fs = true → r ≠ [] → is_Some (fs !! (p ++ r)) → fs !! p = Some Directory.
Proof.
  intros Hwf. induction r as [|n r IH] using rev_ind; [congruence|].
  intros _ Hs. rewrite app_assoc in Hs.
  pose proof (wellFormed_parent _ _ _ Hwf Hs) as Hd.
  destruct r as [|m r'].
  - rewrite app_nil_r in Hd. exact Hd.
  - apply IH; [discriminate|]. rewrite Hd. eauto.
Qed.

Lemma depthBelow_spec fs dir r :
  is_Some (fs !! (dir ++ r)) → (length r ≤ depthBelow fs dir)%nat.
Proof.
  intros [e He]. apply elem_of_map_to_list in He. unfold depthBelow.
  induction (map_to_list fs) as [|item l IH]; [inversion He|].
  apply elem_of_cons in He as [<-|He]; cbn [foldr].
  - cbn [fst]. rewrite stripDir_app. lia.
  - specialize (IH He). destruct (stripDir dir item.1); lia.
Qed.

Lemma clearWay_spec fs todo : ∀ done t c,
  clearWay fs done todo = true → isPrefix t todo = true →
  fs !! (done ++ t) ≠ Some (File c).
Proof.
  induction todo as [|n rest IH]; intros done t c Hc Ht.
  - apply isPrefix_true in Ht as [r Hr]. destruct t; [|discriminate].
    rewrite app_nil_r. simpl in Hc. destruct (fs !! done) as [[]|]; congruence.
  - destruct t as [|m t'].
    + rewrite app_nil_r. simpl in Hc. destruct (fs !! done) as [[]|]; congruence.
    + apply isPrefix_true in Ht as [r Hr]. injection Hr as -> Hr.
      cbn [clearWay] in Hc.
      assert (Hc' : clearWay fs (done ++ [m]) rest = true)
        by (destruct (fs !! done) as [[]|]; congruence).
      replace (done ++ m :: t') with ((done ++ [m]) ++ t')
        by (rewrite <- app_assoc; reflexivity).
      apply IH; [exact Hc'|]. apply isPrefix_true. eauto.
Qed.

Lemma sameKinds_spec fs src dest r e e' :
  sameKinds fs src dest = true →
  fs !! (src ++ r) = Some e → fs !! (dest ++ r) = Some e' →
  entryIsDirectory e = entryIsDirectory e'.
Proof.
  intros H He He'. pose proof (allEntries_spec _ _ _ _ H He) as Hk.
  cbv beta in Hk. rewrite stripDir_app, He' in Hk. apply eqb_prop. exact Hk.
Qed.

Lemma childOf_Some dir (item : path * entry) d :
  childOf dir item = Some d ↔
  item.1 = dir ++ [name d] ∧ isDirectory d = entryIsDirectory item.2.
Proof.
  unfold childOf. split.
  - destruct (stripDir dir item.1) as [[|n [|]]|] eqn:E; try discriminate.
    intros [= <-]. apply stripDir_Some in E. auto.
  - intros [-> Hd]. rewrite stripDir_app. destruct d as [n b]. simpl in *.
    rewrite Hd. reflexivity.
Qed.

Lemma readdir_elem fs dir d :
  d ∈ omap (childOf dir) (map_to_list fs) ↔
  ∃ e, fs !! (dir ++ [name d]) = Some e ∧ isDirectory d = entryIsDirectory e.
Proof.
  rewrite list_elem_of_omap. split.
  - intros [[q e] [Hin Hc]]. apply childOf_Some in Hc as [Hq Hd]. simpl in *.
    subst q. apply elem_of_map_to_list in Hin. eauto.
  - intros [e [He Hd]]. exists (dir ++ [name d], e). split.
    + apply elem_of_map_to_list. exact He.
    + apply childOf_Some. auto.
Qed.

Lemma readdir_NoDup fs dir :
  NoDup (name <$> omap (childOf dir) (map_to_list fs)).
Proof.
  pose proof (NoDup_fst_map_to_list fs) as Hnd.
  induction (map_to_list fs) as [|item l IH]; [constructor|].
  cbn [fmap list_fmap] in Hnd. apply NoDup_cons in Hnd as [Hnot Hnd].
  cbn [omap list_omap]. destruct (childOf dir item) as [d|] eqn:Ed; [|auto].
  cbn [fmap list_fmap]. apply NoDup_cons. split; [|auto].
  intros Hin. apply Hnot. apply list_elem_of_fmap in Hin as [d' [Hname Hd']].
  apply list_elem_of_omap in Hd' as [item' [Hitem' Hc']].
  apply childOf_Some in Ed as [Eq _]. apply childOf_Some in Hc' as [Eq' _].
  apply list_elem_of_fmap. exists item'. split; [|exact Hitem']. congruence.
Qed.

End FileSystemFacts.

(** ** Commands and loops *)

Section CommandFacts.
Context {S : Type}.

Lemma bind_Normal {A B} (c : prog S A) (k : A → prog S B) s a s' :
  c s = (Normal a, s') → bind c k s = k a s'.
Proof. unfold bind. intros ->. reflexivity. Qed.

Lemma bind_Exit {A B} (c : prog S A) (k : A → prog S B) s code s' :
  c s = (Exit code, s') → bind c k s = (Exit code, s').
Proof. unfold bind. intros ->. reflexivity. Qed.

Lemma writes_Normal (f : S → completion S) s s' :
  f s = Normal s' → writes f s = (Normal tt, s').
Proof. unfold writes. intros ->. reflexivity. Qed.

(** A loop whose body keeps an invariant indexed by the items done. *)
Lemma forEach_invariant {A} (I : list A → S → Prop) (body : A → prog S unit)
      (rest : list A) : ∀ done s,
  I done s →
  (∀ d x r s', done ++ rest = d ++ x :: r → I d s' →
               ∃ s'', body x s' = (Normal tt, s'') ∧ I (d ++ [x]) s'') →
  ∃ s_end, forEach rest body s = (Normal tt, s_end) ∧ I (done ++ rest) s_end.
Proof.
  induction rest as [|x rest IH]; intros done s HI Hstep.
  - exists s. rewrite app_nil_r. auto.
  - destruct (Hstep done x rest s eq_refl HI) as [s1 [Hb HI1]].
    destruct (IH (done ++ [x]) s1 HI1) as [s_end [Hrun Hend]].
    { intros d y r s' Heq. apply (Hstep d y r). rewrite <- Heq, <- app_assoc. reflexivity. }
    exists s_end. cbn [forEach]. rewrite (bind_Normal _ _ _ _ _ Hb).
    split; [exact Hrun|]. rewrite <- app_assoc in Hend. exact Hend.
Qed.

(** A read-only loop that appends one batch per item. *)
Lemma forFold_collect {A B} (P : A → list B → Prop)
      (body : list B → A → prog S (list B)) (s : S) (xs : list A) :
  (∀ x, x ∈ xs → ∃ out, P x out ∧ ∀ acc, body acc x s = (Normal (acc ++ out), s)) →
  ∀ acc, ∃ outs, Forall2 P xs outs
                 ∧ forFold xs acc body s = (Normal (acc ++ concat outs), s).
Proof.
  induction xs as [|x xs IH]; intros Hbody acc.
  - exists []. split; [constructor|]. simpl. rewrite app_nil_r. reflexivity.
  - destruct (Hbody x) as [out [HP Hrun]]; [left|].
    destruct (IH (λ y Hy, Hbody y (list_elem_of_further _ _ _ Hy)) (acc ++ out))
      as [outs [HF Hloop]].
    exists (out :: outs). split; [constructor; assumption|].
    cbn [forFold]. rewrite (bind_Normal _ _ _ _ _ (Hrun acc)), Hloop.
    simpl. rewrite app_assoc. reflexivity.
Qed.

Lemma Forall2_concat_elem {A B} (P : A → list B → Prop) xs outs y :
  Forall2 P xs outs →
  y ∈ concat outs → ∃ x out, x ∈ xs ∧ P x out ∧ y ∈ out.
Proof.
  induction 1 as [|x out xs outs HP HF IH]; simpl.
  - intros H. inversion H.
  - rewrite elem_of_app. intros [Hy|Hy].
    + exists x, out. repeat split; auto. left.
    + destruct (IH Hy) as (x' & out' & Hx' & HP' & Hy').
      exists x', out'. repeat split; auto. right. exact Hx'.
Qed.

Lemma Forall2_concat_intro {A B} (P : A → list B → Prop) xs outs x :
  Forall2 P xs outs → x ∈ xs →
  ∃ out, P x out ∧ ∀ y, y ∈ out → y ∈ concat outs.
Proof.
  induction 1 as [|x' out xs outs HP HF IH]; [intros H; inversion H|].
  intros [->|Hx]%elem_of_cons.
  - exists out. split; [exact HP|]. intros y Hy. simpl. apply elem_of_app. auto.
  - destruct (IH Hx) as [out' [HP' Hsub]]. exists out'. split; [exact HP'|].
    intros y Hy. simpl. apply elem_of_app. auto.
Qed.

End CommandFacts.

(** ** listFiles *)

Section ListFilesFacts.
Implicit Types (fs : filesystem) (dir base : path).

Lemma closedBelow_above fs dir r t :
  closedBelow fs dir → t ≠ [] → is_Some (fs !! (dir ++ r ++ t)) →
  fs !! (dir ++ r) = Some Directory.
Proof.
  intros Hc. induction t as [|n t IH] using rev_ind; [congruence|].
  intros _ Hs.
  assert (Hd : fs !! (dir ++ r ++ t) = Some Directory).
  { apply (Hc (r ++ t) n). rewrite <- app_assoc. exact Hs. }
  destruct t as [|m t'].
  - rewrite app_nil_r in Hd. exact Hd.
  - apply IH; [discriminate|]. rewrite Hd. eauto.
Qed.

Lemma closedBelow_child fs dir n :
  closedBelow fs dir → closedBelow fs (dir ++ [n]).
Proof.
  intros Hc r m. rewrite <- !app_assoc. cbn [app]. intros Hs.
  apply (Hc (n :: r) m). exact Hs.
Qed.

Lemma wellFormed_closedBelow fs dir : wellFormed fs = true → closedBelow fs dir.
Proof.
  intros Hwf r n Hs. rewrite app_assoc in Hs.
  eapply wellFormed_parent; [exact Hwf|exact Hs].
Qed.

Lemma existsSync_run fs p : existsSync p fs = (Normal (fsExists fs p), fs).
Proof. reflexivity. Qed.

Lemma readdirSync_run fs dir :
  fs !! dir = Some Directory →
  readdirSync dir fs = (Normal (omap (childOf dir) (map_to_list fs)), fs).
Proof. unfold readdirSync, reads, fsReaddir. intros ->. reflexivity. Qed.

(** The listing of [dir], seen from [base = dir] minus [s]: exactly
    the relative paths of the files below [dir]; the files are left
    as they are. *)
Lemma listFiles_spec fuel : ∀ base s dir fs,
  dir = base ++ s →
  closedBelow fs dir →
  (∀ c, fs !! dir ≠ Some (File c)) →
  (0 < fuel)%nat →
  (∀ r, is_Some (fs !! (dir ++ r)) → (length r < fuel)%nat) →
  ∃ l, listFiles fuel dir base fs = (Normal l, fs)
       ∧ ∀ x, x ∈ l ↔ ∃ r c, x = s ++ r ∧ fs !! (dir ++ r) = Some (File c).
Proof.
  induction fuel as [|fuel IH]; intros base s dir fs Hdir Hclosed Hnofile Hpos Hdepth;
    [lia|].
  cbn [listFiles]. rewrite (bind_Normal _ _ _ _ _ (existsSync_run fs dir)).
  unfold fsExists. destruct (fs !! dir) as [[c|]|] eqn:Edir.
  { destruct (Hnofile c eq_refl). }
  2:{ (* the directory is missing: nothing is below it *)
    exists []. split; [reflexivity|]. intros x. split; [intros H; inversion H|].
    intros (r & c & _ & Hr). exfalso.
    destruct r as [|n r].
    - rewrite app_nil_r in Hr. congruence.
    - assert (Hd : fs !! (dir ++ []) = Some Directory).
      { apply (closedBelow_above fs dir [] (n :: r)); [exact Hclosed|discriminate|].
        simpl. rewrite Hr. eauto. }
      rewrite app_nil_r in Hd. congruence. }
  cbn [negb]. rewrite (bind_Normal _ _ _ _ _ (readdirSync_run fs dir Edir)).
  set (ents := omap (childOf dir) (map_to_list fs)).
  set (P := λ (entry : dirent) (out : list path),
         ∀ x, x ∈ out ↔ ∃ r c, x = s ++ name entry :: r
                                 ∧ fs !! (dir ++ name entry :: r) = Some (File c)).
  match goal with |- context [forFold ?xs [] ?body fs] =>
    destruct (forFold_collect P body fs xs) with (acc := @nil path)
      as [outs [HF Hrun]]
  end.
  { intros [n b] Hin.
    rewrite merge_sort_Permutation in Hin. apply readdir_elem in Hin as [e [He Hb]].
    simpl in He, Hb. cbn [name isDirectory]. destruct b.
    - (* a directory: the recursive call *)
      destruct e as [c|]; [discriminate|].
      destruct (IH base (s ++ [n]) (dir ++ [n]) fs) as [l [Hl Hmem]].
      + rewrite Hdir, <- app_assoc. reflexivity.
      + apply closedBelow_child. exact Hclosed.
      + intros c. congruence.
      + specialize (Hdepth [n]). rewrite He in Hdepth.
        specialize (Hdepth ltac:(eauto)). simpl in Hdepth. lia.
      + intros r Hr. rewrite <- app_assoc in Hr. specialize (Hdepth _ Hr).
        simpl in Hdepth. lia.
      + exists l. split.
        * intros x. rewrite Hmem. split; intros (r & c & -> & Hr); exists r, c.
          -- rewrite <- !app_assoc in *. auto.
          -- rewrite <- !app_assoc. auto.
        * intros acc. rewrite (bind_Normal _ _ _ _ _ Hl). reflexivity.
    - (* a file: its own relative path *)
      destruct e as [c|]; [|discriminate].
      exists [relative base (dir ++ [n])]. split; [|reflexivity].
      intros x. rewrite list_elem_of_singleton.
      rewrite Hdir, <- app_assoc, relative_app, <- Hdir. split.
      + intros ->. exists [], c. auto.
      + intros (r & c' & -> & Hr). cbn [name] in Hr.
        destruct r as [|m r]; [reflexivity|].
        exfalso.
        assert (Hd : fs !! (dir ++ [n]) = Some Directory).
        { apply (closedBelow_above fs dir [n] (m :: r)); [exact Hclosed|discriminate|].
          simpl. rewrite Hr. eauto. }
        congruence. }
  exists (concat outs). split; [exact Hrun|].
  intros x. split.
  - intros Hx. destruct (Forall2_concat_elem _ _ _ _ HF Hx) as (entry & out & _ & HP & Hy).
    apply HP in Hy as (r & c & -> & Hr). exists (name entry :: r), c. auto.
  - intros (r & c & -> & Hr). destruct r as [|n r].
    { rewrite app_nil_r in Hr. congruence. }
    assert (He : is_Some (fs !! (dir ++ [n]))).
    { destruct r as [|m r]; [rewrite Hr; eauto|].
      rewrite (closedBelow_above fs dir [n] (m :: r)); [eauto|exact Hclosed|discriminate|].
      simpl. rewrite Hr. eauto. }
    destruct He as [e He].
    destruct (Forall2_concat_intro _ _ _ (Dirent n (entryIsDirectory e)) HF)
      as [out [HP Hsub]].
    { rewrite merge_sort_Permutation. apply readdir_elem. exists e. auto. }
    apply Hsub, HP. exists r, c. auto.
Qed.

End ListFilesFacts.

(** ** mkdirSync, copyFileSync and writeFileSync *)

Section WriteFacts.
Implicit Types (fs : filesystem) (p q src dest : path).

Lemma fsMkdirs_spec todo : ∀ done fs,
  (∀ t u c, t ≠ [] → todo = t ++ u → fs !! (done ++ t) ≠ Some (File c)) →
  ∃ fs', fsMkdirs done todo fs = Normal fs'
         ∧ (∀ t u, t ≠ [] → todo = t ++ u → fs' !! (done ++ t) = Some Directory)
         ∧ (∀ q, (∀ t u, t ≠ [] → todo = t ++ u → q ≠ done ++ t) → fs' !! q = fs !! q).
Proof.
  induction todo as [|n rest IH]; intros done fs Hclear.
  { exists fs. split; [reflexivity|]. split; [|reflexivity].
    intros t u Ht Hu. destruct t; [congruence|discriminate]. }
  cbn [fsMkdirs].
  set (p := done ++ [n]).
  set (fs1 := match fs !! p with None => <[p := Directory]> fs | _ => fs end).
  assert (Hp : fs1 !! p = Some Directory).
  { subst fs1. destruct (fs !! p) as [[c|]|] eqn:E.
    - destruct (Hclear [n] rest c); [discriminate|reflexivity|exact E].
    - exact E.
    - apply lookup_insert_eq. }
  assert (Hother : ∀ q, q ≠ p → fs1 !! q = fs !! q).
  { intros q Hq. subst fs1. destruct (fs !! p) as [[c|]|]; try reflexivity.
    apply lookup_insert_ne. congruence. }
  assert (Hgrow : ∀ t, t ≠ [] → p ++ t ≠ p).
  { intros t Ht E. apply Ht. rewrite <- (app_nil_r p) in E at 2.
    apply app_inv_head in E. exact E. }
  destruct (IH p fs1) as (fs' & Hrun & Hdirs & Hsame).
  { intros t u c Ht Hu. rewrite Hother by (apply Hgrow; exact Ht).
    subst p. rewrite <- app_assoc. apply (Hclear (n :: t) u); [discriminate|].
    simpl. rewrite Hu. reflexivity. }
  exists fs'. split.
  { destruct (fs !! p) as [[c|]|] eqn:E; [|exact Hrun|exact Hrun].
    destruct (Hclear [n] rest c); [discriminate|reflexivity|exact E]. }
  split.
  - intros t u Ht Hu. destruct t as [|m t]; [congruence|].
    simpl in Hu. injection Hu as -> Hu.
    replace (done ++ m :: t) with (p ++ t) by (subst p; rewrite <- app_assoc; reflexivity).
    destruct t as [|m' t'].
    + rewrite app_nil_r. rewrite Hsame; [exact Hp|].
      intros t u' Ht' _ E. symmetry in E. exact (Hgrow t Ht' E).
    + apply (Hdirs (m' :: t') u); [discriminate|exact Hu].
  - intros q Hq. rewrite Hsame.
    + apply Hother. intros ->. apply (Hq [n] rest); [discriminate|reflexivity|reflexivity].
    + intros t u Ht Hu ->. apply (Hq (n :: t) u); [discriminate| |].
      * simpl. rewrite Hu. reflexivity.
      * subst p. rewrite <- app_assoc. reflexivity.
Qed.

(** [mkdir -p] from the root: every prefix of the path is a directory
    afterwards and nothing else changes. *)
Lemma mkdirSync_spec fs dest :
  fs !! [] = Some Directory →
  (∀ q c, isPrefix q dest = true → fs !! q ≠ Some (File c)) →
  ∃ fs', mkdirSync dest fs = (Normal tt, fs')
         ∧ ∀ q, fs' !! q = if isPrefix q dest then Some Directory else fs !! q.
Proof.
  intros Hroot Hclear.
  destruct (fsMkdirs_spec dest [] fs) as (fs' & Hrun & Hdirs & Hsame).
  { intros t u c _ Hu. simpl. apply Hclear. apply isPrefix_true. eauto. }
  exists fs'. split; [apply writes_Normal; exact Hrun|].
  intros q. destruct (isPrefix q dest) eqn:E.
  - apply isPrefix_true in E as [u Hu]. destruct q as [|m q'].
    + rewrite Hsame; [exact Hroot|]. intros t ? Ht _ Hq. simpl in Hq. congruence.
    + apply (Hdirs (m :: q') u); [discriminate|exact Hu].
  - apply Hsame. intros t u _ Hu ->. simpl in E.
    rewrite Hu, isPrefix_app in E. discriminate.
Qed.

Lemma writeFileSync_run fs p c :
  fs !! dirname p = Some Directory →
  fs !! p ≠ Some Directory →
  writeFileSync p c fs = (Normal tt, <[p := File c]> fs).
Proof.
  intros Hd Hp. apply writes_Normal. unfold fsWriteFile. rewrite Hd.
  destruct (fs !! p) as [[|]|]; congruence.
Qed.

Lemma copyFileSync_run fs src dest c :
  fs !! src = Some (File c) →
  fs !! dirname dest = Some Directory →
  fs !! dest ≠ Some Directory →
  copyFileSync src dest fs = (Normal tt, <[dest := File c]> fs).
Proof.
  intros Hs Hd Hp. apply writes_Normal. unfold fsCopyFile, fsWriteFile.
  rewrite Hs, Hd. destruct (fs !! dest) as [[|]|]; congruence.
Qed.

Lemma stripDir_snoc dest n q t :
  stripDir (dest ++ [n]) q = Some t ↔ stripDir dest q = Some (n :: t).
Proof.
  split; intros H; apply stripDir_Some in H; subst q.
  - rewrite <- app_assoc. apply stripDir_app.
  - replace (dest ++ n :: t) with ((dest ++ [n]) ++ t)
      by (rewrite <- app_assoc; reflexivity).
    apply stripDir_app.
Qed.

Lemma isPrefix_longer dest n t : isPrefix (dest ++ n :: t) dest = false.
Proof.
  apply isPrefix_false_2. intros r Hr. rewrite <- app_assoc in Hr.
  rewrite <- (app_nil_r dest) in Hr at 1. apply app_inv_head in Hr. discriminate.
Qed.

End WriteFacts.

(** ** copyDir *)

Section CopyDirFacts.
Implicit Types (fs : filesystem) (p q src dest : path).

Lemma copiedSoFar_nil fs fs1 src dest q :
  copiedSoFar fs fs1 src dest [] q = fs1 !! q.
Proof.
  unfold copiedSoFar. destruct (stripDir dest q) as [[|n r]|]; reflexivity.
Qed.

(** Outside [dest ++ [n]] the loop state does not depend on whether
    [n] is done. *)
Lemma copiedSoFar_other fs fs1 src dest names n q :
  stripDir (dest ++ [n]) q = None →
  copiedSoFar fs fs1 src dest (names ++ [n]) q = copiedSoFar fs fs1 src dest names q.
Proof.
  intros Hq. unfold copiedSoFar.
  destruct (stripDir dest q) as [[|m r]|] eqn:E; try reflexivity.
  assert (m ≠ n).
  { intros ->. apply stripDir_snoc in E. congruence. }
  destruct (decide (m ∈ names)) as [Hin|Hnin].
  - rewrite !bool_decide_eq_true_2; [reflexivity|exact Hin|].
    apply elem_of_app. auto.
  - rewrite !bool_decide_eq_false_2; [reflexivity|exact Hnin|].
    rewrite elem_of_app, list_elem_of_singleton. tauto.
Qed.

Lemma copiedSoFar_fresh fs fs1 src dest names n r :
  n ∉ names →
  copiedSoFar fs fs1 src dest names (dest ++ n :: r) = fs1 !! (dest ++ n :: r).
Proof.
  intros Hn. unfold copiedSoFar. rewrite stripDir_app.
  rewrite bool_decide_eq_false_2 by exact Hn. reflexivity.
Qed.

Lemma copiedSoFar_done fs fs1 src dest names n r :
  copiedSoFar fs fs1 src dest (names ++ [n]) (dest ++ n :: r) =
  match fs !! (src ++ n :: r) with
  | Some e => Some e
  | None => fs1 !! (dest ++ n :: r)
  end.
Proof.
  unfold copiedSoFar. rewrite stripDir_app.
  rewrite bool_decide_eq_true_2; [reflexivity|].
  apply elem_of_app. right. left.
Qed.

Lemma copiedSoFar_above fs fs1 src dest names q :
  isPrefix q dest = true →
  copiedSoFar fs fs1 src dest names q = fs1 !! q.
Proof.
  intros Hq. unfold copiedSoFar.
  destruct (stripDir dest q) as [[|n r]|] eqn:E; try reflexivity.
  apply stripDir_Some in E. subst q. rewrite isPrefix_longer in Hq. discriminate.
Qed.

Lemma copiedSoFar_source fs fs1 src dest names r :
  apart src dest = true →
  copiedSoFar fs fs1 src dest names (src ++ r) = fs1 !! (src ++ r).
Proof.
  intros Ha. unfold copiedSoFar. rewrite (apart_stripDir _ _ _ Ha). reflexivity.
Qed.

(** [copyDir] completes and leaves [copied] behind, when the source
    is a closed tree within budget, the destination lies apart from
    it, no file stands in the way of [mkdir -p], and entries that
    exist on both sides are of the same kind. *)
Lemma copyDir_spec fuel : ∀ src dest fs,
  fs !! [] = Some Directory →
  closedBelow fs src →
  fs !! src = Some Directory →
  (∀ r, is_Some (fs !! (src ++ r)) → (length r < fuel)%nat) →
  apart src dest = true →
  (∀ q c, isPrefix q dest = true → fs !! q ≠ Some (File c)) →
  (∀ r e e', fs !! (src ++ r) = Some e → fs !! (dest ++ r) = Some e' →
             entryIsDirectory e = entryIsDirectory e') →
  ∃ fs', copyDir fuel src dest fs = (Normal tt, fs')
         ∧ ∀ q, fs' !! q = copied fs src dest q.
Proof.
  induction fuel as [|fuel IH];
    intros src dest fs Hroot Hclosed Hsrc Hdepth Hapart Hclear Hkinds.
  { specialize (Hdepth []). rewrite app_nil_r, Hsrc in Hdepth.
    specialize (Hdepth ltac:(eauto)). simpl in Hdepth. lia. }
  cbn [copyDir].
  destruct (mkdirSync_spec fs dest Hroot Hclear) as (fs1 & Hmk & Hfs1).
  rewrite (bind_Normal _ _ _ _ _ Hmk).
  assert (Hsrc1 : ∀ r, fs1 !! (src ++ r) = fs !! (src ++ r)).
  { intros r. rewrite Hfs1, (apart_not_above _ _ _ Hapart). reflexivity. }
  assert (Hdest1 : ∀ n r, fs1 !! (dest ++ n :: r) = fs !! (dest ++ n :: r)).
  { intros n r. rewrite Hfs1, isPrefix_longer. reflexivity. }
  assert (Hsrc1' : fs1 !! src = Some Directory).
  { rewrite <- (app_nil_r src), Hsrc1, app_nil_r. exact Hsrc. }
  rewrite (bind_Normal _ _ _ _ _ (readdirSync_run fs1 src Hsrc1')).
  set (entries := omap (childOf src) (map_to_list fs1)).
  pose proof (readdir_NoDup fs1 src) as Hnd. fold entries in Hnd.
  match goal with |- context [forEach entries ?body] =>
    destruct (forEach_invariant
                (λ done s, ∀ q, s !! q = copiedSoFar fs fs1 src dest (name <$> done) q)
                body entries [] fs1) as (s_end & Hrun & Hend)
  end.
  - intros q. symmetry. apply copiedSoFar_nil.
  - intros d [n b] r s' Hsplit HI. cbn [app] in Hsplit.
    assert (Hx : Dirent n b ∈ entries).
    { rewrite Hsplit. apply elem_of_app. right. left. }
    apply readdir_elem in Hx as [e [He Hb]]. cbn [name isDirectory] in He, Hb.
    rewrite Hsrc1 in He.
    assert (Hn : n ∉ name <$> d).
    { rewrite Hsplit, fmap_app in Hnd. apply NoDup_app in Hnd as (_ & Hdis & _).
      intros Hin. apply (Hdis n Hin). left. }
    assert (Hs'src : ∀ t, s' !! (src ++ t) = fs !! (src ++ t)).
    { intros t. rewrite HI, copiedSoFar_source, Hsrc1; auto. }
    assert (Hs'dest : ∀ t, s' !! (dest ++ n :: t) = fs !! (dest ++ n :: t)).
    { intros t. rewrite HI, copiedSoFar_fresh, Hdest1; auto. }
    assert (Hs'above : ∀ q, isPrefix q dest = true → s' !! q = Some Directory).
    { intros q Hq. rewrite HI, copiedSoFar_above, Hfs1, Hq; auto. }
    cbn [name isDirectory]. rewrite fmap_app. cbn [fmap list_fmap name].
    destruct b.
    + (* a directory: the recursive call *)
      destruct e as [c|]; [discriminate|].
      destruct (IH (src ++ [n]) (dest ++ [n]) s') as (s'' & Hcopy & Hs'').
      * apply Hs'above. apply isPrefix_true. exists dest. reflexivity.
      * intros t m. rewrite <- !app_assoc, !Hs'src. apply (Hclosed ([n] ++ t) m).
      * rewrite Hs'src. exact He.
      * intros t. rewrite <- app_assoc, Hs'src. intros Ht.
        specialize (Hdepth _ Ht). simpl in Hdepth. lia.
      * apply apart_snoc. exact Hapart.
      * intros q c Hq. apply isPrefix_snoc in Hq as [Hq| ->].
        -- rewrite (Hs'above q Hq). discriminate.
        -- rewrite Hs'dest. intros Hf.
           pose proof (Hkinds [n] _ _ He Hf) as Hk. discriminate Hk.
      * intros t e1 e2. rewrite <- !app_assoc. cbn [app].
        rewrite Hs'src, Hs'dest. apply Hkinds.
      * exists s''. split; [exact Hcopy|]. intros q. rewrite Hs''. unfold copied.
        destruct (stripDir (dest ++ [n]) q) as [t|] eqn:E.
        -- apply stripDir_Some in E. subst q. rewrite <- !app_assoc. cbn [app].
           rewrite copiedSoFar_done, Hs'src, Hs'dest, Hdest1. reflexivity.
        -- rewrite copiedSoFar_other by exact E.
           destruct (isPrefix q (dest ++ [n])) eqn:Ep; [|apply HI].
           apply isPrefix_snoc in Ep as [Ep| ->].
           ++ rewrite copiedSoFar_above, Hfs1, Ep; auto.
           ++ pose proof (stripDir_app (dest ++ [n]) []) as E'.
              rewrite app_nil_r in E'. congruence.
    + (* a file: copyFileSync *)
      destruct e as [c|]; [|discriminate].
      exists (<[dest ++ [n] := File c]> s'). split.
      * apply copyFileSync_run.
        -- rewrite Hs'src. exact He.
        -- rewrite dirname_snoc. apply Hs'above, isPrefix_refl.
        -- rewrite Hs'dest. intros Hf.
           pose proof (Hkinds [n] _ _ He Hf) as Hk. discriminate Hk.
      * intros q. destruct (decide (q = dest ++ [n])) as [->|Hq].
        -- rewrite lookup_insert_eq, copiedSoFar_done, He. reflexivity.
        -- rewrite lookup_insert_ne by congruence.
           destruct (stripDir (dest ++ [n]) q) as [t|] eqn:E.
           ++ apply stripDir_Some in E. subst q.
              destruct t as [|m t]; [rewrite app_nil_r in Hq; congruence|].
              rewrite <- !app_assoc. cbn [app].
              rewrite copiedSoFar_done, Hs'dest, Hdest1.
              destruct (fs !! (src ++ n :: m :: t)) eqn:Edeep; [|reflexivity].
              exfalso.
              assert (Hd : fs !! (src ++ [n]) = Some Directory).
              { apply (closedBelow_above fs src [n] (m :: t));
                  [exact Hclosed|discriminate|].
                cbn [app]. rewrite Edeep. eauto. }
              congruence.
           ++ rewrite copiedSoFar_other by exact E. apply HI.
  - cbn [app] in Hend. exists s_end. split; [exact Hrun|].
    intros q. rewrite Hend. unfold copiedSoFar, copied.
    destruct (stripDir dest q) as [[|n r]|] eqn:E.
    + apply stripDir_Some in E. subst q. rewrite !app_nil_r, Hsrc, Hfs1, isPrefix_refl.
      reflexivity.
    + apply stripDir_Some in E. subst q. rewrite Hdest1.
      destruct (decide (n ∈ name <$> entries)) as [Hin|Hnin].
      * rewrite bool_decide_eq_true_2 by exact Hin. reflexivity.
      * rewrite bool_decide_eq_false_2 by exact Hnin.
        destruct (fs !! (src ++ n :: r)) eqn:Edeep; [|reflexivity].
        exfalso. apply Hnin.
        assert (He : is_Some (fs !! (src ++ [n]))).
        { destruct r as [|m r]; [rewrite Edeep; eauto|].
          rewrite (closedBelow_above fs src [n] (m :: r));
            [eauto|exact Hclosed|discriminate|].
          cbn [app]. rewrite Edeep. eauto. }
        destruct He as [e0 He]. apply list_elem_of_fmap.
        exists (Dirent n (entryIsDirectory e0)). split; [reflexivity|].
        apply readdir_elem. exists e0. cbn [name isDirectory].
        rewrite Hsrc1. auto.
    + apply Hfs1.
Qed.

End CopyDirFacts.

(** ** Copying and listing *)

Section CopyAndList.
Implicit Types (fs : filesystem) (p q src dest : path).

(** The listing of a directory from itself. *)
Lemma listFiles_files fuel fs dir :
  closedBelow fs dir →
  (∀ c, fs !! dir ≠ Some (File c)) →
  (0 < fuel)%nat →
  (∀ r, is_Some (fs !! (dir ++ r)) → (length r < fuel)%nat) →
  ∃ l, listFiles fuel dir dir fs = (Normal l, fs)
       ∧ ∀ x, x ∈ l ↔ ∃ c, fs !! (dir ++ x) = Some (File c).
Proof.
  intros Hc Hf Hpos Hd.
  destruct (listFiles_spec fuel dir [] dir fs) as [l [Hl Hmem]]; auto.
  { rewrite app_nil_r. reflexivity. }
  exists l. split; [exact Hl|]. intros x. rewrite Hmem. split.
  - intros (r & c & -> & Hr). eauto.
  - intros [c Hx]. exists x, c. auto.
Qed.

Lemma depthBelow_budget fs dir fuel r :
  (depthBelow fs dir < fuel)%nat → is_Some (fs !! (dir ++ r)) → (length r < fuel)%nat.
Proof. intros Hd Hr. pose proof (depthBelow_spec _ _ _ Hr). lia. Qed.

Lemma clearWay_prefix fs dest q c :
  clearWay fs [] dest = true → isPrefix q dest = true → fs !! q ≠ Some (File c).
Proof. intros Hc Hq. apply (clearWay_spec fs dest [] q c Hc Hq). Qed.

(** What [copied] says below the destination and below the source. *)
Lemma copied_below_dest fs src dest r :
  copied fs src dest (dest ++ r) =
  match fs !! (src ++ r) with Some e => Some e | None => fs !! (dest ++ r) end.
Proof. unfold copied. rewrite stripDir_app. reflexivity. Qed.

Lemma copied_below_src fs src dest r :
  apart src dest = true → copied fs src dest (src ++ r) = fs !! (src ++ r).
Proof.
  intros Ha. unfold copied.
  rewrite (apart_stripDir _ _ _ Ha), (apart_not_above _ _ _ Ha). reflexivity.
Qed.

End CopyAndList.

(** C5, as the code has it.  For a source directory [src] and a
    destination [dest] that lie apart, in a well-formed tree where no
    file stands in the way of creating [dest] and where entries that
    exist on both sides are of the same kind, [copyDir] completes
    within the budget; afterwards the relative file paths below [dest]
    are those below [src] together with those that were below [dest]
    before, and the listing of [src] is unchanged.  When nothing was
    below [dest] before, the two listings hold exactly the same paths. *)
Theorem copyDir_file_sets (fuel : nat) (fs : filesystem) (src dest : path) :
  wellFormed fs = true →
  fs !! src = Some Directory →
  apart src dest = true →
  clearWay fs [] dest = true →
  sameKinds fs src dest = true →
  (depthBelow fs src < fuel)%nat →
  (depthBelow fs dest < fuel)%nat →
  ∃ fs' before source source' after,
    listFiles fuel dest dest fs = (Normal before, fs)
    ∧ listFiles fuel src src fs = (Normal source, fs)
    ∧ copyDir fuel src dest fs = (Normal tt, fs')
    ∧ listFiles fuel src src fs' = (Normal source', fs')
    ∧ listFiles fuel dest dest fs' = (Normal after, fs')
    ∧ (∀ x, x ∈ source' ↔ x ∈ source)
    ∧ (∀ x, x ∈ after ↔ x ∈ source' ∨ x ∈ before)
    ∧ (before = [] → ∀ x, x ∈ after ↔ x ∈ source').
Proof.
  intros Hwf Hsrc Hapart Hclear Hkinds Hds Hdd.
  assert (Hpos : (0 < fuel)%nat) by lia.
  assert (Hdestfile : ∀ c, fs !! dest ≠ Some (File c)).
  { intros c. apply (clearWay_prefix fs dest); [exact Hclear|apply isPrefix_refl]. }
  assert (Hsrcfile : ∀ c, fs !! src ≠ Some (File c)) by (intros c; congruence).
  destruct (listFiles_files fuel fs dest) as [before [Hbefore Hb]];
    [apply wellFormed_closedBelow; exact Hwf|exact Hdestfile|exact Hpos
    |intros r; apply depthBelow_budget; exact Hdd|].
  destruct (listFiles_files fuel fs src) as [source [Hsource Hs]];
    [apply wellFormed_closedBelow; exact Hwf|exact Hsrcfile|exact Hpos
    |intros r; apply depthBelow_budget; exact Hds|].
  destruct (copyDir_spec fuel src dest fs) as [fs' [Hcopy Hfs']].
  { apply wellFormed_root. exact Hwf. }
  { apply wellFormed_closedBelow. exact Hwf. }
  { exact Hsrc. }
  { intros r. apply depthBelow_budget. exact Hds. }
  { exact Hapart. }
  { intros q c. apply (clearWay_prefix fs dest). exact Hclear. }
  { intros r e e' H1 H2. exact (sameKinds_spec fs src dest r e e' Hkinds H1 H2). }
  assert (Hsame : ∀ r e e', fs !! (src ++ r) = Some e → fs !! (dest ++ r) = Some e' →
                            entryIsDirectory e = entryIsDirectory e')
    by (intros r e e' H1 H2; exact (sameKinds_spec fs src dest r e e' Hkinds H1 H2)).
  assert (Hat_src : ∀ r, fs' !! (src ++ r) = fs !! (src ++ r)).
  { intros r. rewrite Hfs'. apply copied_below_src. exact Hapart. }
  assert (Hat_dest : ∀ r, fs' !! (dest ++ r) =
            match fs !! (src ++ r) with Some e => Some e | None => fs !! (dest ++ r) end).
  { intros r. rewrite Hfs'. apply copied_below_dest. }
  destruct (listFiles_files fuel fs' src) as [source' [Hsource' Hs']].
  { intros r n. rewrite !Hat_src. apply (wellFormed_closedBelow fs src Hwf r n). }
  { intros c. rewrite <- (app_nil_r src), Hat_src, app_nil_r. congruence. }
  { exact Hpos. }
  { intros r. rewrite Hat_src. apply depthBelow_budget. exact Hds. }
  destruct (listFiles_files fuel fs' dest) as [after [Hafter Ha]].
  { intros r n. rewrite !Hat_dest. intros Hsome.
    destruct (fs !! (src ++ r ++ [n])) as [e|] eqn:E1.
    - rewrite (wellFormed_closedBelow fs src Hwf r n); [reflexivity|].
      rewrite E1. eauto.
    - pose proof (wellFormed_closedBelow fs dest Hwf r n Hsome) as Hd.
      destruct (fs !! (src ++ r)) as [e|] eqn:E2; [|exact Hd].
      pose proof (Hsame r _ _ E2 Hd) as Hk. destruct e; [discriminate|reflexivity]. }
  { intros c. rewrite <- (app_nil_r dest), Hat_dest, !app_nil_r, Hsrc. discriminate. }
  { exact Hpos. }
  { intros r. rewrite Hat_dest. intros Hsome.
    destruct (fs !! (src ++ r)) as [e|] eqn:E.
    - apply (depthBelow_budget fs src); [exact Hds|rewrite E; eauto].
    - apply (depthBelow_budget fs dest); [exact Hdd|exact Hsome]. }
  assert (Hunion : ∀ x, x ∈ after ↔ x ∈ source' ∨ x ∈ before).
  { intros x. rewrite Ha, Hs', Hb, Hat_dest, Hat_src. split.
    - intros [c Hc]. destruct (fs !! (src ++ x)) as [e|] eqn:E.
      + left. exists c. exact Hc.
      + right. eauto.
    - intros [[c Hc]|[c Hc]].
      + rewrite Hc. eauto.
      + destruct (fs !! (src ++ x)) as [e|] eqn:E; [|eauto].
        pose proof (Hsame x _ _ E Hc) as Hk. destruct e as [c'|]; [eauto|discriminate]. }
  exists fs', before, source, source', after.
  repeat (split; [assumption|]).
  split.
  { intros x. rewrite Hs', Hs, Hat_src. reflexivity. }
  split; [exact Hunion|].
  intros -> x. rewrite Hunion. split; [intros [H|H]; [exact H|inversion H]|auto].
Qed.

Lemma copyDir_file_sets_witness :
  ∃ fs' before source source' after,
    listFiles 4 ["work"; "site"] ["work"; "site"] notedFiles = (Normal before, notedFiles)
    ∧ listFiles 4 (templatesDir ++ ["tools-only"]) (templatesDir ++ ["tools-only"]) notedFiles
      = (Normal source, notedFiles)
    ∧ copyDir 4 (templatesDir ++ ["tools-only"]) ["work"; "site"] notedFiles = (Normal tt, fs')
    ∧ listFiles 4 (templatesDir ++ ["tools-only"]) (templatesDir ++ ["tools-only"]) fs'
      = (Normal source', fs')
    ∧ listFiles 4 ["work"; "site"] ["work"; "site"] fs' = (Normal after, fs')
    ∧ (∀ x, x ∈ source' ↔ x ∈ source)
    ∧ (∀ x, x ∈ after ↔ x ∈ source' ∨ x ∈ before)
    ∧ (before = [] → ∀ x, x ∈ after ↔ x ∈ source').
Proof.
  apply (copyDir_file_sets 4 notedFiles (templatesDir ++ ["tools-only"]) ["work"; "site"]).
  - vm_compute. reflexivity.
  - vm_compute. reflexivity.
  - vm_compute. reflexivity.
  - vm_compute. reflexivity.
  - vm_compute. reflexivity.
  - vm_compute. lia.
  - vm_compute. lia.
Defined.

(** C5 as stated fails: copying the tools-only template into /work/site,
    which holds notes.txt, completes and leaves notes.txt in the
    listing of the destination, a path that the source does not have. *)
Lemma copy_keeps_other_files :
  fst (copyDir 4 (templatesDir ++ ["tools-only"]) ["work"; "site"] notedFiles) = Normal tt
  ∧ fst (listFiles 4 ["work"; "site"] ["work"; "site"]
           (snd (copyDir 4 (templatesDir ++ ["tools-only"]) ["work"; "site"] notedFiles)))
    = Normal [["mcp.json"]; ["notes.txt"]; ["package.json"]; ["tools"; "hello.ts"]]
  ∧ fst (listFiles 4 (templatesDir ++ ["tools-only"]) (templatesDir ++ ["tools-only"])
           (snd (copyDir 4 (templatesDir ++ ["tools-only"]) ["work"; "site"] notedFiles)))
    = Normal [["mcp.json"]; ["package.json"]; ["tools"; "hello.ts"]].
Proof. repeat split; vm_compute; reflexivity. Qed.

(** ** The two manifests *)

Section ManifestFacts.
Implicit Types (fs : filesystem) (dir : path).

Lemma lookupProp_assignProp_same k v props :
  lookupProp k (assignProp k v props) = Some v.
Proof.
  induction props as [|[k' v'] props IH]; simpl.
  - rewrite decide_True by reflexivity. reflexivity.
  - destruct (decide (k' = k)) as [->|Hne]; simpl.
    + rewrite decide_True by reflexivity. reflexivity.
    + rewrite decide_False by exact Hne. exact IH.
Qed.

Lemma lookupProp_assignProp_other k k' v props :
  k' ≠ k → lookupProp k' (assignProp k v props) = lookupProp k' props.
Proof.
  intros Hne. induction props as [|[k0 v0] props IH]; simpl.
  - rewrite decide_False by congruence. reflexivity.
  - destruct (decide (k0 = k)) as [->|Hne0]; simpl.
    + rewrite !decide_False by congruence. reflexivity.
    + destruct (decide (k0 = k')); [reflexivity|exact IH].
Qed.


(** mcp.json, when it holds an object: the object is written back
    with [name] and [runtime] assigned, 2 spaces, no final newline. *)
Lemma configureManifest_object fs dir rt props indent nl :
  fs !! (dir ++ ["mcp.json"]) = Some (File (JsonText (JObj props) indent nl)) →
  fs !! dir = Some Directory →
  configureManifest dir rt fs =
  (Normal tt,
   <[dir ++ ["mcp.json"] :=
       File (JsonText
               (JObj (assignProp "runtime" (JStr rt)
                        (assignProp "name" (JStr (slugify (basename dir))) props)))
               2 false)]> fs).
Proof.
  intros Hfile Hdir. unfold configureManifest.
  rewrite (bind_Normal _ _ _ _ _ (existsSync_run fs _)).
  unfold fsExists. rewrite Hfile.
  unfold bind at 1. unfold readFileSync, reads, fsReadFile. rewrite Hfile.
  cbn [JSON_parse setMember bind ret JSON_stringify].
  apply writeFileSync_run; [rewrite dirname_snoc; exact Hdir|congruence].
Qed.

Lemma configureManifest_absent fs dir rt :
  fs !! (dir ++ ["mcp.json"]) = None → configureManifest dir rt fs = (Normal tt, fs).
Proof.
  intros Hfile. unfold configureManifest.
  rewrite (bind_Normal _ _ _ _ _ (existsSync_run fs _)).
  unfold fsExists. rewrite Hfile. reflexivity.
Qed.

Lemma updatePackageJson_absent fs dir v :
  fs !! (dir ++ ["package.json"]) = None → updatePackageJson dir v fs = (Normal tt, fs).
Proof.
  intros Hfile. unfold updatePackageJson.
  rewrite (bind_Normal _ _ _ _ _ (existsSync_run fs _)).
  unfold fsExists. rewrite Hfile. reflexivity.
Qed.

(** package.json with a truthy @dwizi/dzx dependency. *)
Lemma updatePackageJson_pinned fs dir v props deps indent nl :
  fs !! (dir ++ ["package.json"]) = Some (File (JsonText (JObj props) indent nl)) →
  fs !! dir = Some Directory →
  lookupProp "dependencies" props = Some (JObj deps) →
  memberTruthy (lookupProp "@dwizi/dzx" deps) = true →
  updatePackageJson dir v fs =
  (Normal tt,
   <[dir ++ ["package.json"] :=
       File (JsonText
               (JObj (assignProp "dependencies"
                        (JObj (assignProp "@dwizi/dzx" (JStr ("^" +:+ v)) deps))
                        props))
               2 true)]> fs).
Proof.
  intros Hfile Hdir Hdeps Hcur. unfold updatePackageJson.
  rewrite (bind_Normal _ _ _ _ _ (existsSync_run fs _)).
  unfold fsExists. rewrite Hfile.
  unfold bind at 1. unfold readFileSync, reads, fsReadFile. rewrite Hfile.
  cbn [JSON_parse getMember bind ret]. rewrite Hdeps.
  cbn [jsTruthy getMember bind ret]. rewrite Hcur.
  cbn [setMember bind ret JSON_stringify].
  apply writeFileSync_run; [rewrite dirname_snoc; exact Hdir|congruence].
Qed.

(** package.json whose @dwizi/dzx dependency is missing or falsy. *)
Lemma updatePackageJson_untouched fs dir v pkg indent nl :
  fs !! (dir ++ ["package.json"]) = Some (File (JsonText pkg indent nl)) →
  pkg ≠ JNull →
  (∀ props deps, pkg = JObj props → lookupProp "dependencies" props = Some deps →
                 jsTruthy deps = true →
                 ∀ members, deps = JObj members →
                            memberTruthy (lookupProp "@dwizi/dzx" members) = false) →
  updatePackageJson dir v fs = (Normal tt, fs).
Proof.
  intros Hfile Hnull Hno. unfold updatePackageJson.
  rewrite (bind_Normal _ _ _ _ _ (existsSync_run fs _)).
  unfold fsExists. rewrite Hfile.
  unfold bind at 1. unfold readFileSync, reads, fsReadFile. rewrite Hfile.
  cbn [JSON_parse bind ret].
  destruct pkg as [|b|m x|s|items|props]; try reflexivity; [congruence|].
  cbn [getMember bind ret].
  destruct (lookupProp "dependencies" props) as [deps|] eqn:Ed; [|reflexivity].
  destruct (jsTruthy deps) eqn:Et; [|reflexivity].
  destruct deps as [|b|m x|s|items|members]; try reflexivity; [discriminate|].
  cbn [getMember bind ret].
  rewrite (Hno props _ eq_refl Ed Et members eq_refl). reflexivity.
Qed.

(** With package.json missing or holding JSON other than [null], the
    update returns and changes at most the contents of that file. *)
Lemma updatePackageJson_total fs dir v :
  missingOrJson (fs !! (dir ++ ["package.json"])) = true →
  fs !! dir = Some Directory →
  ∃ fs', updatePackageJson dir v fs = (Normal tt, fs')
         ∧ (∀ q, kindAt fs' q = kindAt fs q)
         ∧ (∀ q, q ≠ dir ++ ["package.json"] → fs' !! q = fs !! q).
Proof.
  intros Hok Hdir. unfold missingOrJson in Hok.
  destruct (fs !! (dir ++ ["package.json"])) as [[[s|pkg indent nl]|]|] eqn:Hfile;
    try discriminate.
  2:{ exists fs. rewrite updatePackageJson_absent by exact Hfile. auto. }
  assert (Hnull : pkg ≠ JNull) by (intros ->; discriminate).
  assert (Hcase :
    (∃ props deps, pkg = JObj props ∧ lookupProp "dependencies" props = Some (JObj deps)
                   ∧ memberTruthy (lookupProp "@dwizi/dzx" deps) = true)
    ∨ (∀ props deps, pkg = JObj props → lookupProp "dependencies" props = Some deps →
                     jsTruthy deps = true →
                     ∀ members, deps = JObj members →
                                memberTruthy (lookupProp "@dwizi/dzx" members) = false)).
  { destruct pkg as [|b|m x|s|items|props]; try (right; intros; discriminate).
    destruct (lookupProp "dependencies" props) as [deps|] eqn:Ed;
      [|right; intros ? ? [= <-]; congruence].
    destruct deps as [|b|m x|s|items|members];
      try (right; intros ? ? [= <-] Hd; rewrite Ed in Hd; injection Hd as <-;
           intros; discriminate).
    destruct (memberTruthy (lookupProp "@dwizi/dzx" members)) eqn:Em.
    - left. eauto.
    - right. intros ? ? [= <-] Hd. rewrite Ed in Hd. injection Hd as <-.
      intros _ ? [= <-]. exact Em. }
  destruct Hcase as [(props & deps & -> & Hdeps & Hcur)|Hno].
  - eexists. split; [eapply updatePackageJson_pinned; eauto|]. split.
    + intros q. unfold kindAt. destruct (decide (dir ++ ["package.json"] = q)) as [<-|Hq].
      * rewrite lookup_insert_eq, Hfile. reflexivity.
      * rewrite lookup_insert_ne by exact Hq. reflexivity.
    + intros q Hq. apply lookup_insert_ne. congruence.
  - exists fs. split; [eapply updatePackageJson_untouched; eauto|auto].
Qed.

(** The version lookup never throws and never writes. *)
Lemma getDzxVersion_total (e : env) fs : ∃ v, getDzxVersion e fs = (Normal v, fs).
Proof.
  unfold getDzxVersion, tryCatch. destruct (dzxPackageJson e) as [p|]; [|eauto].
  unfold bind at 1. unfold readFileSync, reads, fsReadFile.
  destruct (fs !! p) as [[[s|j indent nl]|]|]; cbn; eauto.
  destruct (jsTruthy j); [|eauto].
  destruct j as [|b|m x|s|items|props]; cbn; eauto.
  destruct (lookupProp "version" props) as [[|b|m x|s|items|props']|]; cbn; eauto.
  destruct (nonEmpty (trim s)); eauto.
Qed.

Lemma getDzxVersion_fallback (e : env) fs :
  dzxPackageJson e = None → getDzxVersion e fs = (Normal "*", fs).
Proof. unfold getDzxVersion, tryCatch. intros ->. reflexivity. Qed.

(** The version is the installed one when there is one, else ["*"]. *)
Lemma getDzxVersion_installed (e : env) fs :
  getDzxVersion e fs = (Normal (default "*" (installedVersion e fs)), fs).
Proof.
  unfold getDzxVersion, installedVersion, tryCatch.
  destruct (dzxPackageJson e) as [p|]; [|reflexivity].
  unfold bind at 1. unfold readFileSync, reads, fsReadFile.
  destruct (fs !! p) as [[[s|j indent nl]|]|]; cbn; try reflexivity.
  destruct j as [|b|m x|s|items|props]; cbn; try reflexivity.
  - destruct b; reflexivity.
  - destruct (negb (m =? 0)%Z); reflexivity.
  - destruct (nonEmpty s); reflexivity.
  - destruct (lookupProp "version" props) as [[|b|m x|s|items|props']|]; cbn;
      try reflexivity.
    destruct (nonEmpty (trim s)); reflexivity.
Qed.

End ManifestFacts.

Section SeparatorSlugs.

Lemma separators_allDashes s :
  (∀ i c, String.get i s = Some c → isWordUnit c = false) →
  allDashes (replaceOutsideClass s) = true.
Proof.
  induction s as [|c s IH]; intros H; [reflexivity|].
  cbn [replaceOutsideClass allDashes]. rewrite IH.
  - rewrite andb_true_r. pose proof (H 0%nat c eq_refl) as Hc.
    unfold isWordUnit in Hc. destruct (inSlugClass c); [|reflexivity].
    simpl in Hc. destruct (isDash c); [reflexivity|discriminate].
  - intros i d Hd. apply (H (S i) d). exact Hd.
Qed.

Lemma slugify_separators s :
  (∀ i c, String.get i (toLowerCase s) = Some c → isWordUnit c = false) →
  slugify s = "".
Proof.
  intros H. unfold slugify.
  rewrite (dropLeadingDashes_allDashes (replaceDashRuns _)); [reflexivity|].
  apply replaceDashRuns_allDashes, separators_allDashes, H.
Qed.

End SeparatorSlugs.

(** C9. A string that, once lowercased, has no character of [[a-z0-9_]]
    has the empty slug; so for a destination whose base name is such a
    string, the rewritten mcp.json has [name] equal to the empty
    string. *)
Theorem separators_give_empty_name (s : string) :
  (∀ i c, String.get i (toLowerCase s) = Some c → isWordUnit c = false) →
  slugify s = ""
  ∧ ∀ (fs : filesystem) (dir : path) rt props indent nl,
      basename dir = s →
      fs !! (dir ++ ["mcp.json"]) = Some (File (JsonText (JObj props) indent nl)) →
      fs !! dir = Some Directory →
      ∃ fs' props',
        configureManifest dir rt fs = (Normal tt, fs')
        ∧ fs' !! (dir ++ ["mcp.json"]) = Some (File (JsonText (JObj props') 2 false))
        ∧ lookupProp "name" props' = Some (JStr "").
Proof.
  intros H. pose proof (slugify_separators s H) as Hs. split; [exact Hs|].
  intros fs dir rt props indent nl Hbase Hfile Hdir.
  eexists. eexists. split; [eapply configureManifest_object; eassumption|].
  split; [apply lookup_insert_eq|].
  rewrite lookupProp_assignProp_other by discriminate.
  rewrite lookupProp_assignProp_same, Hbase, Hs. reflexivity.
Qed.

Lemma separators_give_empty_name_witness :
  slugify "?! -" = ""
  ∧ ∀ (fs : filesystem) (dir : path) rt props indent nl,
      basename dir = "?! -" →
      fs !! (dir ++ ["mcp.json"]) = Some (File (JsonText (JObj props) indent nl)) →
      fs !! dir = Some Directory →
      ∃ fs' props',
        configureManifest dir rt fs = (Normal tt, fs')
        ∧ fs' !! (dir ++ ["mcp.json"]) = Some (File (JsonText (JObj props') 2 false))
        ∧ lookupProp "name" props' = Some (JStr "").
Proof.
  apply (separators_give_empty_name "?! -").
  intros i c. do 4 (destruct i as [|i]; [simpl; intros [= <-]; reflexivity|]).
  simpl. discriminate.
Defined.

(** ** main *)

Section MainFacts.
Variable e : env.

Lemma onFiles_run {A} (c : prog filesystem A) w r fs' :
  c (files w) = (r, fs') → onFiles c w = (r, World fs' (trace w) (lastStep w)).
Proof. unfold onFiles. intros ->. reflexivity. Qed.

Lemma main_parsed argv fuel w args :
  parseArgs argv = Normal args →
  main e argv fuel w =
  (if helpRequested args then log Usage
   else o <~ resolveOptions e args ;; scaffold e fuel o) w.
Proof. intros H. unfold main, pure, bind at 1. rewrite H. reflexivity. Qed.

Lemma reading_ret {A} (a : A) (Q : A → Prop) : Q a → reading (ret a) Q.
Proof. intros HQ w r w' [= <- <-]. split; [reflexivity|]. intros ? [= <-]. exact HQ. Qed.

Lemma reading_throw {A} err (Q : A → Prop) : reading (throw err) Q.
Proof. intros w r w' [= <- <-]. split; [reflexivity|]. discriminate. Qed.

Lemma reading_exit {A} code (Q : A → Prop) : reading (exit code) Q.
Proof. intros w r w' [= <- <-]. split; [reflexivity|]. discriminate. Qed.

Lemma reading_pure {A} (r : completion A) (Q : A → Prop) :
  (∀ a, r = Normal a → Q a) → reading (pure r) Q.
Proof. intros HQ w r' w' [= <- <-]. split; [reflexivity|exact HQ]. Qed.

Lemma reading_log ev : reading (log ev) (λ _, True).
Proof. intros w r w' [= <- <-]. split; [reflexivity|auto]. Qed.

Lemma reading_bind {A B} (c : prog world A) (k : A → prog world B)
      (P : A → Prop) (Q : B → Prop) :
  reading c P → (∀ a, P a → reading (k a) Q) → reading (bind c k) Q.
Proof.
  intros Hc Hk w r w'. unfold bind.
  destruct (c w) as [[a|err|code|] w1] eqn:Ec; destruct (Hc _ _ _ Ec) as [Hf HP].
  - intros Hka. destruct (Hk a (HP a eq_refl) _ _ _ Hka) as [Hf' HQ].
    split; [congruence|exact HQ].
  - intros [= <- <-]. split; [exact Hf|discriminate].
  - intros [= <- <-]. split; [exact Hf|discriminate].
  - intros [= <- <-]. split; [exact Hf|discriminate].
Qed.

Lemma reading_ask question answer : reading (ask question answer) (λ _, True).
Proof.
  unfold ask. eapply reading_bind; [apply reading_log|]. intros _ _.
  destruct answer.
  - apply reading_ret. exact I.
  - eapply reading_bind; [apply reading_log|]. intros _ _. apply reading_exit.
Qed.

(** Reading the flags and asking the questions writes no file, and
    the options it returns carry the flags as parsed. *)
Lemma resolveOptions_reading args :
  reading (resolveOptions e args)
    (λ o, force o = truthy (args !! "force")
          ∧ isYes o = truthy (args !! "yes")
          ∧ shouldInstall o = shouldInstallOf args
          ∧ template o ∈ TEMPLATES ∧ runtime o ∈ RUNTIMES).
Proof.
  unfold resolveOptions.
  eapply reading_bind; [apply reading_log|]. intros _ _.
  eapply (reading_bind _ _ (λ _, True)).
  { destruct (args !! "dir"); [apply reading_ret|apply reading_pure]; auto. }
  intros dirArg _.
  eapply (reading_bind _ _ (λ _, True)); [apply reading_pure; auto|]. intros dir0 _.
  eapply (reading_bind _ _ (λ _, True)).
  { destruct (negb (truthy (args !! "yes"))); [|apply reading_ret; exact I].
    eapply reading_bind; [apply reading_log|]. intros _ _.
    destruct (directoryAnswer e); [apply reading_ret; exact I|].
    eapply reading_bind; [apply reading_log|]. intros _ _. apply reading_exit. }
  intros dir _.
  eapply (reading_bind _ _ (λ _, True)).
  { destruct (truthy (args !! "template")); [apply reading_ret; exact I|].
    destruct (truthy (args !! "yes")); [apply reading_ret; exact I|apply reading_ask]. }
  intros templ _.
  eapply (reading_bind _ _ (λ _, True)).
  { destruct (truthy (args !! "runtime")); [apply reading_ret; exact I|].
    destruct (truthy (args !! "yes")); [apply reading_ret; exact I|apply reading_ask]. }
  intros rt _.
  destruct (negb (includes TEMPLATES templ)) eqn:Et; [apply reading_throw|].
  destruct (negb (includes RUNTIMES rt)) eqn:Er; [apply reading_throw|].
  apply reading_ret. cbn [force isYes shouldInstall template runtime].
  repeat split.
  - apply negb_false_iff in Et. destruct templ; try discriminate Et.
    apply bool_decide_eq_true in Et. exact Et.
  - apply negb_false_iff in Er. destruct rt; try discriminate Er.
    apply bool_decide_eq_true in Er. exact Er.
Qed.

Lemma main_settle argv fuel w :
  main e argv fuel w =
  (r <~ settle e argv ;;
   match r with Some o => scaffold e fuel o | None => ret tt end) w.
Proof.
  unfold main, settle, bind, pure, log, ret.
  destruct (parseArgs argv) as [args| | |]; try reflexivity.
  destruct (helpRequested args); [reflexivity|].
  destruct (resolveOptions e args w) as [[o| | |] w1]; reflexivity.
Qed.

Lemma settle_reading argv :
  reading (settle e argv)
    (λ r, ∀ o, r = Some o →
               template o ∈ TEMPLATES ∧ runtime o ∈ RUNTIMES
               ∧ inspect argv (λ args, truthy (args !! "force")) = Some (force o)
               ∧ inspect argv shouldInstallOf = Some (shouldInstall o)).
Proof.
  unfold settle, inspect.
  destruct (parseArgs argv) as [args|err|code|] eqn:Eparse.
  - eapply (reading_bind _ _ (λ a, a = args)).
    { apply reading_pure. congruence. }
    intros ? ->. destruct (helpRequested args).
    + eapply reading_bind; [apply reading_log|]. intros _ _.
      apply reading_ret. discriminate.
    + eapply reading_bind; [apply resolveOptions_reading|].
      intros o (Hf & _ & Hi & Ht & Hr). apply reading_ret.
      intros ? [= <-]. rewrite Hf, Hi. auto.
  - eapply (reading_bind _ _ (λ _, False)); [|intros ? []].
    apply reading_pure. discriminate.
  - eapply (reading_bind _ _ (λ _, False)); [|intros ? []].
    apply reading_pure. discriminate.
  - eapply (reading_bind _ _ (λ _, False)); [|intros ? []].
    apply reading_pure. discriminate.
Qed.

End MainFacts.

Section Refusals.
Variable e : env.

Lemma scaffold_refuses fuel o w :
  force o = false →
  isEmptyDir (targetDir o) (files w) = (Normal false, files w) →
  scaffold e fuel o w = (Throw (Error (targetNotEmptyMessage (targetDir o))), w).
Proof.
  intros Hforce Hfull. destruct w as [fs tr ls]. unfold scaffold.
  rewrite Hforce. cbn [negb andb].
  rewrite (bind_Normal _ _ _ _ _ (onFiles_run _ _ _ _ Hfull)). reflexivity.
Qed.

End Refusals.

Section ReadOnly.

Lemma isEmptyDir_snd (dir : path) (fs : filesystem) : snd (isEmptyDir dir fs) = fs.
Proof.
  unfold isEmptyDir, bind, existsSync, readdirSync, reads, ret.
  destruct (negb (fsExists fs dir)); [reflexivity|].
  destruct (fsReaddir fs dir); reflexivity.
Qed.

Lemma isEmptyDir_pair (dir : path) (fs : filesystem) r :
  fst (isEmptyDir dir fs) = r → isEmptyDir dir fs = (r, fs).
Proof.
  intros <-. rewrite <- (isEmptyDir_snd dir fs) at 3.
  apply surjective_pairing.
Qed.

End ReadOnly.

(** C3, as the code has it.  In a run that gets as far as the check of
    the destination (no help flag, no prompt cancelled, no failure while
    the directory is resolved, template and runtime in their closed
    sets), with the force flag absent and a target directory that
    exists and is not empty, [main] throws the "Target directory is not
    empty" error, the process exits with code 1, and the files are
    exactly those from before the run. *)
Theorem nonempty_target_refused (e : env) (argv : list string) (fuel : nat)
        (fs : filesystem) (o : options) :
  fst (settle e argv (World fs [] "")) = Normal (Some o) →
  inspect argv (λ args, args !! "force") = Some None →
  fst (isEmptyDir (targetDir o) fs) = Normal false →
  fst (main e argv fuel (World fs [] ""))
    = Throw (Error (targetNotEmptyMessage (targetDir o)))
  ∧ files (snd (main e argv fuel (World fs [] ""))) = fs
  ∧ fst (run e argv fuel fs) = Some 1%nat
  ∧ files (snd (run e argv fuel fs)) = fs
  ∧ last (trace (snd (run e argv fuel fs)))
    = Some (Failure (Error (targetNotEmptyMessage (targetDir o)))).
Proof.
  intros Hsettle Hforce Hfull.
  destruct (settle e argv (World fs [] "")) as [r w1] eqn:Es.
  cbn [fst] in Hsettle. subst r.
  destruct (settle_reading e argv _ _ _ Es) as [Hfiles Ho].
  destruct (Ho _ eq_refl o eq_refl) as (_ & _ & Hf & _).
  assert (Hfo : force o = false).
  { unfold inspect in Hf, Hforce. destruct (parseArgs argv); try discriminate.
    injection Hforce as Hforce. rewrite Hforce in Hf. injection Hf as <-. reflexivity. }
  cbn in Hfiles.
  assert (Hmain : main e argv fuel (World fs [] "")
                  = (Throw (Error (targetNotEmptyMessage (targetDir o))), w1)).
  { rewrite main_settle, (bind_Normal _ _ _ _ _ Es).
    apply scaffold_refuses; [exact Hfo|].
    rewrite Hfiles. apply isEmptyDir_pair. exact Hfull. }
  unfold run. rewrite Hmain. cbn [fst snd files trace].
  repeat split; try assumption. apply last_snoc.
Qed.

Lemma nonempty_target_refused_witness :
  fst (main sampleEnv ["--yes"] 4 (World occupiedFiles [] ""))
    = Throw (Error (targetNotEmptyMessage ["work"; "my-agent"]))
  ∧ files (snd (main sampleEnv ["--yes"] 4 (World occupiedFiles [] ""))) = occupiedFiles
  ∧ fst (run sampleEnv ["--yes"] 4 occupiedFiles) = Some 1%nat
  ∧ files (snd (run sampleEnv ["--yes"] 4 occupiedFiles)) = occupiedFiles
  ∧ last (trace (snd (run sampleEnv ["--yes"] 4 occupiedFiles)))
    = Some (Failure (Error (targetNotEmptyMessage ["work"; "my-agent"]))).
Proof.
  apply (nonempty_target_refused sampleEnv ["--yes"] 4 occupiedFiles
           (Options ["work"; "my-agent"] "basic" "node" false true true)).
  - vm_compute. reflexivity.
  - vm_compute. reflexivity.
  - vm_compute. reflexivity.
Defined.

(** C3 as stated fails: with the force flag absent and /work/my-agent
    not empty, a run that names an unknown template ends with "Unknown
    template", not with the error about the directory. *)
Lemma unknown_template_reported_first :
  inspect ["--template"; "bogus"; "--yes"] (λ args, args !! "force") = Some None
  ∧ fst (isEmptyDir ["work"; "my-agent"] occupiedFiles) = Normal false
  ∧ fst (run sampleEnv ["--template"; "bogus"; "--yes"] 4 occupiedFiles) = Some 1%nat
  ∧ trace (snd (run sampleEnv ["--template"; "bogus"; "--yes"] 4 occupiedFiles))
    = [Intro; Failure (Error "Unknown template: bogus")].
Proof. repeat split; vm_compute; reflexivity. Qed.

(** C7, evaluated.  /work/my-agent holds all nine files of the basic
    template; without the force flag the run stops at the first check
    of the destination, and the message names the directory and none
    of the nine files.  The listing that [collisionMessage] would
    build for them, with its cap of 8 and its ["- ..."] line, is not
    what is thrown. *)
Theorem occupied_target_message :
  match fst (listFiles 4 (templatesDir ++ ["basic"]) (templatesDir ++ ["basic"])
                      occupiedFiles) with
  | Normal templateFiles =>
      length templateFiles = 9%nat
      ∧ forallb (λ file, fsExists occupiedFiles (["work"; "my-agent"] ++ file))
                templateFiles = true
  | _ => False
  end
  ∧ fst (run sampleEnv ["--yes"] 4 occupiedFiles) = Some 1%nat
  ∧ trace (snd (run sampleEnv ["--yes"] 4 occupiedFiles))
    = [Intro;
       Failure (Error "Target directory is not empty: /work/my-agent. Use --force to overwrite.")].
Proof.
  split; [vm_compute; split; reflexivity|].
  split; vm_compute; reflexivity.
Qed.

Section Resolving.
Variable e : env.

(** Without [--yes], a cancelled directory prompt ends the process. *)
Lemma resolveOptions_cancelled (args : parsedArgs) w dirArg p :
  args !! "dir" = None →
  firstPositional args = Normal dirArg →
  resolveFromCwd e (orDefaultDir dirArg) = Normal p →
  truthy (args !! "yes") = false →
  directoryAnswer e = None →
  resolveOptions e args w =
  (Exit 1,
   World (files w)
         (trace w ++ [Intro; AskDirectory (valueString (orDefaultDir dirArg)); Cancelled])
         (lastStep w)).
Proof.
  intros Hdir Hpos Hres Hyes Hcancel.
  unfold resolveOptions, bind, log, pure, exit.
  rewrite Hdir, Hpos, Hres, Hyes. cbn [negb]. rewrite Hcancel.
  cbn [files trace lastStep]. rewrite <- !app_assoc. reflexivity.
Qed.

(** With [--yes] and the three options given as strings, nothing is
    asked. *)
Lemma resolveOptions_given (args : parsedArgs) w dir t r :
  args !! "dir" = Some (VStr dir) → nonEmpty dir = true →
  truthy (args !! "yes") = true →
  args !! "template" = Some (VStr t) → nonEmpty t = true → t ∈ TEMPLATES →
  args !! "runtime" = Some (VStr r) → nonEmpty r = true → r ∈ RUNTIMES →
  resolveOptions e args w =
  (Normal (Options (resolve (cwd e) dir) t r (truthy (args !! "force")) true
                   (shouldInstallOf args)),
   World (files w) (trace w ++ [Intro]) (lastStep w)).
Proof.
  intros Hdir Hd Hyes Ht Htn Htin Hr Hrn Hrin.
  unfold resolveOptions, bind, log, pure, ret, throw.
  rewrite Hdir, Hyes, Ht, Hr. cbn [truthy negb default].
  unfold orDefaultDir. cbn [truthy default]. rewrite Hd, Htn, Hrn.
  cbv [id]. cbn [resolveFromCwd includes valueString].
  rewrite !bool_decide_eq_true_2 by assumption. reflexivity.
Qed.

End Resolving.

(** The long flag does what the usage promises: whenever [--help] is
    among the arguments and the parser returns, the usage text is the
    only effect of the run. *)
Lemma long_help_flag (e : env) (argv : list string) (fuel : nat) (w : world)
      (parsed : parsedArgs) :
  "--help" ∈ argv →
  parseArgs argv = Normal parsed →
  main e argv fuel w = (Normal tt, World (files w) (trace w ++ [Usage]) (lastStep w)).
Proof.
  intros Hin Hparse. rewrite (main_parsed e _ _ _ _ Hparse).
  rewrite (parseArgs_help argv parsed Hin Hparse). reflexivity.
Qed.

(** The parser itself can throw: a [--positional] flag replaces the
    array of positionals, and the next positional cannot be pushed. *)
Example help_after_positional_flag :
  fst (run sampleEnv ["--positional"; "a"; "b"; "--help"] 4 sampleFiles) = Some 1%nat
  ∧ trace (snd (run sampleEnv ["--positional"; "a"; "b"; "--help"] 4 sampleFiles))
    = [Failure TypeError].
Proof. split; vm_compute; reflexivity. Qed.

(** C6, evaluated.  The token [-h] does not start with two dashes, so
    [parseArgs] files it as a positional and no [h] key exists: the
    run does not print the usage text; it opens the interactive flow
    with "-h" as the proposed directory, and here, the prompt being
    cancelled, exits with code 1. *)
Theorem short_help_flag_is_positional (e : env) (fuel : nat) (fs : filesystem) :
  directoryAnswer e = None →
  inspect ["-h"] (λ args, (helpRequested args, args !! "h", args !! "positional"))
    = Some (false, None, Some (VList ["-h"]))
  ∧ run e ["-h"] fuel fs
    = (Some 1%nat, World fs [Intro; AskDirectory "-h"; Cancelled] "").
Proof.
  intros Hcancel. split; [vm_compute; reflexivity|].
  assert (Hq : inspect ["-h"]
                 (λ a, (helpRequested a, a !! "dir", firstPositional a, truthy (a !! "yes")))
               = Some (false, None, Normal (Some (VStr "-h")), false))
    by (vm_compute; reflexivity).
  unfold inspect in Hq.
  destruct (parseArgs ["-h"]) as [args| | |] eqn:Eparse; try discriminate.
  injection Hq as Hhelp Hdir Hpos Hyes.
  unfold run. rewrite (main_parsed e _ _ _ _ Eparse), Hhelp.
  rewrite (bind_Exit _ _ _ _ _
             (resolveOptions_cancelled e args _ _ (resolve (cwd e) "-h")
                Hdir Hpos eq_refl Hyes Hcancel)).
  reflexivity.
Qed.

Lemma short_help_flag_is_positional_witness :
  inspect ["-h"] (λ args, (helpRequested args, args !! "h", args !! "positional"))
    = Some (false, None, Some (VList ["-h"]))
  ∧ run sampleEnv ["-h"] 4 sampleFiles
    = (Some 1%nat, World sampleFiles [Intro; AskDirectory "-h"; Cancelled] "").
Proof.
  apply (short_help_flag_is_positional sampleEnv 4 sampleFiles). reflexivity.
Defined.

(** ** A run into an empty destination *)

Section FreshScaffold.
Implicit Types (fs : filesystem) (dir : path).

Lemma isEmptyDir_true fs dir :
  wellFormed fs = true →
  fst (isEmptyDir dir fs) = Normal true →
  (∀ c, fs !! dir ≠ Some (File c)) ∧ ∀ n r, fs !! (dir ++ n :: r) = None.
Proof.
  intros Hwf. unfold isEmptyDir, bind, existsSync, readdirSync, reads, ret, fsExists, fsReaddir.
  destruct (fs !! dir) as [[c|]|] eqn:Edir; simpl; rewrite ?Edir; simpl.
  - discriminate.
  - intros [= Hlen]. apply Nat.eqb_eq in Hlen. apply length_zero_iff_nil in Hlen.
    split; [discriminate|]. intros n r.
    destruct (fs !! (dir ++ n :: r)) as [e0|] eqn:E; [exfalso|reflexivity].
    assert (He : is_Some (fs !! (dir ++ [n]))).
    { destruct r as [|m r]; [rewrite E; eauto|].
      rewrite (wellFormed_above fs (dir ++ [n]) (m :: r) Hwf); [eauto|discriminate|].
      rewrite <- app_assoc. cbn [app]. rewrite E. eauto. }
    destruct He as [e1 He].
    assert (Hin : Dirent n (entryIsDirectory e1) ∈ omap (childOf dir) (map_to_list fs)).
    { apply readdir_elem. exists e1. auto. }
    rewrite Hlen in Hin. inversion Hin.
  - intros _. split; [discriminate|]. intros n r.
    destruct (fs !! (dir ++ n :: r)) as [e0|] eqn:E; [exfalso|reflexivity].
    rewrite (wellFormed_above fs dir (n :: r) Hwf) in Edir; [discriminate|discriminate|].
    rewrite E. eauto.
Qed.

Lemma filter_none {A} (P : A → Prop) `{∀ x, Decision (P x)} (l : list A) :
  (∀ x, x ∈ l → ¬ P x) → filter P l = [].
Proof.
  induction l as [|x l IH]; intros Hno; [reflexivity|].
  rewrite filter_cons. destruct (decide (P x)) as [HP|_].
  - destruct (Hno x); [left|exact HP].
  - apply IH. intros y Hy. apply Hno. right. exact Hy.
Qed.

Lemma checkCollisions_empty fuel fs templateDir dir :
  wellFormed fs = true →
  fs !! templateDir = Some Directory →
  (depthBelow fs templateDir < fuel)%nat →
  fst (isEmptyDir dir fs) = Normal true →
  checkCollisions fuel templateDir dir fs = (Normal tt, fs).
Proof.
  intros Hwf Htempl Hdepth Hempty.
  destruct (isEmptyDir_true fs dir Hwf Hempty) as [_ Hnone].
  destruct (listFiles_files fuel fs templateDir) as [l [Hl Hmem]].
  { apply wellFormed_closedBelow. exact Hwf. }
  { intros c. congruence. }
  { lia. }
  { intros r. apply depthBelow_budget. exact Hdepth. }
  unfold checkCollisions. rewrite (bind_Normal _ _ _ _ _ Hl).
  unfold bind, reads. rewrite filter_none; [reflexivity|].
  intros x Hx. apply Hmem in Hx as [c Hc]. unfold fsExists.
  destruct x as [|n r].
  - rewrite app_nil_r in Hc. congruence.
  - rewrite Hnone. simpl. auto.
Qed.
End FreshScaffold.

Section FreshScaffold2.
Variable e : env.
Implicit Types (fs : filesystem) (dir : path).

Lemma resolveTemplatesRoot_pair fs root :
  fst (resolveTemplatesRoot e fs) = Normal root →
  resolveTemplatesRoot e fs = (Normal root, fs).
Proof.
  unfold resolveTemplatesRoot, bind, existsSync, reads, ret.
  destruct (fsExists fs (dirname (here e) ++ ["templates"])); simpl; congruence.
Qed.

Lemma apart_distinct (p q x y : path) : apart p q = true → p ++ x ≠ q ++ y.
Proof.
  intros Ha E. pose proof (apart_stripDir p q x Ha) as Hs.
  rewrite E, stripDir_app in Hs. discriminate.
Qed.

Lemma scaffold_fresh fuel (o : options) fs tr root :
  wellFormed fs = true →
  force o = false → shouldInstall o = false →
  fst (isEmptyDir (targetDir o) fs) = Normal true →
  (∀ q c, isPrefix q (targetDir o) = true → fs !! q ≠ Some (File c)) →
  fst (resolveTemplatesRoot e fs) = Normal root →
  fs !! (root ++ [template o]) = Some Directory →
  apart (root ++ [template o]) (targetDir o) = true →
  (depthBelow fs (root ++ [template o]) < fuel)%nat →
  holdsObject (fs !! ((root ++ [template o]) ++ ["mcp.json"])) = true →
  missingOrJson (fs !! ((root ++ [template o]) ++ ["package.json"])) = true →
  ∃ fs' props indent nl,
    scaffold e fuel o (World fs tr "") =
      (Normal tt,
       World fs'
         (tr ++ [Banner; StepLine "Validating destination"; StepLine "Copying template";
                 StepLine "Configuring manifest"; StepLine "Finalizing";
                 Ready (targetDir o) (template o) (runtime o) false;
                 Next ("cd " +:+ basename (targetDir o) +:+ " && pnpm install && dzx dev")])
         "Finalizing")
    ∧ (∀ x, kindAt fs' (targetDir o ++ x) = kindAt fs ((root ++ [template o]) ++ x))
    ∧ (∀ x, fs' !! ((root ++ [template o]) ++ x) = fs !! ((root ++ [template o]) ++ x))
    ∧ fs !! ((root ++ [template o]) ++ ["mcp.json"])
      = Some (File (JsonText (JObj props) indent nl))
    ∧ fs' !! (targetDir o ++ ["mcp.json"])
      = Some (File (JsonText
                     (JObj (assignProp "runtime" (JStr (runtime o))
                              (assignProp "name" (JStr (slugify (basename (targetDir o))))
                                 props)))
                     2 false))
    ∧ ∃ before,
        updatePackageJson (targetDir o) (default "*" (installedVersion e fs)) before
        = (Normal tt, fs')
        ∧ before !! (targetDir o ++ ["package.json"])
          = fs !! ((root ++ [template o]) ++ ["package.json"])
        ∧ before !! targetDir o = Some Directory.
Proof.
  intros Hwf Hforce Hinstall Hempty Hclear Hroot Htempl Hapart Hdepth Hmcp Hpkg.
  set (templateDir := root ++ [template o]) in *.
  set (target := targetDir o) in *.
  destruct (isEmptyDir_true fs target Hwf Hempty) as [_ Hnone].
  destruct (fs !! (templateDir ++ ["mcp.json"])) as [[[s|[| | | | |props] indent nl]|]|] eqn:Emcp;
    try discriminate Hmcp.
  (* the copy *)
  destruct (copyDir_spec fuel templateDir target fs) as [fs1 [Hcopy Hfs1]].
  { apply wellFormed_root. exact Hwf. }
  { apply wellFormed_closedBelow. exact Hwf. }
  { exact Htempl. }
  { intros r. apply depthBelow_budget. exact Hdepth. }
  { exact Hapart. }
  { exact Hclear. }
  { intros [|n r] e1 e2 H1 H2.
    - rewrite app_nil_r in *. rewrite Htempl in H1. injection H1 as <-.
      destruct e2 as [c|]; [|reflexivity].
      destruct (Hclear target c); [apply isPrefix_refl|exact H2].
    - rewrite Hnone in H2. discriminate. }
  assert (Hat_dest : ∀ x, fs1 !! (target ++ x) =
            match fs !! (templateDir ++ x) with
            | Some e0 => Some e0 | None => fs !! (target ++ x) end).
  { intros x. rewrite Hfs1. apply copied_below_dest. }
  assert (Hat_src : ∀ x, fs1 !! (templateDir ++ x) = fs !! (templateDir ++ x)).
  { intros x. rewrite Hfs1. apply copied_below_src. exact Hapart. }
  assert (Htarget1 : fs1 !! target = Some Directory).
  { rewrite <- (app_nil_r target), Hat_dest, app_nil_r, Htempl. reflexivity. }
  (* mcp.json *)
  pose proof (configureManifest_object fs1 target (runtime o) props indent nl) as Hconf.
  rewrite Hat_dest, Emcp in Hconf. specialize (Hconf eq_refl Htarget1).
  set (fs2 := <[target ++ ["mcp.json"] := _]> fs1) in Hconf.
  assert (Hfs2 : ∀ q, q ≠ target ++ ["mcp.json"] → fs2 !! q = fs1 !! q).
  { intros q Hq. subst fs2. apply lookup_insert_ne. congruence. }
  assert (Hkind2 : ∀ q, kindAt fs2 q = kindAt fs1 q).
  { intros q. unfold kindAt. destruct (decide (q = target ++ ["mcp.json"])) as [->|Hq].
    - subst fs2. rewrite lookup_insert_eq, Hat_dest, Emcp. reflexivity.
    - rewrite Hfs2 by exact Hq. reflexivity. }
  (* package.json *)
  pose proof (getDzxVersion_installed e fs) as Hversion.
  set (dzxVersion := default "*" (installedVersion e fs)) in *.
  assert (Hpkg2 : fs2 !! (target ++ ["package.json"]) = fs !! (templateDir ++ ["package.json"])).
  { rewrite Hfs2 by (intros E; apply app_inv_head in E; discriminate).
    rewrite Hat_dest.
    destruct (fs !! (templateDir ++ ["package.json"])) as [e0|] eqn:Ep; [reflexivity|].
    apply Hnone. }
  assert (Htarget2 : fs2 !! target = Some Directory).
  { rewrite Hfs2; [exact Htarget1|].
    intros E. rewrite <- (app_nil_r target) in E at 1. apply app_inv_head in E. discriminate. }
  destruct (updatePackageJson_total fs2 target dzxVersion) as (fs3 & Hupd & Hkind3 & Hfs3).
  { rewrite Hfs2 by (intros E; apply app_inv_head in E; discriminate).
    rewrite Hat_dest.
    destruct (fs !! (templateDir ++ ["package.json"])) as [e0|] eqn:Ep; [exact Hpkg|].
    rewrite Hnone. reflexivity. }
  { rewrite Hfs2; [exact Htarget1|].
    intros E. rewrite <- (app_nil_r target) in E at 1. apply app_inv_head in E. discriminate. }
  exists fs3, props, indent, nl.
  split.
  { unfold scaffold. fold templateDir. fold target.
    rewrite Hforce, Hinstall. cbn [negb andb].
    rewrite (bind_Normal _ _ _ _ _
               (onFiles_run _ (World fs tr "") _ _ (isEmptyDir_pair _ _ _ Hempty))).
    cbn [negb andb files trace lastStep].
    rewrite (bind_Normal _ _ _ _ _
               (onFiles_run _ (World fs tr "") _ _ (resolveTemplatesRoot_pair _ _ Hroot))).
    cbn [files trace lastStep]. fold templateDir.
    rewrite (bind_Normal _ _ _ _ _
               (onFiles_run _ (World fs tr "") _ _ (existsSync_run fs templateDir))).
    unfold fsExists. rewrite Htempl. cbn [negb files trace lastStep].
    unfold bind at 1. unfold ret at 1.
    rewrite (bind_Normal _ _ _ _ _
               (onFiles_run _ (World fs tr "") _ _ Hversion)).
    cbn [files trace lastStep].
    unfold bind at 1. unfold log at 1. cbn [files trace lastStep].
    unfold bind at 1. unfold step at 1. cbn [files trace lastStep nonEmpty].
    rewrite (bind_Normal _ _ _ _ _
               (onFiles_run _ (World fs _ _) _ _
                  (checkCollisions_empty fuel fs templateDir target Hwf Htempl Hdepth Hempty))).
    cbn [files trace lastStep].
    unfold bind at 1. unfold step at 1. cbn [files trace lastStep nonEmpty].
    rewrite (bind_Normal _ _ _ _ _ (onFiles_run _ (World fs _ _) _ _ Hcopy)).
    cbn [files trace lastStep].
    unfold bind at 1. unfold step at 1. cbn [files trace lastStep nonEmpty].
    rewrite (bind_Normal _ _ _ _ _ (onFiles_run _ (World fs1 _ _) _ _ Hconf)).
    cbn [files trace lastStep].
    rewrite (bind_Normal _ _ _ _ _ (onFiles_run _ (World fs2 _ _) _ _ Hupd)).
    cbn [files trace lastStep].
    unfold bind, ret, step, flushStep, log. cbn [files trace lastStep nonEmpty].
    rewrite <- !app_assoc. reflexivity. }
  split.
  { intros x. rewrite Hkind3, Hkind2. unfold kindAt. rewrite Hat_dest.
    destruct (fs !! (templateDir ++ x)) as [e0|] eqn:Ex; [reflexivity|].
    destruct x as [|n r]; [rewrite app_nil_r in Ex; congruence|].
    rewrite Hnone. reflexivity. }
  split.
  { intros x. rewrite Hfs3 by (apply apart_distinct; exact Hapart).
    rewrite Hfs2 by (apply apart_distinct; exact Hapart). apply Hat_src. }
  split; [reflexivity|].
  split.
  { rewrite Hfs3 by (intros E; apply app_inv_head in E; discriminate).
    subst fs2. apply lookup_insert_eq. }
  exists fs2. split; [exact Hupd|]. split; [exact Hpkg2|exact Htarget2].
Qed.
End FreshScaffold2.

Section Mirror.
Implicit Types (fs : filesystem) (dir : path).

Lemma kindAt_directory fs q : kindAt fs q = Some true ↔ fs !! q = Some Directory.
Proof.
  unfold kindAt. destruct (fs !! q) as [[c|]|]; simpl; split; congruence.
Qed.

Lemma kindAt_file fs q : kindAt fs q = Some false ↔ ∃ c, fs !! q = Some (File c).
Proof.
  unfold kindAt. destruct (fs !! q) as [[c|]|]; simpl; split;
    try congruence; eauto; intros [? ?]; congruence.
Qed.

Lemma kindAt_some fs q : is_Some (kindAt fs q) ↔ is_Some (fs !! q).
Proof. unfold kindAt. rewrite fmap_is_Some. reflexivity. Qed.

(** Two trees with the same kinds at the same relative paths list
    the same files. *)
Lemma listFiles_mirror fuel fsA dirA fsB dirB :
  (∀ x, kindAt fsB (dirB ++ x) = kindAt fsA (dirA ++ x)) →
  closedBelow fsA dirA →
  fsA !! dirA = Some Directory →
  (∀ r, is_Some (fsA !! (dirA ++ r)) → (length r < fuel)%nat) →
  ∃ lA lB,
    listFiles fuel dirA dirA fsA = (Normal lA, fsA)
    ∧ listFiles fuel dirB dirB fsB = (Normal lB, fsB)
    ∧ ∀ x, x ∈ lB ↔ x ∈ lA.
Proof.
  intros Hkind Hclosed Hdir Hdepth.
  assert (Hpos : (0 < fuel)%nat).
  { specialize (Hdepth []). rewrite app_nil_r, Hdir in Hdepth.
    specialize (Hdepth ltac:(eauto)). simpl in Hdepth. lia. }
  destruct (listFiles_files fuel fsA dirA) as [lA [HlA HmA]]; auto.
  { intros c. congruence. }
  destruct (listFiles_files fuel fsB dirB) as [lB [HlB HmB]]; auto.
  { intros r n Hs. apply kindAt_directory. rewrite Hkind. apply kindAt_directory.
    apply Hclosed with (n := n). apply kindAt_some. rewrite <- Hkind.
    apply kindAt_some. exact Hs. }
  { intros c Hc. assert (Hk : kindAt fsB (dirB ++ []) = Some false).
    { apply kindAt_file. rewrite app_nil_r. eauto. }
    rewrite Hkind, app_nil_r in Hk. apply kindAt_file in Hk as [c' Hc']. congruence. }
  { intros r Hr. apply Hdepth. apply kindAt_some. rewrite <- Hkind.
    apply kindAt_some. exact Hr. }
  exists lA, lB. repeat split; auto.
  - rewrite HmB, HmA, <- !kindAt_file, Hkind. auto.
  - rewrite HmB, HmA, <- !kindAt_file, Hkind. auto.
Qed.
End Mirror.

(** C1, as the code has it.  Invoked with [--dir ./out --template
    tools-only --runtime node --yes --no-install] from a working
    directory that exists, with the tools-only template present as a
    directory that lies apart from [./out], an mcp.json in it that
    holds a JSON object, a package.json in it that is missing or holds
    JSON other than [null], and [./out] empty or nonexistent, the run
    succeeds with exit code 0; afterwards the relative file paths below
    [./out] are exactly those below the template, the mcp.json in
    [./out] has [runtime] equal to "node" and [name] equal to the slug
    of "out", and no child process was spawned. *)
Theorem scaffold_tools_only (e : env) (fs : filesystem) (fuel : nat) (root : path) :
  wellFormed fs = true →
  fs !! cwd e = Some Directory →
  fst (resolveTemplatesRoot e fs) = Normal root →
  fs !! (root ++ ["tools-only"]) = Some Directory →
  fst (isEmptyDir (cwd e ++ ["out"]) fs) = Normal true →
  apart (root ++ ["tools-only"]) (cwd e ++ ["out"]) = true →
  (depthBelow fs (root ++ ["tools-only"]) < fuel)%nat →
  holdsObject (fs !! ((root ++ ["tools-only"]) ++ ["mcp.json"])) = true →
  missingOrJson (fs !! ((root ++ ["tools-only"]) ++ ["package.json"])) = true →
  ∃ w templateFiles outFiles props,
    main e ["--dir"; "./out"; "--template"; "tools-only"; "--runtime"; "node";
            "--yes"; "--no-install"] fuel (World fs [] "") = (Normal tt, w)
    ∧ run e ["--dir"; "./out"; "--template"; "tools-only"; "--runtime"; "node";
             "--yes"; "--no-install"] fuel fs = (Some 0%nat, w)
    ∧ listFiles fuel (root ++ ["tools-only"]) (root ++ ["tools-only"]) (files w)
      = (Normal templateFiles, files w)
    ∧ listFiles fuel (cwd e ++ ["out"]) (cwd e ++ ["out"]) (files w)
      = (Normal outFiles, files w)
    ∧ (∀ x, x ∈ outFiles ↔ x ∈ templateFiles)
    ∧ files w !! (cwd e ++ ["out"; "mcp.json"]) = Some (File (JsonText (JObj props) 2 false))
    ∧ lookupProp "runtime" props = Some (JStr "node")
    ∧ lookupProp "name" props = Some (JStr (slugify "out"))
    ∧ forallb (λ ev, negb (isSpawn ev)) (trace w) = true.
Proof.
  intros Hwf Hcwd Hroot Htempl Hempty Hapart Hdepth Hmcp Hpkg.
  set (argv := ["--dir"; "./out"; "--template"; "tools-only"; "--runtime"; "node";
                "--yes"; "--no-install"]).
  assert (Hq : inspect argv
                 (λ a, (helpRequested a, a !! "dir", truthy (a !! "yes"), a !! "template",
                        a !! "runtime", truthy (a !! "force"), shouldInstallOf a))
               = Some (false, Some (VStr "./out"), true, Some (VStr "tools-only"),
                       Some (VStr "node"), false, false))
    by (vm_compute; reflexivity).
  unfold inspect in Hq.
  destruct (parseArgs argv) as [args| | |] eqn:Eparse; try discriminate.
  injection Hq as Hhelp Hdir Hyes Ht Hr Hforce Hinstall.
  pose proof (resolveOptions_given e args (World fs [] "") "./out" "tools-only" "node"
                Hdir eq_refl Hyes Ht eq_refl ltac:(repeat constructor)
                Hr eq_refl ltac:(repeat constructor)) as Hopts.
  rewrite Hforce, Hinstall in Hopts.
  change (resolve (cwd e) "./out") with (cwd e ++ ["out"]) in Hopts.
  cbn [files trace lastStep app] in Hopts.
  set (o := Options (cwd e ++ ["out"]) "tools-only" "node" false true false) in *.
  destruct (isEmptyDir_true fs (cwd e ++ ["out"]) Hwf Hempty) as [Hnofile Hnone].
  destruct (scaffold_fresh e fuel o fs [Intro] root) as (fs' & props & indent & nl & Hrun
                                                         & Hkind & Hsame & Hprops & Hmanifest
                                                         & _);
    try assumption; try reflexivity.
  { intros q c Hq. apply isPrefix_snoc in Hq as [Hq| ->]; [|apply Hnofile].
    apply isPrefix_true in Hq as [r Hr']. destruct r as [|n r].
    - rewrite app_nil_r in Hr'. subst q. congruence.
    - rewrite (wellFormed_above fs q (n :: r) Hwf); [discriminate|discriminate|].
      rewrite <- Hr', Hcwd. eauto. }
  cbn [targetDir template runtime] in *.
  destruct (listFiles_mirror fuel fs' (root ++ ["tools-only"]) fs' (cwd e ++ ["out"]))
    as (lA & lB & HlA & HlB & Hmem).
  { intros x. rewrite Hkind. unfold kindAt. rewrite Hsame. reflexivity. }
  { intros r n. rewrite !Hsame. apply (wellFormed_closedBelow fs _ Hwf r n). }
  { rewrite <- (app_nil_r (root ++ ["tools-only"])), Hsame, app_nil_r. exact Htempl. }
  { intros r. rewrite Hsame. apply depthBelow_budget. exact Hdepth. }
  match type of Hrun with
  | _ = (_, ?w) => assert (Hmain : main e argv fuel (World fs [] "") = (Normal tt, w))
  end.
  { rewrite (main_parsed e _ _ _ _ Eparse), Hhelp.
    rewrite (bind_Normal _ _ _ _ _ Hopts). exact Hrun. }
  eexists. exists lA, lB. eexists.
  split; [exact Hmain|].
  split; [unfold run; rewrite Hmain; reflexivity|].
  cbn [files trace].
  split; [exact HlA|]. split; [exact HlB|]. split; [exact Hmem|].
  split.
  { replace (cwd e ++ ["out"; "mcp.json"]) with ((cwd e ++ ["out"]) ++ ["mcp.json"])
      by (rewrite <- app_assoc; reflexivity).
    exact Hmanifest. }
  split; [apply lookupProp_assignProp_same|].
  split.
  { rewrite lookupProp_assignProp_other by discriminate.
    rewrite lookupProp_assignProp_same. unfold o. cbn [targetDir].
    rewrite basename_snoc. reflexivity. }
  reflexivity.
Qed.

Lemma scaffold_tools_only_witness :
  ∃ w templateFiles outFiles props,
    main sampleEnv ["--dir"; "./out"; "--template"; "tools-only"; "--runtime"; "node";
            "--yes"; "--no-install"] 4 (World sampleFiles [] "") = (Normal tt, w)
    ∧ run sampleEnv ["--dir"; "./out"; "--template"; "tools-only"; "--runtime"; "node";
             "--yes"; "--no-install"] 4 sampleFiles = (Some 0%nat, w)
    ∧ listFiles 4 (templatesDir ++ ["tools-only"]) (templatesDir ++ ["tools-only"]) (files w)
      = (Normal templateFiles, files w)
    ∧ listFiles 4 (cwd sampleEnv ++ ["out"]) (cwd sampleEnv ++ ["out"]) (files w)
      = (Normal outFiles, files w)
    ∧ (∀ x, x ∈ outFiles ↔ x ∈ templateFiles)
    ∧ files w !! (cwd sampleEnv ++ ["out"; "mcp.json"])
      = Some (File (JsonText (JObj props) 2 false))
    ∧ lookupProp "runtime" props = Some (JStr "node")
    ∧ lookupProp "name" props = Some (JStr (slugify "out"))
    ∧ forallb (λ ev, negb (isSpawn ev)) (trace w) = true.
Proof.
  apply (scaffold_tools_only sampleEnv sampleFiles 4 templatesDir).
  - vm_compute. reflexivity.
  - vm_compute. reflexivity.
  - vm_compute. reflexivity.
  - vm_compute. reflexivity.
  - vm_compute. reflexivity.
  - vm_compute. reflexivity.
  - vm_compute. lia.
  - vm_compute. reflexivity.
  - vm_compute. reflexivity.
Defined.

(** C1 as stated fails: with a tools-only template whose mcp.json is
    not JSON, the same invocation into an empty /work ends with a
    SyntaxError and exit code 1, after the template was copied. *)
Lemma broken_manifest_aborts :
  wellFormed brokenManifestFiles = true
  ∧ brokenManifestFiles !! (templatesDir ++ ["tools-only"]) = Some Directory
  ∧ fst (resolveTemplatesRoot sampleEnv brokenManifestFiles) = Normal templatesDir
  ∧ fst (isEmptyDir ["work"; "out"] brokenManifestFiles) = Normal true
  ∧ fst (run sampleEnv ["--dir"; "./out"; "--template"; "tools-only"; "--runtime"; "node";
                        "--yes"; "--no-install"] 4 brokenManifestFiles) = Some 1%nat
  ∧ last (trace (snd (run sampleEnv
                        ["--dir"; "./out"; "--template"; "tools-only"; "--runtime"; "node";
                         "--yes"; "--no-install"] 4 brokenManifestFiles)))
    = Some (Failure SyntaxError).
Proof. repeat split; vm_compute; reflexivity. Qed.

(** ** The package.json patch in a run *)

Section RunSteps.
Variable e : env.






End RunSteps.




(** ** parseArgs against its contract *)

Section ParserFacts.

Lemma prefix_empty (s : string) : String.prefix "" s = true.
Proof. destruct s; reflexivity. Qed.

Lemma flag_token (token key : string) :
  token = "--" +:+ key ↔ startsWithDashes token = true ∧ slice2 token = key.
Proof.
  unfold startsWithDashes. split.
  - intros ->. split; [|reflexivity]. cbn. apply prefix_empty.
  - destruct token as [|a [|b rest]]; cbn -[ascii_dec].
    + intros [H _]. discriminate H.
    + intros [H _]. destruct (ascii_dec "-" a); discriminate H.
    + destruct (ascii_dec "-" a) as [<-|]; [|intros [H _]; discriminate H].
      destruct (ascii_dec "-" b) as [<-|]; [|intros [H _]; discriminate H].
      intros [_ ->]. reflexivity.
Qed.

Lemma isValue_not_flag (next key : string) : isValue next = true → next ≠ "--" +:+ key.
Proof.
  unfold isValue. intros [_ H]%andb_true_iff Heq. apply negb_true_iff in H.
  apply flag_token in Heq as [Hf _]. congruence.
Qed.

Lemma setProperty_other key v (args : parsedArgs) k :
  key ≠ k → setProperty key v args !! k = args !! k.
Proof.
  intros Hne. unfold setProperty. destruct (decide (key = "__proto__")); [reflexivity|].
  apply lookup_insert_ne. exact Hne.
Qed.

Lemma setProperty_same key v (args : parsedArgs) :
  key ≠ "__proto__" → setProperty key v args !! key = Some v.
Proof.
  intros Hne. unfold setProperty. rewrite decide_False by exact Hne.
  apply lookup_insert_eq.
Qed.

(** What one flag token stores, seen from a key. *)
Lemma setProperty_flag arg v (args : parsedArgs) key :
  startsWithDashes arg = true → key ≠ "__proto__" →
  setProperty (slice2 arg) v args !! key =
  if decide (arg = "--" +:+ key) then Some v else args !! key.
Proof.
  intros Hflag Hkey. destruct (decide (arg = "--" +:+ key)) as [Heq|Hne].
  - apply flag_token in Heq as [_ <-]. apply setProperty_same. exact Hkey.
  - apply setProperty_other. intros Hs. apply Hne, flag_token. auto.
Qed.

Lemma parseLoop_flagValue n : ∀ argv (args parsed : parsedArgs) key,
  (length argv ≤ n)%nat → key ≠ "positional" → key ≠ "__proto__" →
  parseLoop argv args = Normal parsed →
  parsed !! key = match flagValue key argv with Some v => Some v | None => args !! key end.
Proof.
  induction n as [|n IH]; intros argv args parsed key Hlen Hpos Hproto.
  { destruct argv; [|simpl in Hlen; lia]. intros [= <-]. reflexivity. }
  destruct argv as [|arg rest]; [intros [= <-]; reflexivity|].
  simpl in Hlen. cbn [parseLoop flagValue].
  destruct (startsWithDashes arg) eqn:Earg; cbn [negb].
  - destruct rest as [|next rest'].
    + intros [= <-]. cbn [flagValue]. rewrite setProperty_flag by assumption.
      destruct (decide (arg = "--" +:+ key)); reflexivity.
    + fold (isValue next). destruct (isValue next) eqn:En.
      * assert (Hlen' : (length rest' ≤ n)%nat) by (simpl in Hlen; lia).
        intros Hrun. rewrite (IH _ _ _ key Hlen' Hpos Hproto Hrun).
        cbn [flagValue]. destruct (flagValue key rest') as [v|]; [reflexivity|].
        rewrite decide_False by (apply isValue_not_flag; exact En).
        rewrite setProperty_flag by assumption.
        destruct (decide (arg = "--" +:+ key)); reflexivity.
      * assert (Hlen' : (length (next :: rest') ≤ n)%nat) by lia.
        intros Hrun. rewrite (IH _ _ _ key Hlen' Hpos Hproto Hrun).
        destruct (flagValue key (next :: rest')) as [v|]; [reflexivity|].
        rewrite setProperty_flag by assumption.
        destruct (decide (arg = "--" +:+ key)); reflexivity.
  - destruct (args !! "positional") as [[| |items]|] eqn:Ep; try discriminate.
    assert (Hlen' : (length rest ≤ n)%nat) by lia.
    intros Hrun. rewrite (IH _ _ _ key Hlen' Hpos Hproto Hrun).
    destruct (flagValue key rest) as [v|]; [reflexivity|].
    rewrite decide_False.
    + apply lookup_insert_ne. congruence.
    + intros Heq. apply flag_token in Heq as [Hf _]. congruence.
Qed.

Lemma parseLoop_positionals n : ∀ argv (args : parsedArgs) items prev,
  (length argv ≤ n)%nat → "--positional" ∉ argv →
  args !! "positional" = Some (VList items) →
  match prev, argv with
  | Some p, t :: _ => negb (startsWithDashes p && isValue t)
  | _, _ => true
  end = true →
  ∃ parsed, parseLoop argv args = Normal parsed
            ∧ parsed !! "positional" = Some (VList (items ++ positionalsAfter prev argv)).
Proof.
  induction n as [|n IH]; intros argv args items prev Hlen Hno Hitems Hprev.
  { destruct argv; [|simpl in Hlen; lia]. exists args. simpl. rewrite app_nil_r. auto. }
  destruct argv as [|arg rest].
  { exists args. simpl. rewrite app_nil_r. auto. }
  simpl in Hlen. apply not_elem_of_cons in Hno as [Harg Hno].
  cbn [parseLoop positionalsAfter].
  assert (Htaken : match prev with
                   | Some flag => startsWithDashes flag && isValue arg
                   | None => false
                   end = false).
  { destruct prev as [p|]; [|reflexivity]. apply negb_true_iff in Hprev. exact Hprev. }
  rewrite Htaken. cbn [negb]. rewrite andb_true_r.
  destruct (startsWithDashes arg) eqn:Earg; cbn [negb app].
  - assert (Hkeep : ∀ v, setProperty (slice2 arg) v args !! "positional" = Some (VList items)).
    { intros v. rewrite setProperty_other; [exact Hitems|].
      intros Hs. apply Harg. symmetry. apply (flag_token arg "positional"). auto. }
    destruct rest as [|next rest'].
    + eexists. split; [reflexivity|]. rewrite app_nil_r. apply Hkeep.
    + fold (isValue next). destruct (isValue next) eqn:En.
      * apply not_elem_of_cons in Hno as [_ Hno].
        destruct (IH rest' (setProperty (slice2 arg) (VStr next) args) items (Some next))
          as [parsed [Hrun Hp]]; [simpl in *; lia|exact Hno|apply Hkeep| |].
        { destruct rest' as [|t ?]; [reflexivity|].
          unfold isValue in En. apply andb_true_iff in En as [_ En].
          apply negb_true_iff in En. rewrite En. reflexivity. }
        exists parsed. split; [exact Hrun|]. rewrite Hp.
        cbn [positionalsAfter]. rewrite Earg, En. cbn [andb negb app].
        rewrite andb_false_r. reflexivity.
      * apply (IH (next :: rest') _ items (Some arg)); [simpl in *; lia|exact Hno|apply Hkeep|].
        rewrite Earg, En. reflexivity.
  - rewrite Hitems.
    destruct (IH rest (<["positional" := VList (items ++ [arg])]> args) (items ++ [arg]) (Some arg))
      as [parsed [Hrun Hp]]; [lia|exact Hno|apply lookup_insert_eq| |].
    { destruct rest; [reflexivity|]. rewrite Earg. reflexivity. }
    exists parsed. split; [exact Hrun|]. rewrite Hp, <- app_assoc. reflexivity.
Qed.

(** The parser ends by returning or by throwing a TypeError. *)
Lemma parseLoop_outcome n : ∀ argv (args : parsedArgs),
  (length argv ≤ n)%nat →
  (∃ parsed, parseLoop argv args = Normal parsed) ∨ parseLoop argv args = Throw TypeError.
Proof.
  induction n as [|n IH]; intros argv args Hlen.
  { destruct argv; [left; eexists; reflexivity|simpl in Hlen; lia]. }
  destruct argv as [|arg rest]; [left; eexists; reflexivity|].
  simpl in Hlen. cbn [parseLoop].
  destruct (negb (startsWithDashes arg)).
  - destruct (args !! "positional") as [[| |items]|]; auto.
    apply IH. lia.
  - destruct rest as [|next rest']; [apply IH; simpl; lia|].
    destruct (nonEmpty next && negb (startsWithDashes next)); apply IH; simpl in *; lia.
Qed.

Lemma parseLoop_app n : ∀ (a b : list string) (args : parsedArgs),
  (length a ≤ n)%nat → cleanCut a b = true →
  parseLoop (a ++ b) args =
  match parseLoop a args with
  | Normal args' => parseLoop b args'
  | r => r
  end.
Proof.
  induction n as [|n IH]; intros a b args Hlen Hcut.
  { destruct a; [reflexivity|simpl in Hlen; lia]. }
  destruct a as [|arg rest]; [reflexivity|].
  simpl in Hlen. rewrite <- app_comm_cons. cbn [parseLoop].
  assert (Hrest : rest ≠ [] → cleanCut rest b = true).
  { intros Hne. destruct rest as [|x rest']; [congruence|]. exact Hcut. }
  destruct (startsWithDashes arg) eqn:Earg; cbn [negb].
  - destruct rest as [|next rest'].
    + cbn [app parseLoop]. unfold cleanCut in Hcut. cbn [last] in Hcut.
      rewrite Earg in Hcut. cbn [andb] in Hcut.
      destruct b as [|token b']; [reflexivity|].
      fold (isValue token). apply negb_true_iff in Hcut. rewrite Hcut. reflexivity.
    + rewrite <- app_comm_cons. fold (isValue next). destruct (isValue next) eqn:En.
      * apply IH; [simpl in *; lia|].
        destruct rest' as [|x rest'']; [|exact Hcut].
        unfold cleanCut. cbn [last]. destruct b; reflexivity.
      * rewrite app_comm_cons. apply IH; [simpl in *; lia|].
        apply Hrest. discriminate.
  - destruct (args !! "positional") as [[| |items]|]; try reflexivity.
    apply IH; [lia|].
    destruct rest as [|x rest']; [|exact Hcut].
    unfold cleanCut. cbn [last]. destruct b; reflexivity.
Qed.

(** Once [positional] no longer holds an array, the first positional
    token makes the parser throw. *)
Lemma parseLoop_no_array n : ∀ argv (args : parsedArgs) prev,
  (length argv ≤ n)%nat →
  (∀ items, args !! "positional" ≠ Some (VList items)) →
  match prev, argv with
  | Some p, t :: _ => negb (startsWithDashes p && isValue t)
  | _, _ => true
  end = true →
  positionalsAfter prev argv ≠ [] →
  parseLoop argv args = Throw TypeError.
Proof.
  induction n as [|n IH]; intros argv args prev Hlen Hno Hprev Hsome.
  { destruct argv; [destruct Hsome; reflexivity|simpl in Hlen; lia]. }
  destruct argv as [|arg rest]; [destruct Hsome; reflexivity|].
  simpl in Hlen. cbn [parseLoop]. cbn [positionalsAfter] in Hsome.
  assert (Htaken : match prev with
                   | Some flag => startsWithDashes flag && isValue arg
                   | None => false
                   end = false).
  { destruct prev as [p|]; [|reflexivity]. apply negb_true_iff in Hprev. exact Hprev. }
  rewrite Htaken in Hsome. cbn [negb] in Hsome. rewrite andb_true_r in Hsome.
  destruct (startsWithDashes arg) eqn:Earg; cbn [negb app] in *.
  - assert (Hkeep : ∀ v, (∀ items, v ≠ VList items) →
              ∀ items, setProperty (slice2 arg) v args !! "positional" ≠ Some (VList items)).
    { intros v Hv items. unfold setProperty.
      destruct (decide (slice2 arg = "__proto__")); [apply Hno|].
      destruct (decide (slice2 arg = "positional")) as [->|Hne].
      - rewrite lookup_insert_eq. intros [= E]. exact (Hv _ E).
      - rewrite lookup_insert_ne by exact Hne. apply Hno. }
    destruct rest as [|next rest']; [destruct Hsome; reflexivity|].
    fold (isValue next). cbn [positionalsAfter] in Hsome. rewrite Earg in Hsome.
    cbn [andb] in Hsome. destruct (isValue next) eqn:En.
    + cbn [negb] in Hsome. rewrite andb_false_r in Hsome. cbn [app] in Hsome.
      apply (IH rest' _ (Some next)); [simpl in *; lia|apply Hkeep; discriminate| |exact Hsome].
      destruct rest' as [|t ?]; [reflexivity|].
      unfold isValue in En. apply andb_true_iff in En as [_ En].
      apply negb_true_iff in En. rewrite En. reflexivity.
    + apply (IH (next :: rest') _ (Some arg)); [simpl in *; lia|apply Hkeep; discriminate| |].
      * rewrite Earg, En. reflexivity.
      * cbn [positionalsAfter]. rewrite Earg, En. exact Hsome.
  - destruct (args !! "positional") as [[| |items]|] eqn:Ep; try reflexivity.
    destruct (Hno items eq_refl).
Qed.

End ParserFacts.

(** X1. Whatever [parseArgs] returns, the property it stores under a
    key (other than [positional] and [__proto__]) is decided by the
    last [--key] among the arguments: the token after it when that
    token is not empty and is not itself a flag, [true] otherwise; a
    key that no flag names is absent. *)
Theorem parseArgs_flag_values (argv : list string) (args : parsedArgs) (key : string) :
  parseArgs argv = Normal args →
  key ≠ "positional" → key ≠ "__proto__" →
  args !! key = flagValue key argv.
Proof.
  intros Hrun Hpos Hproto.
  rewrite (parseLoop_flagValue (length argv) argv _ args key (le_n _) Hpos Hproto Hrun).
  destruct (flagValue key argv); [reflexivity|].
  apply lookup_singleton_ne. congruence.
Qed.

Lemma parseArgs_flag_values_witness :
  ∃ args, parseArgs ["--dir"; "a"; "x"; "--yes"; "--dir"; "b"; "--force"; "--dir"] = Normal args
          ∧ args !! "dir" = Some VTrue.
Proof.
  eexists. split; [reflexivity|].
  apply (parseArgs_flag_values
           ["--dir"; "a"; "x"; "--yes"; "--dir"; "b"; "--force"; "--dir"] _ "dir");
    [reflexivity|discriminate|discriminate].
Defined.


(** X2. Unless [--positional] is among the arguments, [parseArgs]
    returns, and the positionals it stores are, in order, the tokens
    that are not flags and are not the value of the flag right before
    them; an empty token is never taken as a value. *)
Theorem parseArgs_positionals (argv : list string) :
  "--positional" ∉ argv →
  ∃ args, parseArgs argv = Normal args
          ∧ args !! "positional" = Some (VList (positionalsOf argv)).
Proof.
  intros Hno.
  destruct (parseLoop_positionals (length argv) argv {[ "positional" := VList [] ]} [] None)
    as [parsed [Hrun Hp]]; [lia|exact Hno|apply lookup_singleton_eq|destruct argv; reflexivity|].
  exists parsed. split; [exact Hrun|exact Hp].
Qed.

Lemma parseArgs_positionals_witness :
  ∃ args, parseArgs ["app"; "--template"; "basic"; "x"; "--dir"; ""; "--yes"; "--force"; "y"]
          = Normal args
          ∧ args !! "positional" = Some (VList ["app"; "x"; ""]).
Proof.
  apply (parseArgs_positionals
           ["app"; "--template"; "basic"; "x"; "--dir"; ""; "--yes"; "--force"; "y"]).
  rewrite !not_elem_of_cons. repeat split; try discriminate. apply not_elem_of_nil.
Defined.

(** X3. Parsing composes at every cut that does not part a flag from
    its value: the arguments [a ++ b] are parsed as [a] and then [b],
    the second from what the first stored, and when [a] makes the
    parser throw so does [a ++ b]. *)
Theorem parseLoop_composes (a b : list string) (args : parsedArgs) :
  cleanCut a b = true →
  parseLoop (a ++ b) args =
  match parseLoop a args with
  | Normal args' => parseLoop b args'
  | r => r
  end.
Proof. apply (parseLoop_app (length a)). lia. Qed.

Lemma parseLoop_composes_witness :
  parseLoop (["app"; "--template"; "basic"] ++ ["--yes"; "--dir"; "out"])
            {[ "positional" := VList [] ]} =
  match parseLoop ["app"; "--template"; "basic"] {[ "positional" := VList [] ]} with
  | Normal args' => parseLoop ["--yes"; "--dir"; "out"] args'
  | r => r
  end.
Proof.
  apply (parseLoop_composes ["app"; "--template"; "basic"] ["--yes"; "--dir"; "out"]).
  reflexivity.
Defined.

(** X4. The parser can fail: a [--positional] flag replaces the array
    of positionals by [true] or by a string, and the first positional
    token after it makes [parseArgs] throw a TypeError. *)
Theorem parseArgs_positional_flag (a b : list string) :
  positionalsAfter (Some "--positional") b ≠ [] →
  parseArgs (a ++ "--positional" :: b) = Throw TypeError.
Proof.
  intros Hsome. unfold parseArgs.
  rewrite (parseLoop_app (length a)); [|lia|].
  2:{ unfold cleanCut. destruct (last a); [|reflexivity]. cbn. rewrite andb_false_r. reflexivity. }
  destruct (parseLoop_outcome (length a) a {[ "positional" := VList [] ]} (le_n _))
    as [[args' ->]| ->]; [|reflexivity].
  assert (Hset : ∀ v, (∀ items, v ≠ VList items) →
            ∀ items, setProperty "positional" v args' !! "positional" ≠ Some (VList items)).
  { intros v Hv items. rewrite setProperty_same by discriminate. intros [= E]. exact (Hv _ E). }
  destruct b as [|next rest']; [destruct Hsome; reflexivity|].
  cbn [positionalsAfter] in Hsome.
  change (startsWithDashes "--positional") with true in Hsome. cbn [andb] in Hsome.
  change (parseLoop ("--positional" :: next :: rest') args') with
    (if isValue next
     then parseLoop rest' (setProperty "positional" (VStr next) args')
     else parseLoop (next :: rest') (setProperty "positional" VTrue args')).
  destruct (isValue next) eqn:En.
  - cbn [negb] in Hsome. rewrite andb_false_r in Hsome. cbn [app] in Hsome.
    apply (parseLoop_no_array (length rest') _ _ (Some next));
      [lia|apply Hset; discriminate| |exact Hsome].
    destruct rest' as [|t ?]; [reflexivity|].
    unfold isValue in En. apply andb_true_iff in En as [_ En].
    apply negb_true_iff in En. rewrite En. reflexivity.
  - apply (parseLoop_no_array (length (next :: rest')) _ _ (Some "--positional"));
      [lia|apply Hset; discriminate| |].
    + rewrite En. rewrite andb_false_r. reflexivity.
    + cbn [positionalsAfter].
      change (startsWithDashes "--positional") with true. cbn [andb]. rewrite En. exact Hsome.
Qed.

Lemma parseArgs_positional_flag_witness :
  parseArgs (["--yes"] ++ "--positional" :: ["a"; "--force"; "b"; "c"]) = Throw TypeError.
Proof.
  apply (parseArgs_positional_flag ["--yes"] ["a"; "--force"; "b"; "c"]). discriminate.
Defined.

(** ** The checks of the destination *)

(** X5. [isEmptyDir] by cases: a path that does not exist counts as
    empty; a directory is empty exactly when no entry sits right below
    it; a regular file makes the check throw ENOTDIR.  The files are
    never changed. *)
Theorem isEmptyDir_cases (fs : filesystem) (dir : path) :
  (fs !! dir = None → isEmptyDir dir fs = (Normal true, fs))
  ∧ (∀ c, fs !! dir = Some (File c) →
          isEmptyDir dir fs = (Throw (SystemError "ENOTDIR"), fs))
  ∧ (fs !! dir = Some Directory →
     ∃ b, isEmptyDir dir fs = (Normal b, fs)
          ∧ (b = true ↔ ∀ n, fs !! (dir ++ [n]) = None)).
Proof.
  unfold isEmptyDir, bind, existsSync, readdirSync, reads, ret, fsExists, fsReaddir.
  repeat split.
  - intros ->. reflexivity.
  - intros c Hc. rewrite Hc. cbn [negb]. rewrite Hc. reflexivity.
  - intros Hd. rewrite Hd. cbn [negb]. rewrite Hd. eexists. split; [reflexivity|].
    rewrite Nat.eqb_eq, length_zero_iff_nil. split.
    + intros Hnil n. destruct (fs !! (dir ++ [n])) as [e|] eqn:E; [exfalso|reflexivity].
      assert (Hin : Dirent n (entryIsDirectory e) ∈ omap (childOf dir) (map_to_list fs)).
      { apply readdir_elem. exists e. auto. }
      rewrite Hnil in Hin. inversion Hin.
    + intros Hnone. destruct (omap (childOf dir) (map_to_list fs)) as [|d l] eqn:E;
        [reflexivity|exfalso].
      assert (Hin : d ∈ omap (childOf dir) (map_to_list fs)) by (rewrite E; left).
      apply readdir_elem in Hin as [e [He _]]. rewrite Hnone in He. discriminate.
Qed.

Section ReadOnlyFacts.
Context {S : Type}.

Lemma bind_snd {A B} (c : prog S A) (k : A → prog S B) s :
  snd (c s) = s → (∀ a, snd (k a s) = s) → snd (bind c k s) = s.
Proof.
  unfold bind. destruct (c s) as [[a|err|code|] s1]; cbn [snd]; intros ->; auto.
Qed.

Lemma forFold_snd {A B} (body : B → A → prog S B) (xs : list A) s :
  (∀ acc x, snd (body acc x s) = s) → ∀ acc, snd (forFold xs acc body s) = s.
Proof.
  intros Hbody. induction xs as [|x xs IH]; intros acc; [reflexivity|].
  cbn [forFold]. apply bind_snd; [apply Hbody|apply IH].
Qed.

(** The result of a loop that returns, from an invariant indexed by
    the items done. *)
Lemma forFold_partial {A B} (I : list A → B → Prop) (body : B → A → prog S B)
      (rest : list A) : ∀ done acc s r s',
  I done acc →
  (∀ d x t acc0 s0 acc1 s1, done ++ rest = d ++ x :: t → I d acc0 →
     body acc0 x s0 = (Normal acc1, s1) → I (d ++ [x]) acc1) →
  forFold rest acc body s = (Normal r, s') → I (done ++ rest) r.
Proof.
  induction rest as [|x rest IH]; intros done acc s r s' HI Hstep.
  - intros [= <- <-]. rewrite app_nil_r. exact HI.
  - cbn [forFold]. unfold bind at 1.
    destruct (body acc x s) as [[acc1|err|code|] s1] eqn:Eb; try discriminate.
    intros Hrun.
    replace (done ++ x :: rest) with ((done ++ [x]) ++ rest)
      by (rewrite <- app_assoc; reflexivity).
    apply (IH _ acc1 s1 r s').
    + apply (Hstep done x rest acc s acc1 s1); auto.
    + intros d y t acc0 s0 acc2 s2 Heq. apply (Hstep d y t acc0 s0 acc2 s2).
      rewrite <- Heq, <- app_assoc. reflexivity.
    + exact Hrun.
Qed.

End ReadOnlyFacts.

Section ListingFacts.
Implicit Types (fs : filesystem) (dir base : path).

Lemma listFiles_snd fuel : ∀ dir base fs, snd (listFiles fuel dir base fs) = fs.
Proof.
  induction fuel as [|fuel IH]; intros dir base fs; [reflexivity|].
  cbn [listFiles]. apply bind_snd; [reflexivity|]. intros present.
  destruct (negb present); [reflexivity|].
  apply bind_snd.
  { unfold readdirSync, reads. reflexivity. }
  intros unsorted. apply forFold_snd. intros acc [n b]. cbn [name isDirectory].
  destruct b; [|reflexivity].
  apply bind_snd; [apply IH|reflexivity].
Qed.

Lemma checkCollisions_snd fuel templateDir dir fs :
  snd (checkCollisions fuel templateDir dir fs) = fs.
Proof.
  unfold checkCollisions. apply bind_snd; [apply listFiles_snd|]. intros templateFiles.
  apply bind_snd; [reflexivity|]. intros collisions.
  destruct (0 <? length collisions)%nat; reflexivity.
Qed.

Lemma listFiles_once fuel : ∀ base s dir fs l fs',
  dir = base ++ s →
  listFiles fuel dir base fs = (Normal l, fs') →
  NoDup l ∧ ∀ y, y ∈ l → ∃ n r, y = s ++ n :: r.
Proof.
  induction fuel as [|fuel IH]; intros base s dir fs l fs' Hdir; [discriminate|].
  cbn [listFiles]. rewrite (bind_Normal _ _ _ _ _ (existsSync_run fs dir)).
  destruct (negb (fsExists fs dir)).
  { intros [= <- <-]. split; [constructor|]. intros y Hy. inversion Hy. }
  unfold bind at 1. unfold readdirSync, reads, fsReaddir.
  destruct (fs !! dir) as [[c|]|] eqn:Edir; try discriminate.
  set (entries := merge_sort nameLe (omap (childOf dir) (map_to_list fs))).
  assert (Hnd : NoDup (name <$> entries)).
  { subst entries. rewrite merge_sort_Permutation. apply readdir_NoDup. }
  intros Hrun.
  match type of Hrun with
  | forFold _ _ ?body _ = _ =>
      pose proof (forFold_partial
                    (λ (d : list dirent) (files : list path),
                       NoDup files ∧ ∀ y, y ∈ files → ∃ x r, x ∈ d ∧ y = s ++ name x :: r)
                    body entries [] [] fs l fs') as Hloop
  end.
  cbn [app] in Hloop. destruct Hloop as [Hl Hshape].
  - split; [constructor|]. intros y Hy. inversion Hy.
  - intros d [n b] t acc0 s0 acc1 s1 Hsplit [Hacc Hform]. cbn [name isDirectory].
    assert (Hfresh : ∀ x, x ∈ d → name x ≠ n).
    { intros x Hx Heq. rewrite Hsplit, fmap_app in Hnd.
      apply NoDup_app in Hnd as (_ & Hdis & _).
      apply (Hdis n); [rewrite <- Heq; apply list_elem_of_fmap; eauto|left]. }
    destruct b.
    + unfold bind at 1.
      destruct (listFiles fuel (dir ++ [n]) base s0) as [[below|err|code|] s2] eqn:Eb;
        try discriminate.
      intros [= <- <-].
      destruct (IH base (s ++ [n]) (dir ++ [n]) s0 below s2) as [Hbelow Hbform];
        [rewrite Hdir, <- app_assoc; reflexivity|exact Eb|].
      split.
      * apply NoDup_app. split; [exact Hacc|]. split; [|exact Hbelow].
        intros y Hy Hy'. apply Hform in Hy as (x & r & Hx & ->).
        apply Hbform in Hy' as (n' & r' & Heq). rewrite <- app_assoc in Heq.
        apply app_inv_head in Heq. injection Heq as Heq _. exact (Hfresh x Hx Heq).
      * intros y [Hy|Hy]%elem_of_app.
        -- apply Hform in Hy as (x & r & Hx & ->). exists x, r. split; [|reflexivity].
           apply elem_of_app. auto.
        -- apply Hbform in Hy as (n' & r' & ->). exists (Dirent n true), (n' :: r').
           split; [apply elem_of_app; right; left|]. rewrite <- app_assoc. reflexivity.
    + intros [= <- <-]. rewrite Hdir, <- app_assoc, relative_app. split.
      * apply NoDup_app. split; [exact Hacc|]. split; [|apply NoDup_singleton].
        intros y Hy Hy'. apply list_elem_of_singleton in Hy'. subst y.
        apply Hform in Hy as (x & r & Hx & Heq).
        apply app_inv_head in Heq. injection Heq as Heq _. exact (Hfresh x Hx (eq_sym Heq)).
      * intros y [Hy|Hy]%elem_of_app.
        -- apply Hform in Hy as (x & r & Hx & ->). exists x, r. split; [|reflexivity].
           apply elem_of_app. auto.
        -- apply list_elem_of_singleton in Hy. subst y. exists (Dirent n false), [].
           split; [apply elem_of_app; right; left|reflexivity].
  - exact Hrun.
  - split; [exact Hl|]. intros y Hy. apply Hshape in Hy as (x & r & _ & ->). eauto.
Qed.

End ListingFacts.

(** X6. Whenever [listFiles] returns, no path is listed twice and
    every listed path is a non-empty path relative to the directory;
    so the number of collisions that [main] reports counts distinct
    files. *)
Theorem listFiles_lists_once (fuel : nat) (fs : filesystem) (dir : path) (l : list path) :
  fst (listFiles fuel dir dir fs) = Normal l →
  NoDup l ∧ ∀ y, y ∈ l → y ≠ [].
Proof.
  intros Hrun.
  destruct (listFiles_once fuel dir [] dir fs l (snd (listFiles fuel dir dir fs)))
    as [Hnd Hform]; [rewrite app_nil_r; reflexivity| |].
  { rewrite <- Hrun. apply surjective_pairing. }
  split; [exact Hnd|]. intros y Hy. apply Hform in Hy as (n & r & ->). discriminate.
Qed.

Lemma listFiles_lists_once_witness :
  NoDup [[".gitignore"]; ["README.md"]; ["mcp.json"]; ["package.json"];
         ["prompts"; "greet.md"]; ["resources"; "about.md"]; ["src"; "server.ts"];
         ["tools"; "hello.ts"]; ["tsconfig.json"]]
  ∧ ∀ y, y ∈ [[".gitignore"]; ["README.md"]; ["mcp.json"]; ["package.json"];
              ["prompts"; "greet.md"]; ["resources"; "about.md"]; ["src"; "server.ts"];
              ["tools"; "hello.ts"]; ["tsconfig.json"]] → y ≠ [].
Proof.
  apply (listFiles_lists_once 4 sampleFiles (templatesDir ++ ["basic"])).
  vm_compute. reflexivity.
Defined.

(** X7. The checks that come before the copy only read: [isEmptyDir],
    [listFiles] and the search for colliding files leave the files
    exactly as they were, whether they return, throw, or run out of
    budget. *)
Theorem validation_only_reads (fuel : nat) (fs : filesystem) (dir base templateDir : path) :
  snd (isEmptyDir dir fs) = fs
  ∧ snd (listFiles fuel dir base fs) = fs
  ∧ snd (checkCollisions fuel templateDir dir fs) = fs.
Proof.
  split; [apply isEmptyDir_snd|].
  split; [apply listFiles_snd|apply checkCollisions_snd].
Qed.

(** ** More on copyDir *)

Section CopyOutcomes.
Implicit Types (fs : filesystem) (p q src dest : path).

Lemma wellFormed_intro fs :
  fs !! [] = Some Directory →
  (∀ p n, is_Some (fs !! (p ++ [n])) → fs !! p = Some Directory) →
  wellFormed fs = true.
Proof.
  intros Hroot Hparent. unfold wellFormed. rewrite Hroot. cbn [andb].
  unfold allEntries. apply forallb_forall. intros [q e] Hin.
  apply list_elem_of_In, elem_of_map_to_list in Hin. cbn [fst snd].
  destruct q as [|m q'] eqn:Eq; [reflexivity|]. rewrite <- Eq.
  assert (Hsplit : ∃ p n, q = p ++ [n]).
  { destruct (exists_last (l := q)) as (p & n & Hq); [congruence|]. eauto. }
  destruct Hsplit as (p & n & Hq). rewrite <- Eq in Hin. rewrite Hq in *.
  rewrite dirname_snoc, (Hparent p n); [reflexivity|]. rewrite Hin. eauto.
Qed.

(** What a copy that completes leaves behind, fact by fact. *)
Lemma copyDir_result fuel fs src dest :
  wellFormed fs = true →
  fs !! src = Some Directory →
  apart src dest = true →
  clearWay fs [] dest = true →
  sameKinds fs src dest = true →
  (depthBelow fs src < fuel)%nat →
  ∃ fs', copyDir fuel src dest fs = (Normal tt, fs')
         ∧ (∀ r e, fs !! (src ++ r) = Some e → fs' !! (dest ++ r) = Some e)
         ∧ (∀ r, fs !! (src ++ r) = None → fs' !! (dest ++ r) = fs !! (dest ++ r))
         ∧ (∀ q, isPrefix q dest = true → fs' !! q = Some Directory)
         ∧ (∀ r, fs' !! (src ++ r) = fs !! (src ++ r))
         ∧ (∀ q, isPrefix dest q = false → isPrefix q dest = false → fs' !! q = fs !! q).
Proof.
  intros Hwf Hsrc Hapart Hclear Hkinds Hdepth.
  destruct (copyDir_spec fuel src dest fs) as [fs' [Hcopy Hfs']].
  { apply wellFormed_root. exact Hwf. }
  { apply wellFormed_closedBelow. exact Hwf. }
  { exact Hsrc. }
  { intros r. apply depthBelow_budget. exact Hdepth. }
  { exact Hapart. }
  { intros q c. apply (clearWay_prefix fs dest). exact Hclear. }
  { intros r e e' H1 H2. exact (sameKinds_spec fs src dest r e e' Hkinds H1 H2). }
  exists fs'. split; [exact Hcopy|].
  split; [intros r e He; rewrite Hfs', copied_below_dest, He; reflexivity|].
  split; [intros r He; rewrite Hfs', copied_below_dest, He; reflexivity|].
  split.
  { intros q Hq. rewrite Hfs'. unfold copied.
    destruct (stripDir dest q) as [r|] eqn:E; [|rewrite Hq; reflexivity].
    apply stripDir_Some in E. subst q. destruct r as [|n r].
    - rewrite app_nil_r, Hsrc. reflexivity.
    - rewrite isPrefix_longer in Hq. discriminate. }
  split; [intros r; rewrite Hfs'; apply copied_below_src; exact Hapart|].
  intros q H1 H2. rewrite Hfs'. unfold copied. unfold isPrefix in H1.
  destruct (stripDir dest q); [discriminate|]. rewrite H2. reflexivity.
Qed.

Lemma isPrefix_parent p n dest : isPrefix (p ++ [n]) dest = true → isPrefix p dest = true.
Proof.
  rewrite !isPrefix_true. intros [r ->]. exists (n :: r). rewrite <- app_assoc. reflexivity.
Qed.

(** The tree is well-formed after the copy, and copying again changes
    nothing. *)
Lemma copyDir_again fuel fs src dest :
  wellFormed fs = true →
  fs !! src = Some Directory →
  apart src dest = true →
  clearWay fs [] dest = true →
  sameKinds fs src dest = true →
  (depthBelow fs src < fuel)%nat →
  ∃ fs', copyDir fuel src dest fs = (Normal tt, fs')
         ∧ wellFormed fs' = true
         ∧ copyDir fuel src dest fs' = (Normal tt, fs').
Proof.
  intros Hwf Hsrc Hapart Hclear Hkinds Hdepth.
  destruct (copyDir_result fuel fs src dest Hwf Hsrc Hapart Hclear Hkinds Hdepth)
    as (fs' & Hcopy & F1 & F2 & F3 & F4 & F5).
  assert (Hroot' : fs' !! [] = Some Directory) by (apply F3; reflexivity).
  assert (Hat : ∀ r, fs !! (dest ++ r) = Some Directory ∨ fs !! (src ++ r) = Some Directory →
                     fs' !! (dest ++ r) = Some Directory).
  { intros r Hr. destruct (fs !! (src ++ r)) as [e|] eqn:Es.
    - rewrite (F1 r e Es). destruct Hr as [Hd|Hd]; [|congruence].
      pose proof (sameKinds_spec fs src dest r _ _ Hkinds Es Hd) as Hk.
      destruct e; [discriminate|reflexivity].
    - rewrite (F2 r Es). destruct Hr as [Hd|Hd]; [exact Hd|discriminate]. }
  exists fs'. split; [exact Hcopy|].
  assert (Hwf' : wellFormed fs' = true).
  { apply wellFormed_intro; [exact Hroot'|]. intros p n Hsome.
    destruct (isPrefix dest (p ++ [n])) eqn:Ebelow.
    - apply isPrefix_true in Ebelow as [r Hr].
      destruct r as [|n' r' _] using rev_ind.
      + rewrite app_nil_r in Hr. apply F3. apply isPrefix_true. exists [n]. auto.
      + rewrite app_assoc in Hr. apply app_inj_tail in Hr as [-> ->].
        apply Hat. destruct (fs !! (src ++ r' ++ [n'])) as [e|] eqn:Es.
        * right. apply (wellFormed_parent fs (src ++ r') n' Hwf).
          rewrite <- app_assoc, Es. eauto.
        * left. apply (wellFormed_parent fs (dest ++ r') n' Hwf).
          rewrite <- app_assoc, <- (F2 _ Es), app_assoc. exact Hsome.
    - destruct (isPrefix (p ++ [n]) dest) eqn:Eabove.
      + apply F3. eapply isPrefix_parent. exact Eabove.
      + rewrite (F5 _ Ebelow Eabove) in Hsome.
        pose proof (wellFormed_parent fs p n Hwf Hsome) as Hp.
        destruct (isPrefix p dest) eqn:Ep; [apply F3; exact Ep|].
        rewrite F5; [exact Hp| |exact Ep].
        apply isPrefix_false_2. intros r Hr.
        apply (isPrefix_false_1 _ _ Ebelow (r ++ [n])). rewrite Hr, <- app_assoc. reflexivity. }
  split; [exact Hwf'|].
  destruct (copyDir_spec fuel src dest fs') as [fs'' [Hcopy' Hfs'']].
  { exact Hroot'. }
  { intros r n. rewrite !F4. apply (wellFormed_closedBelow fs src Hwf r n). }
  { rewrite <- (app_nil_r src), F4, app_nil_r. exact Hsrc. }
  { intros r. rewrite F4. apply depthBelow_budget. exact Hdepth. }
  { exact Hapart. }
  { intros q c Hq. rewrite (F3 q Hq). discriminate. }
  { intros r e e'. rewrite F4. intros He. rewrite (F1 r e He). intros [= <-]. reflexivity. }
  rewrite Hcopy'. f_equal. apply map_eq. intros q. rewrite Hfs''. unfold copied.
  destruct (stripDir dest q) as [r|] eqn:E.
  - apply stripDir_Some in E. subst q. rewrite F4.
    destruct (fs !! (src ++ r)) as [e|] eqn:Es; [|reflexivity].
    symmetry. apply F1. exact Es.
  - destruct (isPrefix q dest) eqn:Ep; [|reflexivity]. symmetry. apply F3. exact Ep.
Qed.

End CopyOutcomes.

(** X8. [copyDir] overwrites and keeps: under the conditions of a copy
    that completes, every entry of the source is afterwards at the
    same relative path of the destination with the same contents,
    whatever was there before; what the destination held at other
    paths is kept; the directories on the way to the destination
    exist; the source and everything outside the destination are as
    they were. *)
Theorem copyDir_overwrites (fuel : nat) (fs : filesystem) (src dest : path) :
  wellFormed fs = true →
  fs !! src = Some Directory →
  apart src dest = true →
  clearWay fs [] dest = true →
  sameKinds fs src dest = true →
  (depthBelow fs src < fuel)%nat →
  ∃ fs', copyDir fuel src dest fs = (Normal tt, fs')
         ∧ (∀ r e, fs !! (src ++ r) = Some e → fs' !! (dest ++ r) = Some e)
         ∧ (∀ r, fs !! (src ++ r) = None → fs' !! (dest ++ r) = fs !! (dest ++ r))
         ∧ (∀ q, isPrefix q dest = true → fs' !! q = Some Directory)
         ∧ (∀ r, fs' !! (src ++ r) = fs !! (src ++ r))
         ∧ (∀ q, isPrefix dest q = false → isPrefix q dest = false → fs' !! q = fs !! q).
Proof. apply copyDir_result. Qed.

Lemma copyDir_overwrites_witness :
  ∃ fs', copyDir 4 (templatesDir ++ ["basic"]) ["work"; "my-agent"] occupiedFiles
         = (Normal tt, fs')
         ∧ (∀ r e, occupiedFiles !! ((templatesDir ++ ["basic"]) ++ r) = Some e →
                   fs' !! (["work"; "my-agent"] ++ r) = Some e)
         ∧ (∀ r, occupiedFiles !! ((templatesDir ++ ["basic"]) ++ r) = None →
                 fs' !! (["work"; "my-agent"] ++ r) = occupiedFiles !! (["work"; "my-agent"] ++ r))
         ∧ (∀ q, isPrefix q ["work"; "my-agent"] = true → fs' !! q = Some Directory)
         ∧ (∀ r, fs' !! ((templatesDir ++ ["basic"]) ++ r)
                 = occupiedFiles !! ((templatesDir ++ ["basic"]) ++ r))
         ∧ (∀ q, isPrefix ["work"; "my-agent"] q = false →
                 isPrefix q ["work"; "my-agent"] = false → fs' !! q = occupiedFiles !! q).
Proof.
  apply (copyDir_overwrites 4 occupiedFiles (templatesDir ++ ["basic"]) ["work"; "my-agent"]).
  - vm_compute. reflexivity.
  - vm_compute. reflexivity.
  - vm_compute. reflexivity.
  - vm_compute. reflexivity.
  - vm_compute. reflexivity.
  - vm_compute. lia.
Defined.

(** X9. Copying is idempotent: under the conditions of a copy that
    completes, the tree is still well-formed afterwards, and a second
    copy of the same source to the same destination completes and
    leaves every file as the first copy left it. *)
Theorem copyDir_idempotent (fuel : nat) (fs : filesystem) (src dest : path) :
  wellFormed fs = true →
  fs !! src = Some Directory →
  apart src dest = true →
  clearWay fs [] dest = true →
  sameKinds fs src dest = true →
  (depthBelow fs src < fuel)%nat →
  ∃ fs', copyDir fuel src dest fs = (Normal tt, fs')
         ∧ wellFormed fs' = true
         ∧ copyDir fuel src dest fs' = (Normal tt, fs').
Proof. apply copyDir_again. Qed.

Lemma copyDir_idempotent_witness :
  ∃ fs', copyDir 4 (templatesDir ++ ["tools-only"]) ["work"; "site"] notedFiles
         = (Normal tt, fs')
         ∧ wellFormed fs' = true
         ∧ copyDir 4 (templatesDir ++ ["tools-only"]) ["work"; "site"] fs' = (Normal tt, fs').
Proof.
  apply (copyDir_idempotent 4 notedFiles (templatesDir ++ ["tools-only"]) ["work"; "site"]).
  - vm_compute. reflexivity.
  - vm_compute. reflexivity.
  - vm_compute. reflexivity.
  - vm_compute. reflexivity.
  - vm_compute. reflexivity.
  - vm_compute. lia.
Defined.

Section KeptFacts.
Implicit Types (fs : filesystem) (p q src dest : path).

Lemma kept_refl fs : kept fs fs.
Proof. intros q k H. exact H. Qed.

Lemma kept_trans fs1 fs2 fs3 : kept fs1 fs2 → kept fs2 fs3 → kept fs1 fs3.
Proof. intros H12 H23 q k H. apply H23, H12, H. Qed.

Lemma kept_insert fs p e :
  (∀ e0, fs !! p = Some e0 → entryIsDirectory e0 = entryIsDirectory e) →
  kept fs (<[p := e]> fs).
Proof.
  intros Hsame q k. unfold kindAt. destruct (decide (p = q)) as [<-|Hne].
  - rewrite lookup_insert_eq. destruct (fs !! p) as [e0|]; [|discriminate].
    cbn. rewrite (Hsame e0 eq_refl). auto.
  - rewrite lookup_insert_ne by exact Hne. auto.
Qed.

Lemma fsMkdirs_kept todo : ∀ done fs fs',
  fsMkdirs done todo fs = Normal fs' → kept fs fs'.
Proof.
  induction todo as [|n rest IH]; intros done fs fs'; cbn [fsMkdirs].
  - intros [= <-]. apply kept_refl.
  - destruct (fs !! (done ++ [n])) as [[c|]|] eqn:E; [discriminate| |].
    + apply IH.
    + intros Hrun. eapply kept_trans; [|apply (IH _ _ _ Hrun)].
      apply kept_insert. intros e0. congruence.
Qed.

Lemma writes_kept (f : filesystem → completion filesystem) fs :
  (∀ fs', f fs = Normal fs' → kept fs fs') → kept fs (snd (writes f fs)).
Proof.
  intros Hf. unfold writes. destruct (f fs) as [fs'| | |]; cbn [snd];
    [apply Hf; reflexivity|apply kept_refl..].
Qed.

Lemma fsWriteFile_kept p c fs fs' : fsWriteFile p c fs = Normal fs' → kept fs fs'.
Proof.
  unfold fsWriteFile. destruct (fs !! p) as [[c0|]|] eqn:E; try discriminate;
    destruct (fs !! dirname p) as [[c1|]|]; try discriminate; intros [= <-];
    apply kept_insert; intros e0; rewrite E; intros [= <-]; reflexivity.
Qed.

Lemma bind_kept {A B : Type} (c : prog filesystem A) (k : A → prog filesystem B) fs :
  kept fs (snd (c fs)) → (∀ a s, kept s (snd (k a s))) → kept fs (snd (bind c k fs)).
Proof.
  intros Hc Hk. unfold bind. destruct (c fs) as [[a|err|code|] s1]; cbn [snd] in *;
    [|exact Hc..].
  eapply kept_trans; [exact Hc|apply Hk].
Qed.

Lemma forEach_kept {A : Type} (body : A → prog filesystem unit) (xs : list A) :
  (∀ x s, kept s (snd (body x s))) → ∀ s, kept s (snd (forEach xs body s)).
Proof.
  intros Hbody. induction xs as [|x xs IH]; intros s; [apply kept_refl|].
  cbn [forEach]. apply bind_kept; [apply Hbody|]. intros _ s'. apply IH.
Qed.

Lemma copyDir_kept fuel : ∀ src dest fs, kept fs (snd (copyDir fuel src dest fs)).
Proof.
  induction fuel as [|fuel IH]; intros src dest fs; [apply kept_refl|].
  cbn [copyDir]. apply bind_kept.
  { apply writes_kept. apply fsMkdirs_kept. }
  intros _ s. apply bind_kept; [apply kept_refl|].
  intros entries s'. apply forEach_kept. intros [n b] s''. cbn [name isDirectory].
  destruct b; [apply IH|].
  apply writes_kept. intros fs'. unfold fsCopyFile.
  destruct (s'' !! (src ++ [n])) as [[c|]|]; try discriminate.
  apply fsWriteFile_kept.
Qed.

(** After a [mkdir -p] that returns, every directory on the way is
    there. *)
Lemma fsMkdirs_made todo : ∀ done fs fs',
  fsMkdirs done todo fs = Normal fs' →
  ∀ t u, t ≠ [] → todo = t ++ u → fs' !! (done ++ t) = Some Directory.
Proof.
  induction todo as [|n rest IH]; intros done fs fs' Hrun t u Ht Hu.
  { destruct t; [congruence|discriminate]. }
  destruct t as [|m t']; [congruence|]. injection Hu as -> Hu.
  cbn [fsMkdirs] in Hrun.
  set (p := done ++ [m]) in *.
  assert (Hstep : ∃ fs1, fsMkdirs p rest fs1 = Normal fs' ∧ fs1 !! p = Some Directory).
  { destruct (fs !! p) as [[c|]|] eqn:E; [discriminate| |].
    - exists fs. auto.
    - exists (<[p := Directory]> fs). split; [exact Hrun|apply lookup_insert_eq]. }
  destruct Hstep as (fs1 & Hrun1 & Hp).
  replace (done ++ m :: t') with (p ++ t') by (subst p; rewrite <- app_assoc; reflexivity).
  destruct t' as [|m' t''].
  - rewrite app_nil_r. apply kindAt_directory.
    apply (fsMkdirs_kept _ _ _ _ Hrun1). apply kindAt_directory. exact Hp.
  - apply (IH p fs1 fs' Hrun1 (m' :: t'') u); [discriminate|exact Hu].
Qed.

(** A file on the way makes [mkdir -p] throw, and which error it
    throws tells whether the file is the last component. *)
Lemma fsMkdirs_blocked todo : ∀ done fs t u c,
  wellFormed fs = true →
  t ≠ [] → todo = t ++ u →
  fs !! (done ++ t) = Some (File c) →
  fsMkdirs done todo fs =
  Throw (SystemError (match u with [] => "EEXIST" | _ => "ENOTDIR" end)).
Proof.
  induction todo as [|n rest IH]; intros done fs t u c Hwf Ht Hu Hfile.
  { destruct t; [congruence|discriminate]. }
  destruct t as [|m t']; [congruence|]. injection Hu as -> Hu.
  cbn [fsMkdirs]. destruct t' as [|m' t''].
  - cbn [app] in Hu. subst rest. rewrite Hfile. reflexivity.
  - assert (Hp : fs !! (done ++ [m]) = Some Directory).
    { apply (wellFormed_above fs (done ++ [m]) (m' :: t'') Hwf); [discriminate|].
      rewrite <- app_assoc. cbn [app]. rewrite Hfile. eauto. }
    rewrite Hp. apply (IH (done ++ [m]) fs (m' :: t'') u c Hwf); [discriminate|exact Hu|].
    rewrite <- app_assoc. exact Hfile.
Qed.

Lemma forEach_stuck {A : Type} (body : A → prog filesystem unit) (xs : list A) x :
  x ∈ xs → (∀ s, fst (body x s) ≠ Normal tt) → ∀ s, fst (forEach xs body s) ≠ Normal tt.
Proof.
  intros Hin Hstuck. induction xs as [|y xs IH]; intros s; [inversion Hin|].
  cbn [forEach]. unfold bind. destruct (body y s) as [[[]|err|code|] s1] eqn:Eb;
    cbn [fst]; try discriminate.
  apply elem_of_cons in Hin as [->|Hin].
  - exfalso. apply (Hstuck s). rewrite Eb. reflexivity.
  - apply IH. exact Hin.
Qed.

Lemma copyDir_inside fuel : ∀ src r fs,
  r ≠ [] → fst (copyDir fuel src (src ++ r) fs) ≠ Normal tt.
Proof.
  induction fuel as [|fuel IH]; intros src r fs Hr; [discriminate|].
  destruct r as [|n r']; [congruence|].
  cbn [copyDir]. unfold bind at 1. unfold mkdirSync, writes.
  destruct (fsMkdirs [] (src ++ n :: r') fs) as [fs1|err|code|] eqn:Emk;
    cbn [fst]; try discriminate.
  unfold bind at 1. unfold readdirSync, reads, fsReaddir.
  destruct (fs1 !! src) as [[c|]|] eqn:Esrc; cbn [fst]; try discriminate.
  apply (forEach_stuck _ _ (Dirent n true)).
  - apply readdir_elem. exists Directory. split; [|reflexivity]. cbn [name].
    apply (fsMkdirs_made _ _ _ _ Emk (src ++ [n]) r').
    + destruct src; discriminate.
    + rewrite <- app_assoc. reflexivity.
  - intros s. cbn [name isDirectory].
    replace ((src ++ n :: r') ++ [n]) with ((src ++ [n]) ++ (r' ++ [n]))
      by (rewrite <- !app_assoc; reflexivity).
    apply IH. destruct r'; discriminate.
Qed.

End KeptFacts.

(** X10. [copyDir] never removes anything: whatever its outcome, also
    when it fails half-way, every entry that existed before the call
    still exists afterwards and is of the same kind, a file or a
    directory, as before. *)
Theorem copyDir_never_removes (fuel : nat) (fs : filesystem) (src dest q : path) (k : bool) :
  kindAt fs q = Some k →
  kindAt (snd (copyDir fuel src dest fs)) q = Some k.
Proof. apply copyDir_kept. Qed.

Lemma copyDir_never_removes_witness :
  kindAt (snd (copyDir 1 (templatesDir ++ ["basic"]) ["work"; "site"] notedFiles))
         ["work"; "site"; "notes.txt"] = Some false.
Proof.
  apply (copyDir_never_removes 1 notedFiles (templatesDir ++ ["basic"]) ["work"; "site"]).
  vm_compute. reflexivity.
Defined.

(** X11. A destination inside the source: copying a directory to a path
    below itself never completes.  Each level finds the directory that
    the level above has just made and descends into it, so for every
    budget the call ends by throwing or with the budget used up. *)
Theorem copyDir_into_itself (fuel : nat) (fs : filesystem) (src r : path) :
  r ≠ [] → fst (copyDir fuel src (src ++ r) fs) ≠ Normal tt.
Proof. apply copyDir_inside. Qed.

Lemma copyDir_into_itself_witness :
  fst (copyDir 40 (templatesDir ++ ["basic"]) ((templatesDir ++ ["basic"]) ++ ["out"])
         sampleFiles) ≠ Normal tt.
Proof.
  apply (copyDir_into_itself 40 sampleFiles (templatesDir ++ ["basic"]) ["out"]).
  discriminate.
Defined.

Section MissingPaths.
Implicit Types (fs : filesystem) (p q src dest : path).

Lemma clearWay_intro fs todo : ∀ done,
  (∀ t c, isPrefix t todo = true → fs !! (done ++ t) ≠ Some (File c)) →
  clearWay fs done todo = true.
Proof.
  induction todo as [|n rest IH]; intros done Hno.
  - cbn [clearWay]. specialize (Hno [] ). rewrite app_nil_r in Hno.
    destruct (fs !! done) as [[c|]|]; try reflexivity.
    destruct (Hno c eq_refl eq_refl).
  - cbn [clearWay].
    pose proof (Hno []) as H0. rewrite app_nil_r in H0.
    destruct (fs !! done) as [[c|]|] eqn:Ed.
    + destruct (H0 c eq_refl eq_refl).
    + apply IH. intros t c Ht. rewrite <- app_assoc. apply Hno.
      apply isPrefix_true in Ht as [r ->]. apply isPrefix_true. exists r. reflexivity.
    + apply IH. intros t c Ht. rewrite <- app_assoc. apply Hno.
      apply isPrefix_true in Ht as [r ->]. apply isPrefix_true. exists r. reflexivity.
Qed.

(** Two trees with regular files at the same prefixes of a path have
    the same clear ways to it. *)
Lemma clearWay_same fs fs' p :
  (∀ q, isPrefix q p = true → (∃ c, fs' !! q = Some (File c)) ↔ (∃ c, fs !! q = Some (File c))) →
  clearWay fs' [] p = clearWay fs [] p.
Proof.
  intros Hsame.
  destruct (clearWay fs [] p) eqn:E.
  - apply clearWay_intro. intros t c Ht Hfile. cbn [app] in Hfile.
    destruct (proj1 (Hsame t Ht) (ex_intro _ c Hfile)) as [c' Hc'].
    exact (clearWay_prefix fs p t c' E Ht Hc').
  - destruct (clearWay fs' [] p) eqn:E'; [|reflexivity].
    rewrite <- E. symmetry. apply clearWay_intro. intros t c Ht Hfile. cbn [app] in Hfile.
    destruct (proj2 (Hsame t Ht) (ex_intro _ c Hfile)) as [c' Hc'].
    exact (clearWay_prefix fs' p t c' E' Ht Hc').
Qed.

(** In a tree whose regular files sit below directories only, the
    walk to a path that is not a regular file ends in ENOTDIR exactly
    when a regular file stands on the way. *)
Lemma missingCode_clearWay fs :
  (∀ x r c, r ≠ [] → fs !! (x ++ r) = Some (File c) → fs !! x = Some Directory) →
  ∀ todo done,
    (∀ c, fs !! (done ++ todo) ≠ Some (File c)) →
    missingCode fs done todo = if clearWay fs done todo then "ENOENT" else "ENOTDIR".
Proof.
  intros Hbelow. induction todo as [|n rest IH]; intros done Hend.
  - rewrite app_nil_r in Hend. cbn [missingCode clearWay].
    destruct (fs !! done) as [[c|]|] eqn:Ed; try reflexivity.
    destruct (Hend c eq_refl).
  - cbn [missingCode clearWay]. destruct (fs !! done) as [[c|]|] eqn:Ed.
    + reflexivity.
    + apply IH. intros c. rewrite <- app_assoc. apply Hend.
    + rewrite clearWay_intro; [reflexivity|].
      intros t c _ Hfile. rewrite <- app_assoc in Hfile.
      rewrite (Hbelow done ([n] ++ t) c) in Ed; [discriminate|discriminate|exact Hfile].
Qed.

End MissingPaths.

(** X12. A source that is not a directory: in a well-formed tree, when
    the way to the destination is clear and the source, which is not on
    that way, is missing or is a regular file, [copyDir] throws —
    ENOTDIR when the source is a regular file or lies below one,
    ENOENT when it is missing below directories — but only after it
    has made the destination directory and the missing directories
    above it, which stay. *)
Theorem copyDir_source_not_directory (fuel : nat) (fs : filesystem) (src dest : path) :
  wellFormed fs = true →
  clearWay fs [] dest = true →
  isPrefix src dest = false →
  fs !! src ≠ Some Directory →
  ∃ fs', copyDir (S fuel) src dest fs = (Throw (SystemError (readdirCode fs src)), fs')
         ∧ ∀ q, fs' !! q = if isPrefix q dest then Some Directory else fs !! q.
Proof.
  intros Hwf Hclear Hsrc Hnodir.
  destruct (mkdirSync_spec fs dest (wellFormed_root fs Hwf)) as (fs1 & Hmk & Hfs1).
  { intros q c. apply (clearWay_prefix fs dest). exact Hclear. }
  exists fs1. split; [|exact Hfs1].
  cbn [copyDir]. rewrite (bind_Normal _ _ _ _ _ Hmk).
  unfold bind, readdirSync, reads, fsReaddir, readdirCode. rewrite Hfs1, Hsrc.
  destruct (fs !! src) as [[c|]|] eqn:Es; [|congruence|].
  - destruct (clearWay fs [] src) eqn:E; [|reflexivity].
    destruct (clearWay_prefix fs src src c E (isPrefix_refl src) Es).
  - rewrite (missingCode_clearWay fs1).
    + rewrite (clearWay_same fs fs1 src); [reflexivity|].
      intros q _. rewrite Hfs1. destruct (isPrefix q dest) eqn:Eq; [|reflexivity].
      split; intros [c Hc]; [discriminate|].
      destruct (clearWay_prefix fs dest q c Hclear Eq Hc).
    + intros x r c Hr. rewrite !Hfs1.
      destruct (isPrefix (x ++ r) dest) eqn:Exr; [discriminate|]. intros Hfile.
      rewrite (wellFormed_above fs x r Hwf Hr) by (rewrite Hfile; eauto).
      destruct (isPrefix x dest); reflexivity.
    + intros c. cbn [app]. rewrite Hfs1, Hsrc, Es. discriminate.
Qed.

Lemma copyDir_source_not_directory_witness :
  ∃ fs', copyDir 4 ["work"; "site"; "notes.txt"; "drafts"] ["work"; "a"; "b"] notedFiles
         = (Throw (SystemError "ENOTDIR"), fs')
         ∧ ∀ q, fs' !! q = if isPrefix q ["work"; "a"; "b"] then Some Directory
                            else notedFiles !! q.
Proof.
  replace "ENOTDIR" with (readdirCode notedFiles ["work"; "site"; "notes.txt"; "drafts"])
    by (vm_compute; reflexivity).
  apply (copyDir_source_not_directory 3 notedFiles ["work"; "site"; "notes.txt"; "drafts"]
           ["work"; "a"; "b"]).
  - vm_compute. reflexivity.
  - vm_compute. reflexivity.
  - vm_compute. reflexivity.
  - vm_compute. discriminate.
Defined.

(** The codes of the three kinds of source that are not a directory. *)
Example readdirCode_examples :
  readdirCode notedFiles ["work"; "site"; "notes.txt"; "drafts"] = "ENOTDIR"
  ∧ readdirCode notedFiles ["work"; "site"; "notes.txt"] = "ENOTDIR"
  ∧ readdirCode notedFiles ["work"; "site"; "drafts"] = "ENOENT"
  ∧ fst (copyDir 4 ["work"; "site"; "notes.txt"; "drafts"] ["work"; "a"; "b"] notedFiles)
    = Throw (SystemError "ENOTDIR")
  ∧ fst (copyDir 4 ["work"; "site"; "drafts"] ["work"; "a"; "b"] notedFiles)
    = Throw (SystemError "ENOENT")
  ∧ fst (copyDir 4 ["work"; "nowhere"; "drafts"] ["work"; "a"; "b"] notedFiles)
    = Throw (SystemError "ENOENT").
Proof. repeat split; vm_compute; reflexivity. Qed.

(** X13. A file in the way: in a well-formed tree, when a regular file
    stands at the destination or at a path above it, [copyDir] throws
    before it writes anything, EEXIST when the file is the destination
    itself and ENOTDIR when it is above it. *)
Theorem copyDir_blocked (fuel : nat) (fs : filesystem) (src dest q : path) (c : contents) :
  wellFormed fs = true →
  isPrefix q dest = true →
  fs !! q = Some (File c) →
  copyDir (S fuel) src dest fs = (Throw (SystemError (blockedCode q dest)), fs).
Proof.
  intros Hwf Hq Hfile. apply isPrefix_true in Hq as [u ->].
  assert (Hne : q ≠ []).
  { intros ->. rewrite (wellFormed_root fs Hwf) in Hfile. discriminate. }
  cbn [copyDir]. unfold bind, mkdirSync, writes.
  rewrite (fsMkdirs_blocked (q ++ u) [] fs q u c Hwf Hne eq_refl Hfile).
  unfold blockedCode. destruct u as [|m u'].
  - rewrite app_nil_r, decide_True by reflexivity. reflexivity.
  - rewrite decide_False; [reflexivity|].
    intros E. rewrite <- (app_nil_r q) in E at 1. apply app_inv_head in E. discriminate.
Qed.

Lemma copyDir_blocked_witness :
  copyDir 4 (templatesDir ++ ["basic"]) ["work"; "site"; "notes.txt"; "app"] notedFiles
  = (Throw (SystemError "ENOTDIR"), notedFiles).
Proof.
  apply (copyDir_blocked 3 notedFiles (templatesDir ++ ["basic"])
           ["work"; "site"; "notes.txt"; "app"] ["work"; "site"; "notes.txt"] (Text "todo")).
  - vm_compute. reflexivity.
  - vm_compute. reflexivity.
  - vm_compute. reflexivity.
Defined.

(** ** More on slugify *)

Section SlugLengths.

Lemma replaceOutsideClass_length s :
  String.length (replaceOutsideClass s) = String.length s.
Proof. induction s as [|c s IH]; simpl; congruence. Qed.

Lemma replaceDashRuns_length s :
  (String.length (replaceDashRuns s) ≤ String.length s)%nat.
Proof.
  induction s as [|c s IH]; [simpl; lia|].
  cbn [replaceDashRuns]. destruct (isDash c); [|simpl; lia].
  destruct s as [|d s']; [simpl; lia|].
  destruct (isDash d); simpl in *; lia.
Qed.

Lemma dropLeadingDashes_length s :
  (String.length (dropLeadingDashes s) ≤ String.length s)%nat.
Proof.
  induction s as [|c s IH]; [simpl; lia|].
  cbn [dropLeadingDashes]. destruct (isDash c); simpl in *; lia.
Qed.

Lemma dropTrailingDashes_length s :
  (String.length (dropTrailingDashes s) ≤ String.length s)%nat.
Proof.
  induction s as [|c s IH]; [simpl; lia|].
  cbn [dropTrailingDashes]. destruct (allDashes (String c s)); simpl in *; lia.
Qed.

End SlugLengths.

(** X14. The strings that [slugify] leaves as they are are exactly the
    slugs: a name made of [[a-z0-9-_]] with no two dashes in a row and
    no dash at either end is its own slug, and nothing else is.  The
    steps after the lower-casing never add a code unit: a slug is
    never longer than the lower-cased name. *)
Theorem slugify_keeps_slugs (s : string) :
  (slugify s = s ↔ isSlug s = true)
  ∧ (String.length (slugify s) ≤ String.length (toLowerCase s))%nat.
Proof.
  split.
  - unfold isSlug. rewrite !andb_true_iff, !negb_true_iff. split.
    + intros <-. destruct (slugify_shape s) as (H1 & H2 & H3 & H4). auto.
    + intros [[[H1 H2] H3] H4]. apply slugify_fixed; assumption.
  - unfold slugify.
    pose proof (dropTrailingDashes_length
                  (dropLeadingDashes (replaceDashRuns (replaceOutsideClass (toLowerCase s))))).
    pose proof (dropLeadingDashes_length
                  (replaceDashRuns (replaceOutsideClass (toLowerCase s)))).
    pose proof (replaceDashRuns_length (replaceOutsideClass (toLowerCase s))).
    pose proof (replaceOutsideClass_length (toLowerCase s)). lia.
Qed.

(** ** The installed version *)

Section TrimFacts.

Lemma allTrimmed_trimEnd s : allTrimmed s = false → allTrimmed (trimEnd s) = false.
Proof.
  induction s as [|c s IH]; [discriminate|].
  intros H. cbn [trimEnd]. rewrite H. cbn [allTrimmed] in *.
  destruct (isTrimmed c); [|reflexivity]. cbn [andb] in *. apply IH. exact H.
Qed.

Lemma trimEnd_idempotent s : trimEnd (trimEnd s) = trimEnd s.
Proof.
  induction s as [|c s IH]; [reflexivity|].
  cbn [trimEnd]. destruct (allTrimmed (String c s)) eqn:E; [reflexivity|].
  cbn [trimEnd]. rewrite IH.
  assert (E' : allTrimmed (String c (trimEnd s)) = false).
  { cbn [allTrimmed] in *. destruct (isTrimmed c); [|reflexivity].
    cbn [andb] in *. apply allTrimmed_trimEnd. exact E. }
  rewrite E'. reflexivity.
Qed.

Lemma trimStart_head s :
  match trimStart s with String c _ => isTrimmed c = false | EmptyString => True end.
Proof.
  induction s as [|c s IH]; [exact I|].
  cbn [trimStart]. destruct (isTrimmed c) eqn:E; [exact IH|exact E].
Qed.

Lemma trimStart_trimEnd s :
  match s with String c _ => isTrimmed c = false | EmptyString => True end →
  trimStart (trimEnd s) = trimEnd s.
Proof.
  destruct s as [|c s]; [reflexivity|]. intros Hc.
  cbn [trimEnd allTrimmed]. rewrite Hc. cbn [andb trimStart]. rewrite Hc. reflexivity.
Qed.

Lemma trim_idempotent s : trim (trim s) = trim s.
Proof.
  unfold trim. rewrite trimStart_trimEnd by apply trimStart_head.
  apply trimEnd_idempotent.
Qed.

End TrimFacts.

(** X15. The version that [getDzxVersion] hands to the patch of
    package.json is never empty and never has white space at either
    end: it is ["*"], or the [version] string of the installed
    manifest with its surrounding white space removed.  The lookup
    never throws and never writes. *)
Theorem getDzxVersion_clean (e : env) (fs : filesystem) :
  ∃ v, getDzxVersion e fs = (Normal v, fs)
       ∧ nonEmpty v = true ∧ trim v = v
       ∧ (v = "*" ∨ ∃ p props indent nl s,
            dzxPackageJson e = Some p
            ∧ fs !! p = Some (File (JsonText (JObj props) indent nl))
            ∧ lookupProp "version" props = Some (JStr s) ∧ v = trim s).
Proof.
  exists (default "*" (installedVersion e fs)).
  split; [apply getDzxVersion_installed|].
  unfold installedVersion.
  destruct (dzxPackageJson e) as [p|]; [|cbn; auto].
  destruct (fs !! p) as [[[t|[| | | | |props] indent nl]|]|] eqn:Efile; try (cbn; auto; fail).
  destruct (lookupProp "version" props) as [[| | |s| |]|] eqn:Ev; try (cbn; auto; fail).
  destruct (nonEmpty (trim s)) eqn:En; [|cbn; auto].
  cbn [default]. cbv [id]. split; [exact En|]. split; [apply trim_idempotent|].
  right. exists p, props, indent, nl, s. auto.
Qed.

(** ** What a run shows and when it writes *)

Section TraceFacts.
Variable P : event → bool.

Lemma emits_ret {A} (a : A) : emits P (ret a).
Proof. intros w. exists []. rewrite app_nil_r. auto. Qed.

Lemma emits_throw {A} err : emits P (@throw world A err).
Proof. intros w. exists []. rewrite app_nil_r. auto. Qed.

Lemma emits_exit {A} code : emits P (@exit world A code).
Proof. intros w. exists []. rewrite app_nil_r. auto. Qed.

Lemma emits_pure {A} (r : completion A) : emits P (pure r).
Proof. intros w. exists []. rewrite app_nil_r. auto. Qed.

Lemma emits_onFiles {A} (c : prog filesystem A) : emits P (onFiles c).
Proof.
  intros w. exists []. rewrite app_nil_r. unfold onFiles.
  destruct (c (files w)). auto.
Qed.

Lemma emits_log ev : P ev = true → emits P (log ev).
Proof. intros HP w. exists [ev]. cbn. rewrite HP. auto. Qed.

Lemma emits_step message : (∀ label, P (StepLine label) = true) → emits P (step message).
Proof.
  intros HP w. unfold step. cbn [snd trace].
  destruct (nonEmpty (lastStep w)).
  - exists [StepLine (lastStep w)]. cbn. rewrite HP. auto.
  - exists []. rewrite app_nil_r. auto.
Qed.

Lemma emits_flushStep : (∀ label, P (StepLine label) = true) → emits P flushStep.
Proof.
  intros HP w. unfold flushStep. cbn [snd trace].
  destruct (nonEmpty (lastStep w)).
  - exists [StepLine (lastStep w)]. cbn. rewrite HP. auto.
  - exists []. rewrite app_nil_r. auto.
Qed.

Lemma emits_bind {A B} (c : prog world A) (k : A → prog world B) :
  emits P c → (∀ a, emits P (k a)) → emits P (bind c k).
Proof.
  intros Hc Hk w. destruct (Hc w) as [evs [Ht HP]]. unfold bind.
  destruct (c w) as [[a|err|code|] w1]; cbn [snd] in *; eauto.
  destruct (Hk a w1) as [evs' [Ht' HP']]. exists (evs ++ evs').
  rewrite Ht', Ht, <- app_assoc, forallb_app, HP, HP'. auto.
Qed.

Lemma emits_tryCatch {A} (c h : prog world A) :
  emits P c → emits P h → emits P (tryCatch c h).
Proof.
  intros Hc Hh w. destruct (Hc w) as [evs [Ht HP]]. unfold tryCatch.
  destruct (c w) as [[a|err|code|] w1]; cbn [snd] in *; eauto.
  destruct (Hh w1) as [evs' [Ht' HP']]. exists (evs ++ evs').
  rewrite Ht', Ht, <- app_assoc, forallb_app, HP, HP'. auto.
Qed.

Lemma emits_runCommand (e : env) command dir :
  P (Spawn command dir) = true → emits P (runCommand e command dir).
Proof.
  intros HP w. exists [Spawn command dir]. unfold runCommand, bind, log.
  cbn [files trace lastStep].
  destruct (exitCode (child e command dir (files w))) as [[|n]|]; cbn; rewrite HP; auto.
Qed.

Lemma emits_ask question answer :
  P question = true → (answer = None → P Cancelled = true) →
  emits P (ask question answer).
Proof.
  intros Hq Hc. unfold ask. apply emits_bind; [apply emits_log; exact Hq|]. intros _.
  destruct answer; [apply emits_ret|].
  apply emits_bind; [apply emits_log; auto|]. intros _. apply emits_exit.
Qed.

End TraceFacts.

Ltac emits_tac :=
  repeat first
    [ apply emits_ret | apply emits_throw | apply emits_exit | apply emits_pure
    | apply emits_onFiles | apply emits_log | apply emits_step | apply emits_flushStep
    | apply emits_runCommand | apply emits_tryCatch
    | apply emits_bind; [|intros ?]
    | progress unfold installDependencies
    | match goal with |- emits _ (if ?b then _ else _) => destruct b eqn:? end
    | match goal with |- emits _ (match ?x with _ => _ end) => destruct x eqn:? end ].

Section RunFacts.
Variable e : env.

Lemma scaffold_emits (P : event → bool) fuel (o : options) :
  P Banner = true →
  (∀ label, P (StepLine label) = true) →
  (∀ d t r i, P (Ready d t r i) = true) →
  (∀ hint, P (Next hint) = true) →
  (force o && negb (isYes o) = true → P AskOverwrite = true ∧ P Cancelled = true) →
  (shouldInstall o = true → ∀ c d, P (Spawn c d) = true) →
  emits P (scaffold e fuel o).
Proof.
  intros HB HS HR HN HA HC. unfold scaffold.
  destruct (force o && negb (isYes o)) eqn:Eask;
    destruct (shouldInstall o) eqn:Einst;
    emits_tac; auto; try (apply HA; reflexivity); try (apply HC; reflexivity).
Qed.

Lemma resolveOptions_emits (P : event → bool) (args : parsedArgs) :
  P Intro = true →
  (truthy (args !! "yes") = false →
   (∀ v, P (AskDirectory v) = true) ∧ P AskTemplate = true ∧ P AskRuntime = true
   ∧ P Cancelled = true) →
  emits P (resolveOptions e args).
Proof.
  intros HI HA. unfold resolveOptions, ask.
  destruct (truthy (args !! "yes")) eqn:Eyes; cbn [negb].
  - emits_tac; auto.
  - destruct (HA eq_refl) as (H1 & H2 & H3 & H4). emits_tac; auto.
Qed.

Lemma main_emits (P : event → bool) argv fuel :
  P Usage = true → P Intro = true → P Banner = true →
  (∀ label, P (StepLine label) = true) →
  (∀ d t r i, P (Ready d t r i) = true) →
  (∀ hint, P (Next hint) = true) →
  (inspect argv (λ a, truthy (a !! "yes")) ≠ Some true →
   (∀ v, P (AskDirectory v) = true) ∧ P AskTemplate = true ∧ P AskRuntime = true
   ∧ P AskOverwrite = true ∧ P Cancelled = true) →
  (inspect argv shouldInstallOf ≠ Some false → ∀ c d, P (Spawn c d) = true) →
  emits P (main e argv fuel).
Proof.
  intros HU HI HB HS HR HN HA HC w. unfold inspect in HA, HC.
  destruct (parseArgs argv) as [args|err|code|] eqn:Eparse.
  2-4: (exists []; unfold main, pure, bind; rewrite Eparse, app_nil_r; auto).
  rewrite (main_parsed e _ _ _ _ Eparse).
  destruct (helpRequested args); [apply emits_log; exact HU|].
  assert (Hres : emits P (resolveOptions e args)).
  { apply resolveOptions_emits; [exact HI|]. intros Hyes.
    destruct HA as (H1 & H2 & H3 & H4 & H5); [congruence|auto]. }
  destruct (Hres w) as [evs [Ht HP]]. unfold bind.
  destruct (resolveOptions e args w) as [[o|err|code|] w1] eqn:Er; cbn [snd] in *; eauto.
  destruct (resolveOptions_reading e args _ _ _ Er) as [_ Ho].
  destruct (Ho o eq_refl) as (_ & Hyes & Hinst & _).
  assert (Hsc : emits P (scaffold e fuel o)).
  { apply scaffold_emits; auto.
    - intros Hask. apply andb_true_iff in Hask as [_ Hask]. apply negb_true_iff in Hask.
      destruct HA as (H1 & H2 & H3 & H4 & H5); [congruence|auto].
    - intros Hi. apply HC. congruence. }
  destruct (Hsc w1) as [evs' [Ht' HP']]. exists (evs ++ evs').
  rewrite Ht', Ht, <- app_assoc, forallb_app, HP, HP'. auto.
Qed.

End RunFacts.

(** X16. With [--yes] nothing is asked: whatever the other arguments,
    the files and the environment, a run whose arguments set [yes]
    shows no prompt and no notice of cancellation, also when it
    fails. *)
Theorem yes_never_asks (e : env) (argv : list string) (fuel : nat) (fs : filesystem) :
  inspect argv (λ args, truthy (args !! "yes")) = Some true →
  forallb (λ ev, negb (isPrompt ev)) (trace (snd (run e argv fuel fs))) = true.
Proof.
  intros Hyes.
  destruct (main_emits e (λ ev, negb (isPrompt ev)) argv fuel) with (w := World fs [] "")
    as [evs [Ht HP]]; try reflexivity; try congruence.
  unfold run. destruct (main e argv fuel (World fs [] "")) as [[[]|err|code|] w1];
    cbn [snd trace] in *; rewrite Ht; cbn [app]; try exact HP.
  rewrite forallb_app, HP. reflexivity.
Qed.

Lemma yes_never_asks_witness :
  forallb (λ ev, negb (isPrompt ev))
          (trace (snd (run sampleEnv ["--force"; "--yes"; "--template"; "full"] 4 sampleFiles)))
  = true.
Proof.
  apply (yes_never_asks sampleEnv ["--force"; "--yes"; "--template"; "full"] 4 sampleFiles).
  vm_compute. reflexivity.
Defined.

(** X17. Without installation no child process is started: whatever the
    files and the environment, a run whose arguments decide against
    installing (a [--no-install] flag and no [--install] flag) spawns
    nothing, also when it fails. *)
Theorem no_install_never_spawns (e : env) (argv : list string) (fuel : nat) (fs : filesystem) :
  inspect argv shouldInstallOf = Some false →
  forallb (λ ev, negb (isSpawn ev)) (trace (snd (run e argv fuel fs))) = true.
Proof.
  intros Hno.
  destruct (main_emits e (λ ev, negb (isSpawn ev)) argv fuel) with (w := World fs [] "")
    as [evs [Ht HP]]; try reflexivity; try congruence.
  { intros _. repeat split; reflexivity. }
  unfold run. destruct (main e argv fuel (World fs [] "")) as [[[]|err|code|] w1];
    cbn [snd trace] in *; rewrite Ht; cbn [app]; try exact HP.
  rewrite forallb_app, HP. reflexivity.
Qed.

Lemma no_install_never_spawns_witness :
  forallb (λ ev, negb (isSpawn ev))
          (trace (snd (run sampleEnv ["app"; "--no-install"; "--yes"] 4 sampleFiles)))
  = true.
Proof.
  apply (no_install_never_spawns sampleEnv ["app"; "--no-install"; "--yes"] 4 sampleFiles).
  vm_compute. reflexivity.
Defined.

Section LateWrites.
Variable e : env.

Lemma onFiles_files {A} (c : prog filesystem A) w :
  snd (c (files w)) = files w → files (snd (onFiles c w)) = files w.
Proof. unfold onFiles. destruct (c (files w)) as [r fs']. cbn. auto. Qed.

Lemma resolveTemplatesRoot_snd fs : snd (resolveTemplatesRoot e fs) = fs.
Proof.
  unfold resolveTemplatesRoot, bind, existsSync, reads, ret.
  destruct (fsExists fs (dirname (here e) ++ ["templates"])); reflexivity.
Qed.

Lemma getDzxVersion_snd fs : snd (getDzxVersion e fs) = fs.
Proof. destruct (getDzxVersion_total e fs) as [v ->]. reflexivity. Qed.

(** A command that reads only, followed by one that writes late. *)
Lemma late_bind {A B} (c : prog world A) (k : A → prog world B) w fs0 :
  files w = fs0 →
  files (snd (c w)) = files w →
  (∀ a w1, files w1 = fs0 →
           files (snd (k a w1)) = fs0 ∨ copyBegun (trace (snd (k a w1))) = true) →
  files (snd (bind c k w)) = fs0 ∨ copyBegun (trace (snd (bind c k w))) = true.
Proof.
  intros H0 Hc Hk. unfold bind. destruct (c w) as [[a|err|code|] w1]; cbn [snd] in *;
    try (left; congruence).
  apply Hk. congruence.
Qed.

Lemma late_bind_eq {A B} (c : prog world A) (k : A → prog world B) w fs0 :
  (∀ r w1, c w = (r, w1) →
     match r with
     | Normal a => files (snd (k a w1)) = fs0 ∨ copyBegun (trace (snd (k a w1))) = true
     | _ => files w1 = fs0
     end) →
  files (snd (bind c k w)) = fs0 ∨ copyBegun (trace (snd (bind c k w))) = true.
Proof.
  intros Hk. unfold bind. specialize (Hk (fst (c w)) (snd (c w))).
  destruct (c w) as [[a|err|code|] w1]; cbn [fst snd] in *; auto.
Qed.

Lemma begun_grows {A} (c : prog world A) w :
  emits (λ _, true) c → copyBegun (trace w) = true → copyBegun (trace (snd (c w))) = true.
Proof.
  intros Hc Hb. destruct (Hc w) as [evs [-> _]]. unfold copyBegun in *.
  rewrite existsb_app, Hb. reflexivity.
Qed.

Lemma onFiles_frame {A} (c : prog filesystem A) w r w1 :
  onFiles c w = (r, w1) →
  trace w1 = trace w ∧ lastStep w1 = lastStep w ∧ files w1 = snd (c (files w)).
Proof.
  unfold onFiles. destruct (c (files w)) as [r' fs']. intros [= <- <-]. auto.
Qed.

(** [scaffold] writes nothing before the copy begins. *)
Lemma scaffold_writes_late fuel (o : options) w :
  files (snd (scaffold e fuel o w)) = files w
  ∨ copyBegun (trace (snd (scaffold e fuel o w))) = true.
Proof.
  generalize (eq_refl (files w)). generalize (files w) at 2 3 as fs0. intros fs0 H0.
  unfold scaffold.
  apply late_bind; [exact H0| |].
  { destruct (negb (force o)); [|reflexivity]. apply onFiles_files, isEmptyDir_snd. }
  intros empty w1 H1. destruct (negb (force o) && negb empty); [left; exact H1|].
  apply late_bind; [exact H1|apply onFiles_files, resolveTemplatesRoot_snd|].
  intros root w2 H2. apply late_bind; [exact H2|apply onFiles_files; reflexivity|].
  intros found w3 H3. destruct (negb found); [left; exact H3|].
  apply late_bind; [exact H3| |].
  { destruct (force o && negb (isYes o)); [|reflexivity].
    unfold bind, log, exit, ret. destruct (overwriteAnswer e) as [[|]|]; reflexivity. }
  intros _ w4 H4. apply late_bind; [exact H4|apply onFiles_files, getDzxVersion_snd|].
  intros dzxVersion w5 H5. apply late_bind; [exact H5|reflexivity|].
  intros _ w6 H6. apply late_bind_eq. intros r w7 Hstep.
  unfold step in Hstep. injection Hstep as <- <-.
  apply late_bind_eq. intros r w8 Hcheck.
  assert (Hframe : trace w8 = (if nonEmpty (lastStep w6)
                               then trace w6 ++ [StepLine (lastStep w6)] else trace w6)
                   ∧ lastStep w8 = "Validating destination" ∧ files w8 = fs0).
  { destruct (negb (force o)).
    - apply onFiles_frame in Hcheck as (Ht & Hl & Hf). cbn [files trace lastStep] in *.
      rewrite checkCollisions_snd in Hf. rewrite Ht, Hl, Hf. auto.
    - injection Hcheck as <- <-. auto. }
  destruct Hframe as (Ht & Hl & Hf).
  destruct r as [[]|err|code|]; try exact Hf.
  apply late_bind_eq. intros r w9 Hstep.
  unfold step in Hstep. injection Hstep as <- <-. rewrite Hl. cbn [nonEmpty].
  right. apply begun_grows.
  - emits_tac; reflexivity.
  - cbn [trace]. unfold copyBegun. rewrite existsb_app. cbn. apply orb_true_r.
Qed.

End LateWrites.

(** X18. Nothing is written before the copy begins: whatever the
    arguments, the answers and the files, either a run leaves every
    file as it was, or it has passed every check — the options are
    settled with a template and a runtime of the closed sets, and the
    step "Validating destination" is closed in the output. *)
Theorem nothing_written_before_copy (e : env) (argv : list string) (fuel : nat)
        (fs : filesystem) :
  files (snd (run e argv fuel fs)) = fs
  ∨ (copyBegun (trace (snd (run e argv fuel fs))) = true
     ∧ ∃ o, fst (settle e argv (World fs [] "")) = Normal (Some o)
            ∧ template o ∈ TEMPLATES ∧ runtime o ∈ RUNTIMES).
Proof.
  assert (Hmain : files (snd (main e argv fuel (World fs [] ""))) = fs
                  ∨ (copyBegun (trace (snd (main e argv fuel (World fs [] "")))) = true
                     ∧ ∃ o, fst (settle e argv (World fs [] "")) = Normal (Some o)
                            ∧ template o ∈ TEMPLATES ∧ runtime o ∈ RUNTIMES)).
  { rewrite main_settle. unfold bind.
    destruct (settle e argv (World fs [] "")) as [r w1] eqn:Es.
    destruct (settle_reading e argv _ _ _ Es) as [Hf Ho]. cbn [files] in Hf.
    destruct r as [[o|]|err|code|]; cbn [snd]; auto.
    destruct (Ho _ eq_refl o eq_refl) as (Ht & Hr & _).
    destruct (scaffold_writes_late e fuel o w1) as [Hsame|Hbegun].
    - left. congruence.
    - right. split; [exact Hbegun|]. exists o. auto. }
  unfold run. destruct (main e argv fuel (World fs [] "")) as [[[]|err|code|] w1];
    cbn [snd files trace] in *; try exact Hmain.
  destruct Hmain as [Hsame|[Hbegun Ho]]; [left; exact Hsame|right].
  split; [|exact Ho]. unfold copyBegun in *. rewrite existsb_app, Hbegun. reflexivity.
Qed.

Section MoreRefusals.
Variable e : env.

Lemma scaffold_template_missing fuel (o : options) w root :
  force o = true ∨ fst (isEmptyDir (targetDir o) (files w)) = Normal true →
  fst (resolveTemplatesRoot e (files w)) = Normal root →
  files w !! (root ++ [template o]) = None →
  scaffold e fuel o w = (Throw (Error ("Template not found: " +:+ template o)), w).
Proof.
  intros Hdest Hroot Hmiss. destruct w as [fs tr ls]. cbn [files] in *. unfold scaffold.
  assert (Hfirst : ∃ empty,
            (if negb (force o) then onFiles (isEmptyDir (targetDir o)) else ret true)
              (World fs tr ls) = (Normal empty, World fs tr ls)
            ∧ negb (force o) && negb empty = false).
  { destruct (force o) eqn:Ef; cbn [negb].
    - exists true. auto.
    - destruct Hdest as [Hd|Hd]; [discriminate|]. exists true. split; [|reflexivity].
      apply (onFiles_run _ (World fs tr ls)). apply isEmptyDir_pair. exact Hd. }
  destruct Hfirst as (empty & Hrun & Hgo).
  rewrite (bind_Normal _ _ _ _ _ Hrun), Hgo.
  rewrite (bind_Normal _ _ _ _ _
             (onFiles_run _ (World fs tr ls) _ _ (resolveTemplatesRoot_pair e _ _ Hroot))).
  cbn [files trace lastStep].
  rewrite (bind_Normal _ _ _ _ _
             (onFiles_run _ (World fs tr ls) _ _ (existsSync_run fs (root ++ [template o])))).
  unfold fsExists. rewrite Hmiss. reflexivity.
Qed.

Lemma scaffold_overwrite_declined fuel (o : options) w root :
  force o = true → isYes o = false →
  fst (resolveTemplatesRoot e (files w)) = Normal root →
  is_Some (files w !! (root ++ [template o])) →
  overwriteAnswer e ≠ Some true →
  scaffold e fuel o w =
  (Exit 1, World (files w) (trace w ++ [AskOverwrite; Cancelled]) (lastStep w)).
Proof.
  intros Hforce Hyes Hroot [entry Hthere] Hno. destruct w as [fs tr ls].
  cbn [files trace lastStep] in *. unfold scaffold. rewrite Hforce, Hyes. cbn [negb andb].
  unfold bind at 1. unfold ret at 1.
  rewrite (bind_Normal _ _ _ _ _
             (onFiles_run _ (World fs tr ls) _ _ (resolveTemplatesRoot_pair e _ _ Hroot))).
  cbn [files trace lastStep].
  rewrite (bind_Normal _ _ _ _ _
             (onFiles_run _ (World fs tr ls) _ _ (existsSync_run fs (root ++ [template o])))).
  unfold fsExists. rewrite Hthere. cbn [negb files trace lastStep].
  unfold bind, log, exit, ret. cbn [files trace lastStep].
  destruct (overwriteAnswer e) as [[|]|]; [congruence| |];
    cbn [files trace lastStep]; rewrite <- app_assoc; reflexivity.
Qed.

End MoreRefusals.

(** X19. TemplateNotFound.  In a run that has settled its options, with
    the force flag set or the destination empty or missing, when the
    chosen template has no directory under the templates root — the
    [templates] directory beside the program when it exists, else
    [node_modules/create-dzx/templates] under the working directory —
    the run fails with "Template not found", exit code 1, and the
    files are as they were. *)
Theorem missing_template_refused (e : env) (argv : list string) (fuel : nat)
        (fs : filesystem) (o : options) :
  fst (settle e argv (World fs [] "")) = Normal (Some o) →
  force o = true ∨ fst (isEmptyDir (targetDir o) fs) = Normal true →
  fs !! ((if fsExists fs (dirname (here e) ++ ["templates"])
          then dirname (here e) ++ ["templates"]
          else cwd e ++ ["node_modules"; "create-dzx"; "templates"]) ++ [template o]) = None →
  fst (run e argv fuel fs) = Some 1%nat
  ∧ files (snd (run e argv fuel fs)) = fs
  ∧ last (trace (snd (run e argv fuel fs)))
    = Some (Failure (Error ("Template not found: " +:+ template o))).
Proof.
  intros Hsettle Hdest Hmiss.
  destruct (settle e argv (World fs [] "")) as [r w1] eqn:Es.
  cbn [fst] in Hsettle. subst r.
  destruct (settle_reading e argv _ _ _ Es) as [Hfiles _]. cbn [files] in Hfiles.
  assert (Hmain : main e argv fuel (World fs [] "")
                  = (Throw (Error ("Template not found: " +:+ template o)), w1)).
  { rewrite main_settle, (bind_Normal _ _ _ _ _ Es).
    apply (scaffold_template_missing e fuel o w1
             (if fsExists fs (dirname (here e) ++ ["templates"])
              then dirname (here e) ++ ["templates"]
              else cwd e ++ ["node_modules"; "create-dzx"; "templates"])).
    - rewrite Hfiles. exact Hdest.
    - rewrite Hfiles. unfold resolveTemplatesRoot, bind, existsSync, reads, ret.
      destruct (fsExists fs (dirname (here e) ++ ["templates"])); reflexivity.
    - rewrite Hfiles. exact Hmiss. }
  unfold run. rewrite Hmain. cbn [fst snd files trace].
  repeat split; [exact Hfiles|apply last_snoc].
Qed.

Lemma missing_template_refused_witness :
  fst (run sampleEnv ["--template"; "full"; "--yes"] 4 sampleFiles) = Some 1%nat
  ∧ files (snd (run sampleEnv ["--template"; "full"; "--yes"] 4 sampleFiles)) = sampleFiles
  ∧ last (trace (snd (run sampleEnv ["--template"; "full"; "--yes"] 4 sampleFiles)))
    = Some (Failure (Error ("Template not found: " +:+ "full"))).
Proof.
  apply (missing_template_refused sampleEnv ["--template"; "full"; "--yes"] 4 sampleFiles
           (Options ["work"; "my-agent"] "full" "node" false true true)).
  - vm_compute. reflexivity.
  - right. vm_compute. reflexivity.
  - vm_compute. reflexivity.
Defined.

(** X20. Declining to overwrite.  In a run that has settled its options
    with the force flag set and [--yes] not given, once the template
    is found the user is asked to confirm; unless the answer is yes —
    on "no" and on cancellation alike — the process exits with code 1
    right after the notice, and the files are as they were. *)
Theorem overwrite_declined (e : env) (argv : list string) (fuel : nat)
        (fs : filesystem) (o : options) :
  fst (settle e argv (World fs [] "")) = Normal (Some o) →
  force o = true → isYes o = false →
  is_Some (fs !! ((if fsExists fs (dirname (here e) ++ ["templates"])
                   then dirname (here e) ++ ["templates"]
                   else cwd e ++ ["node_modules"; "create-dzx"; "templates"])
                  ++ [template o])) →
  overwriteAnswer e ≠ Some true →
  fst (run e argv fuel fs) = Some 1%nat
  ∧ files (snd (run e argv fuel fs)) = fs
  ∧ trace (snd (run e argv fuel fs))
    = trace (snd (settle e argv (World fs [] ""))) ++ [AskOverwrite; Cancelled].
Proof.
  intros Hsettle Hforce Hyes Hthere Hno.
  destruct (settle e argv (World fs [] "")) as [r w1] eqn:Es.
  cbn [fst] in Hsettle. subst r.
  destruct (settle_reading e argv _ _ _ Es) as [Hfiles _]. cbn [files] in Hfiles.
  assert (Hmain : main e argv fuel (World fs [] "")
                  = (Exit 1, World (files w1) (trace w1 ++ [AskOverwrite; Cancelled])
                                   (lastStep w1))).
  { rewrite main_settle, (bind_Normal _ _ _ _ _ Es).
    apply (scaffold_overwrite_declined e fuel o w1
             (if fsExists fs (dirname (here e) ++ ["templates"])
              then dirname (here e) ++ ["templates"]
              else cwd e ++ ["node_modules"; "create-dzx"; "templates"]));
      try assumption.
    - rewrite Hfiles. unfold resolveTemplatesRoot, bind, existsSync, reads, ret.
      destruct (fsExists fs (dirname (here e) ++ ["templates"])); reflexivity.
    - rewrite Hfiles. exact Hthere. }
  unfold run. rewrite Hmain. cbn [fst snd files trace]. auto.
Qed.

Lemma overwrite_declined_witness :
  fst (run decliningEnv ["--force"] 4 sampleFiles) = Some 1%nat
  ∧ files (snd (run decliningEnv ["--force"] 4 sampleFiles)) = sampleFiles
  ∧ trace (snd (run decliningEnv ["--force"] 4 sampleFiles))
    = trace (snd (settle decliningEnv ["--force"] (World sampleFiles [] "")))
      ++ [AskOverwrite; Cancelled].
Proof.
  apply (overwrite_declined decliningEnv ["--force"] 4 sampleFiles
           (Options ["work"; "app"] "basic" "node" true false true)).
  - vm_compute. reflexivity.
  - reflexivity.
  - reflexivity.
  - vm_compute. eexists. reflexivity.
  - discriminate.
Defined.

(** X21. A [--dir] flag without a value: when the arguments leave [dir]
    set to [true] — the last [--dir] is the last token, or is followed
    by another flag or by an empty token — and no help is asked for,
    the run fails with a TypeError when it resolves the directory,
    right after the intro, whatever the other arguments; exit code 1,
    nothing asked, nothing written. *)
Theorem dir_flag_without_value (e : env) (argv : list string) (fuel : nat)
        (fs : filesystem) :
  inspect argv (λ args, (helpRequested args, args !! "dir")) = Some (false, Some VTrue) →
  run e argv fuel fs = (Some 1%nat, World fs [Intro; Failure TypeError] "").
Proof.
  unfold inspect. destruct (parseArgs argv) as [args| | |] eqn:Eparse; try discriminate.
  intros [= Hhelp Hdir]. unfold run.
  rewrite (main_parsed e _ _ _ _ Eparse), Hhelp.
  unfold resolveOptions, bind, log, pure, ret. rewrite Hdir. reflexivity.
Qed.

Lemma dir_flag_without_value_witness :
  run sampleEnv ["app"; "--dir"; "--yes"] 4 sampleFiles
  = (Some 1%nat, World sampleFiles [Intro; Failure TypeError] "").
Proof.
  apply (dir_flag_without_value sampleEnv ["app"; "--dir"; "--yes"] 4 sampleFiles).
  vm_compute. reflexivity.
Defined.

(** X22. The step "Installing dependencies".  Without a package.json in
    the destination it throws "Missing package.json" and starts no
    process.  With one, it starts exactly one child process, in the
    destination, with the command "<pm> install" for the package
    manager that the lockfile scan finds from there; when the child
    exits with 0 the step returns, and on any other exit code and on a
    failure to start it throws "Dependency installation failed",
    naming that command.  Either way the files are what the child
    left: nothing of the scaffold is undone. *)
Theorem install_step (e : env) (dir : path) (w : world) :
  (files w !! (dir ++ ["package.json"]) = None →
   installDependencies e dir w =
   (Throw (Error "Missing package.json in template. Cannot install dependencies."),
    snd (step "Installing dependencies" w)))
  ∧ (is_Some (files w !! (dir ++ ["package.json"])) →
     ∃ pm, pm = detectPackageManager (files w) dir
           ∧ pm ∈ ["pnpm"; "npm"; "yarn"; "bun"]
           ∧ installDependencies e dir w =
             (match exitCode (child e (pm +:+ " install") dir (files w)) with
              | Some O => Normal tt
              | _ => Throw (Error ("Dependency installation failed. Run `"
                                   +:+ (pm +:+ " install") +:+ "` manually."))
              end,
              World (filesAfter (child e (pm +:+ " install") dir (files w)))
                    (trace (snd (step "Installing dependencies" w))
                     ++ [Spawn (pm +:+ " install") dir])
                    "Installing dependencies")).
Proof.
  destruct w as [fs tr ls]. cbn [files]. split.
  - intros Hmiss. unfold installDependencies, bind, step, onFiles, existsSync, reads, fsExists.
    cbn [files trace lastStep]. rewrite Hmiss. reflexivity.
  - intros [entry Hthere]. exists (detectPackageManager fs dir).
    split; [reflexivity|]. split.
    { apply detect_known. }
    unfold installDependencies, bind, step, onFiles, existsSync, reads, fsExists,
      tryCatch, runCommand, log, bind, throw, getInstallCommand.
    cbn [files trace lastStep]. rewrite Hthere. cbn [negb files trace lastStep].
    destruct (exitCode (child e (detectPackageManager fs dir +:+ " install") dir fs))
      as [[|n]|]; reflexivity.
Qed.

(** ** The summary list *)

Section ListFacts.










End ListFacts.


(** ** The progress reporter *)

Ltac fields :=
  cbn [Progress.spin Progress.term Progress.steps Progress.timer Progress.message
       Progress.frameIndex Progress.stdout Progress.intervals Progress.handles negb].

Section ProgressFacts.
Import Progress.
Variable enabled : bool.

Lemma tidy_cons a b out :
  tidy (a :: b :: out) =
  match a, b with
  | Frame _ _, Done _ _ => false
  | _, _ => tidy (b :: out)
  end.
Proof. destruct a; reflexivity. Qed.

Lemma tidy_snoc out o :
  tidy (out ++ [o]) =
  tidy out && negb (lastIsFrame out && match o with Done _ _ => true | _ => false end).
Proof.
  unfold lastIsFrame. induction out as [|a out IH]; [destruct o; reflexivity|].
  destruct out as [|b out'].
  - destruct a, o; reflexivity.
  - change ((a :: b :: out') ++ [o]) with (a :: b :: (out' ++ [o])).
    change (last (a :: b :: out')) with (last (b :: out')).
    rewrite !tidy_cons. destruct a; try exact IH. destruct b; try exact IH. reflexivity.
Qed.

Lemma lastIsFrame_snoc out o :
  lastIsFrame (out ++ [o]) = match o with Frame _ _ => true | _ => false end.
Proof. unfold lastIsFrame. rewrite last_snoc. destruct o; reflexivity. Qed.

Lemma frames_snoc out o :
  frames (out ++ [o]) = frames out ++ match o with Frame i _ => [i] | _ => [] end.
Proof.
  unfold frames. rewrite omap_app. destruct o; reflexivity.
Qed.

Lemma finished_snoc out o :
  finished (out ++ [o]) =
  finished out ++ match o with Done label ms => [(label, ms)] | _ => [] end.
Proof.
  unfold finished. rewrite omap_app. destruct o; reflexivity.
Qed.

Lemma consistent_initial now : consistent enabled (initial now).
Proof. repeat split. Qed.

Lemma consistent_setMessage m s : consistent enabled s → consistent enabled (setMessage m s).
Proof. intros H. exact H. Qed.

Lemma consistent_steps s st : consistent enabled s → consistent enabled (State (spin s) (term s) st).
Proof. intros H. exact H. Qed.

(** [render] and then [setInterval], from a spinner at rest. *)
Lemma consistent_restart s :
  enabled = true → timer (spin s) = None →
  consistent enabled s → consistent enabled (setInterval (render enabled s)).
Proof.
  intros He Ht (H1 & H2 & H3 & H4 & H5). unfold consistent, render, setInterval, write.
  rewrite He. fields. rewrite Ht in H1. rewrite H1.
  repeat split.
  - rewrite tidy_snoc, H2, andb_false_r. reflexivity.
  - discriminate.
  - discriminate.
  - rewrite frames_snoc, H5, seq_S, fmap_app. reflexivity.
Qed.

Lemma consistent_render s :
  is_Some (timer (spin s)) →
  consistent enabled s → consistent enabled (render enabled s).
Proof.
  intros [h Ht] (H1 & H2 & H3 & H4 & H5). unfold consistent, render, write.
  destruct enabled eqn:He; fields; [|repeat split; assumption].
  repeat split.
  - exact H1.
  - rewrite tidy_snoc, H2, andb_false_r. reflexivity.
  - rewrite Ht. discriminate.
  - discriminate.
  - rewrite frames_snoc, H5, seq_S, fmap_app. reflexivity.
Qed.

Lemma consistent_start m s : consistent enabled s → consistent enabled (start enabled m s).
Proof.
  intros H. unfold start. pose proof (consistent_setMessage m s H) as H'.
  destruct (timer (spin (setMessage m s))) eqn:Et; [exact H'|].
  destruct enabled eqn:He; cbn [negb]; [|exact H'].
  rewrite <- He. apply consistent_restart; [exact He|exact Et|rewrite He; exact H'].
Qed.

Lemma consistent_update m s : consistent enabled s → consistent enabled (update enabled m s).
Proof.
  intros H. unfold update. pose proof (consistent_setMessage m s H) as H'.
  destruct (timer (spin (setMessage m s))) eqn:Et; [|exact H'].
  destruct enabled eqn:He; cbn [negb]; [|exact H'].
  rewrite <- He. apply consistent_render; [rewrite Et; eauto|rewrite He; exact H'].
Qed.

Lemma consistent_pause s :
  consistent enabled s →
  consistent enabled (pause enabled s)
  ∧ (enabled = true → timer (spin (pause enabled s)) = None).
Proof.
  intros (H1 & H2 & H3 & H4 & H5). unfold pause.
  destruct (timer (spin s)) as [h|] eqn:Et.
  - destruct enabled eqn:He; cbn [negb].
    + unfold consistent, clearLine, clearInterval, write. fields. rewrite H1.
      rewrite filter_cons, decide_False, filter_nil by (intros E; apply E; reflexivity).
      split; [|reflexivity]. repeat split.
      * rewrite tidy_snoc, H2, andb_false_r. reflexivity.
      * intros _. apply lastIsFrame_snoc.
      * rewrite frames_snoc, H5, app_nil_r. reflexivity.
    + specialize (H4 eq_refl). congruence.
  - split; [|intros _; exact Et]. repeat split; try assumption; rewrite ?Et; auto.
Qed.

Lemma consistent_resume s : consistent enabled s → consistent enabled (resume enabled s).
Proof.
  intros H. unfold resume. destruct (timer (spin s)) eqn:Et; [exact H|].
  destruct enabled eqn:He; cbn [negb orb]; [|exact H].
  destruct (nonEmpty (message (spin s))); cbn [negb]; [|exact H].
  rewrite <- He. apply consistent_restart; [exact He|exact Et|rewrite He; exact H].
Qed.

Lemma consistent_stop s : consistent enabled s → consistent enabled (stop enabled s).
Proof.
  intros H. unfold stop. apply consistent_setMessage, consistent_pause, H.
Qed.

Lemma consistent_tick h s : consistent enabled s → consistent enabled (tick enabled h s).
Proof.
  intros H. unfold tick. destruct (bool_decide (h ∈ intervals (term s))) eqn:Eh; [|exact H].
  apply consistent_render; [|exact H]. apply bool_decide_eq_true in Eh.
  destruct H as (H1 & _). rewrite H1 in Eh.
  destruct (timer (spin s)); [eauto|inversion Eh].
Qed.

Lemma consistent_done label ms s :
  timer (spin s) = None →
  consistent enabled s → consistent enabled (write (Done label ms) s).
Proof.
  intros Ht (H1 & H2 & H3 & H4 & H5). unfold consistent, write. fields.
  repeat split; try assumption.
  - rewrite tidy_snoc, H2, (H3 Ht). reflexivity.
  - intros _. apply lastIsFrame_snoc.
  - rewrite frames_snoc, H5, app_nil_r. reflexivity.
Qed.

Lemma consistent_logStep label ms s :
  consistent enabled s → consistent enabled (logStep enabled label ms s).
Proof.
  intros H. unfold logStep. destruct enabled eqn:He.
  - rewrite <- He in H |- *. destruct (consistent_pause s H) as [Hp Hnone].
    apply consistent_resume, consistent_done; [apply Hnone; exact He|exact Hp].
  - assert (Ht : timer (spin s) = None) by (destruct H as (_ & _ & _ & H4 & _); auto).
    rewrite <- He in H |- *. apply consistent_done; [exact Ht|exact H].
Qed.

Lemma consistent_closeStep now s :
  consistent enabled s → consistent enabled (closeStep enabled now s).
Proof.
  intros H. unfold closeStep. destruct (nonEmpty (lastStep (steps s))); [|exact H].
  apply consistent_logStep. exact H.
Qed.

Lemma consistent_step now m s : consistent enabled s → consistent enabled (step enabled now m s).
Proof.
  intros H. unfold step. pose proof (consistent_closeStep now s H) as Hc.
  destruct enabled eqn:He; [|exact Hc]. rewrite <- He in Hc |- *.
  cbn [steps spinnerStarted]. destruct (spinnerStarted (steps (closeStep enabled now s))).
  - apply consistent_update. exact Hc.
  - apply consistent_start. exact Hc.
Qed.

Lemma consistent_act a s : consistent enabled s → consistent enabled (act enabled a s).
Proof.
  intros H. destruct a; cbn [act].
  - apply consistent_start, H.
  - apply consistent_update, H.
  - apply consistent_pause, H.
  - apply consistent_resume, H.
  - apply consistent_stop, H.
  - apply consistent_tick, H.
  - apply consistent_logStep, H.
  - apply consistent_step, H.
  - unfold finish. apply consistent_stop, consistent_closeStep, H.
Qed.

Lemma consistent_run actions : ∀ s,
  consistent enabled s → consistent enabled (Progress.run enabled actions s).
Proof.
  induction actions as [|a actions IH]; intros s H; [exact H|].
  cbn [Progress.run fold_left]. apply IH, consistent_act, H.
Qed.

Lemma untouched_render : untouched (render enabled).
Proof.
  intros s. unfold render, write. destruct enabled; fields; [|auto].
  rewrite finished_snoc, app_nil_r. auto.
Qed.

Lemma untouched_restart : untouched (λ s, setInterval (render enabled s)).
Proof. intros s. unfold setInterval. fields. apply untouched_render. Qed.

Lemma untouched_start m : untouched (start enabled m).
Proof.
  intros s. unfold start. destruct (timer (spin (setMessage m s))); [auto|].
  destruct enabled eqn:He; cbn [negb]; [|auto]. rewrite <- He.
  apply (untouched_restart (setMessage m s)).
Qed.

Lemma untouched_update m : untouched (update enabled m).
Proof.
  intros s. unfold update. destruct (timer (spin (setMessage m s))); [|auto].
  destruct enabled eqn:He; cbn [negb]; [|auto]. rewrite <- He.
  apply (untouched_render (setMessage m s)).
Qed.

Lemma untouched_pause : untouched (pause enabled).
Proof.
  intros s. unfold pause. destruct (timer (spin s)); [|auto].
  destruct enabled eqn:He; cbn [negb]; [|auto].
  unfold clearLine, clearInterval, write. cbn [negb]. fields.
  rewrite finished_snoc, app_nil_r. auto.
Qed.

Lemma untouched_resume : untouched (resume enabled).
Proof.
  intros s. unfold resume. destruct (timer (spin s)); [auto|].
  destruct enabled eqn:He; cbn [negb orb]; [|auto].
  destruct (nonEmpty (message (spin s))); cbn [negb]; [|auto]. rewrite <- He.
  apply untouched_restart.
Qed.

Lemma untouched_stop : untouched (stop enabled).
Proof. intros s. unfold stop, setMessage. fields. apply untouched_pause. Qed.

Lemma untouched_tick h : untouched (tick enabled h).
Proof.
  intros s. unfold tick. destruct (bool_decide (h ∈ intervals (term s))); [|auto].
  apply untouched_render.
Qed.

Lemma logStep_steps label ms s :
  steps (logStep enabled label ms s) = steps s
  ∧ finished (stdout (term (logStep enabled label ms s)))
    = finished (stdout (term s)) ++ [(label, ms)].
Proof.
  unfold logStep. destruct enabled eqn:He.
  - rewrite <- He.
    destruct (untouched_resume (write (Done label ms) (pause enabled s))) as [-> ->].
    unfold write. fields. rewrite finished_snoc.
    destruct (untouched_pause s) as [-> ->]. auto.
  - unfold write. fields. rewrite finished_snoc. auto.
Qed.

End ProgressFacts.

Section ProgressTimes.
Import Progress.

Lemma sum_snoc (l : list (string * Z)) (x : string * Z) :
  fold_left (λ sum item, (sum + item.2)%Z) (l ++ [x]) 0%Z
  = (fold_left (λ sum item, (sum + item.2)%Z) l 0 + x.2)%Z.
Proof. rewrite fold_left_app. reflexivity. Qed.

Lemma onTrack_run enabled now actions :
  forallb isProtocol actions = true →
  onTrack actions (Progress.run enabled actions (initial now)).
Proof.
  induction actions as [|a actions IH] using rev_ind; intros Hall.
  { repeat split. }
  rewrite forallb_app in Hall. apply andb_true_iff in Hall as [Hall Ha].
  cbn [forallb] in Ha. rewrite andb_true_r in Ha.
  specialize (IH Hall). unfold Progress.run in *. rewrite fold_left_app. cbn [fold_left].
  set (s := fold_left (λ s a, act enabled a s) actions (initial now)) in *.
  destruct IH as (Hlabels & Hshown & Hsum).
  unfold onTrack, stepsOf. rewrite omap_app. fold (stepsOf actions).
  destruct a as [| | | | |h| |t m|]; try discriminate Ha; cbn [act omap list_omap].
  - (* the interval fires *)
    rewrite app_nil_r. destruct (untouched_tick enabled h s) as [Hst Hfin].
    unfold totalMs in *. rewrite Hst, Hfin. auto.
  - (* a step begins *)
    cbn [isProtocol] in Ha.
    assert (Hclose : ∃ s1, closeStep enabled t s = s1
              ∧ steps s1 = Timings (stepTimes (steps s1)) (stepStart (steps s))
                                   (lastStep (steps s)) (spinnerStarted (steps s))
              ∧ finished (stdout (term s1)) = stepTimes (steps s1)
              ∧ map fst (stepTimes (steps s1)) = map snd (stepsOf actions)
              ∧ match stepsOf actions with
                | [] => stepTimes (steps s1) = []
                | (first, _) :: _ =>
                    fold_left (λ sum item, (sum + item.2)%Z) (stepTimes (steps s1)) 0%Z
                    = (t - first)%Z
                end).
    { eexists. split; [reflexivity|]. unfold closeStep.
      destruct (nonEmpty (lastStep (steps s))) eqn:El.
      - match goal with |- context [logStep enabled ?l ?ms ?s0] =>
          destruct (logStep_steps enabled l ms s0) as [-> ->] end.
        fields. cbn [stepTimes stepStart lastStep spinnerStarted].
        rewrite Hshown. split; [reflexivity|]. split; [reflexivity|].
        rewrite map_app. cbn [map fst]. split; [exact Hlabels|].
        destruct (stepsOf actions) as [|[first m0] rest].
        + destruct Hsum as [Hl _]. rewrite Hl in El. discriminate El.
        + destruct Hsum as [_ Hsum]. unfold totalMs in Hsum.
          rewrite sum_snoc, Hsum. cbn [snd]. lia.
      - rewrite app_nil_r in Hlabels.
        split; [destruct (steps s); reflexivity|].
        split; [exact Hshown|]. split; [exact Hlabels|].
        destruct (stepsOf actions) as [|[first m0] rest]; [apply Hsum|].
        destruct Hsum as [Hl _]. congruence. }
    destruct Hclose as (s1 & Hs1 & Hsteps1 & Hshown1 & Hlabels1 & Hsum1).
    unfold step. rewrite Hs1.
    assert (Hafter : ∀ s2, steps s2 = Timings (stepTimes (steps s1)) t m
                                        (spinnerStarted (steps s2)) →
              finished (stdout (term s2)) = stepTimes (steps s1) →
              (map fst (stepTimes (steps s2))
                 ++ (if nonEmpty (lastStep (steps s2)) then [lastStep (steps s2)] else [])
               = map snd (stepsOf actions ++ [(t, m)]))
              ∧ finished (stdout (term s2)) = stepTimes (steps s2)
              ∧ match stepsOf actions ++ [(t, m)] with
                | [] => lastStep (steps s2) = "" ∧ stepTimes (steps s2) = []
                | (first, _) :: _ =>
                    nonEmpty (lastStep (steps s2)) = true
                    ∧ totalMs s2 = (stepStart (steps s2) - first)%Z
                end).
    { intros s2 Hst Hfin. unfold totalMs. rewrite Hst, Hfin.
      cbn [stepTimes stepStart lastStep]. rewrite Ha, map_app, Hlabels1.
      split; [reflexivity|]. split; [reflexivity|].
      destruct (stepsOf actions) as [|[first m0] rest]; cbn [app].
      - rewrite Hsum1. split; [reflexivity|]. cbn. lia.
      - split; [reflexivity|exact Hsum1]. }
    destruct enabled.
    + cbn [steps spinnerStarted].
      destruct (spinnerStarted (steps s1)) eqn:Estarted.
      * match goal with |- context [update true m ?s0] =>
          destruct (untouched_update true m s0) as [Hst Hfin]; apply Hafter end.
        -- rewrite Hst. cbn [steps spinnerStarted stepTimes]. reflexivity.
        -- rewrite Hfin. fields. exact Hshown1.
      * match goal with |- context [start true m ?s0] =>
          destruct (untouched_start true m s0) as [Hst Hfin]; apply Hafter end.
        -- rewrite Hst. cbn [steps spinnerStarted stepTimes stepStart lastStep]. reflexivity.
        -- rewrite Hfin. fields. exact Hshown1.
    + apply Hafter; [reflexivity|exact Hshown1].
Qed.

(** A spinner that is not enabled: no interval, no frame. *)
Lemma silent_act a s :
  timer (spin s) = None → intervals (term s) = [] →
  forallb isDone (stdout (term s)) = true →
  timer (spin (act false a s)) = None ∧ intervals (term (act false a s)) = []
  ∧ forallb isDone (stdout (term (act false a s))) = true.
Proof.
  intros Ht Hi Hd.
  assert (Hlog : ∀ label ms s0,
            timer (spin s0) = None → intervals (term s0) = [] →
            forallb isDone (stdout (term s0)) = true →
            timer (spin (logStep false label ms s0)) = None
            ∧ intervals (term (logStep false label ms s0)) = []
            ∧ forallb isDone (stdout (term (logStep false label ms s0))) = true).
  { intros label ms s0 H1 H2 H3. unfold logStep, write. fields.
    rewrite forallb_app, H3. auto. }
  assert (Hclose : ∀ now,
            timer (spin (closeStep false now s)) = None
            ∧ intervals (term (closeStep false now s)) = []
            ∧ forallb isDone (stdout (term (closeStep false now s))) = true).
  { intros now. unfold closeStep. destruct (nonEmpty (lastStep (steps s))); [|auto].
    apply Hlog; assumption. }
  destruct a; cbn [act].
  - unfold start, setMessage. fields. rewrite Ht. auto.
  - unfold update, setMessage. fields. rewrite Ht. auto.
  - unfold pause. rewrite Ht. auto.
  - unfold resume. rewrite Ht. auto.
  - unfold stop, pause, setMessage. rewrite Ht. fields. auto.
  - unfold tick. rewrite Hi. cbn. auto.
  - apply Hlog; assumption.
  - unfold step. fields. apply Hclose.
  - unfold finish, stop, pause, setMessage. destruct (Hclose now) as (H1 & H2 & H3).
    rewrite H1. fields. auto.
Qed.

Lemma silent_run actions : ∀ s,
  timer (spin s) = None → intervals (term s) = [] →
  forallb isDone (stdout (term s)) = true →
  intervals (term (Progress.run false actions s)) = []
  ∧ forallb isDone (stdout (term (Progress.run false actions s))) = true.
Proof.
  induction actions as [|a actions IH]; intros s Ht Hi Hd; [auto|].
  cbn [Progress.run fold_left]. destruct (silent_act a s Ht Hi Hd) as (H1 & H2 & H3).
  apply IH; assumption.
Qed.

End ProgressTimes.

Section ShownSteps.

(** The step lines of [main], in the two descriptions of the
    reporter. *)
Lemma shown_labels actions : ∀ w,
  forallb Progress.isProtocol actions = true →
  stepLabels (trace (shownSteps actions w))
  = stepLabels (trace w)
    ++ (if nonEmpty (lastStep w) then [lastStep w] else [])
    ++ map snd (Progress.stepsOf actions).
Proof.
  unfold shownSteps.
  induction actions as [|a actions IH]; intros w Hall.
  - cbn [fold_left Progress.stepsOf omap list_omap map]. unfold flushStep. cbn [snd trace].
    rewrite app_nil_r. destruct (nonEmpty (lastStep w)).
    + unfold stepLabels. rewrite omap_app. reflexivity.
    + rewrite app_nil_r. reflexivity.
  - cbn [forallb] in Hall. apply andb_true_iff in Hall as [Ha Hall].
    cbn [fold_left].
    destruct a as [| | | | |h| |t m|]; try discriminate Ha.
    + rewrite (IH w Hall). reflexivity.
    + cbn [Progress.isProtocol] in Ha. rewrite (IH _ Hall). unfold step.
      cbn [snd trace lastStep]. rewrite Ha.
      cbn [Progress.stepsOf omap list_omap map snd].
      destruct (nonEmpty (lastStep w)).
      * unfold stepLabels at 1. rewrite omap_app. cbn [omap list_omap].
        rewrite <- !app_assoc. reflexivity.
      * reflexivity.
Qed.

End ShownSteps.

(** X24. The spinner never holds two intervals.  After every sequence
    of calls to the spinner and the step timer, with the interval
    firing at any moment in between, the intervals that are live are
    exactly the one whose handle [timer] holds: none is started while
    one is running and none is lost before it is cleared.  A spinner
    that is not enabled starts no interval and writes nothing but the
    finished lines of the steps. *)
Theorem spinner_one_interval (enabled : bool) (actions : list Progress.action) (now : Z) :
  Progress.intervals (Progress.term (Progress.run enabled actions (Progress.initial now)))
  = match Progress.timer (Progress.spin
                            (Progress.run enabled actions (Progress.initial now))) with
    | Some h => [h]
    | None => []
    end
  ∧ (enabled = false →
     Progress.intervals (Progress.term (Progress.run enabled actions (Progress.initial now)))
     = []
     ∧ forallb Progress.isDone
         (Progress.stdout (Progress.term (Progress.run enabled actions (Progress.initial now))))
       = true).
Proof.
  split.
  - apply (consistent_run enabled actions (Progress.initial now)), consistent_initial.
  - intros ->. apply silent_run; reflexivity.
Qed.

(** X25. What the reporter writes is tidy.  After every sequence of
    calls, no finished line of a step comes right after a frame of the
    spinner — the line is cleared first — and the frames written run
    through the four glyphs in a cycle that [update], [pause] and
    [resume] never restart: the [k]-th frame written shows glyph
    [k mod 4]. *)
Theorem reporter_output_tidy (enabled : bool) (actions : list Progress.action) (now : Z) :
  Progress.tidy
    (Progress.stdout (Progress.term (Progress.run enabled actions (Progress.initial now))))
  = true
  ∧ Progress.frames
      (Progress.stdout (Progress.term (Progress.run enabled actions (Progress.initial now))))
    = (λ k, k mod 4)%nat
        <$> seq 0 (Progress.frameIndex
                     (Progress.spin (Progress.run enabled actions (Progress.initial now)))).
Proof.
  destruct (consistent_run enabled actions (Progress.initial now)
              (consistent_initial enabled now)) as (_ & H2 & _ & _ & H5).
  split; [exact H2|exact H5].
Qed.

(** X26. The times add up.  Through a run of [main] — steps with labels
    that are not empty, the interval firing in between, then the
    closing of the last step — one entry is recorded for each step, in
    order, under its label; the finished lines written are these
    entries; their total, shown as "ready", is the time from the
    first step to the end, whatever happened before the first step;
    the spinner is left with no interval.  The labels are those of
    the step lines in the trace of [main]. *)
Theorem step_times_add_up (enabled : bool) (actions : list Progress.action)
        (now final : Z) (fs : filesystem) :
  forallb Progress.isProtocol actions = true →
  map fst (Progress.stepTimes
             (Progress.steps
                (Progress.run enabled (actions ++ [Progress.Finish final])
                              (Progress.initial now))))
  = map snd (Progress.stepsOf actions)
  ∧ Progress.finished
      (Progress.stdout
         (Progress.term (Progress.run enabled (actions ++ [Progress.Finish final])
                                      (Progress.initial now))))
    = Progress.stepTimes
        (Progress.steps (Progress.run enabled (actions ++ [Progress.Finish final])
                                      (Progress.initial now)))
  ∧ Progress.totalMs (Progress.run enabled (actions ++ [Progress.Finish final])
                                   (Progress.initial now))
    = match Progress.stepsOf actions with
      | [] => 0%Z
      | (first, _) :: _ => (final - first)%Z
      end
  ∧ Progress.intervals
      (Progress.term (Progress.run enabled (actions ++ [Progress.Finish final])
                                   (Progress.initial now)))
    = []
  ∧ stepLabels (trace (shownSteps actions (World fs [] "")))
    = map snd (Progress.stepsOf actions).
Proof.
  intros Hall.
  pose proof (onTrack_run enabled now actions Hall) as (Hlabels & Hshown & Hsum).
  pose proof (consistent_run enabled actions (Progress.initial now)
                (consistent_initial enabled now)) as Hcons.
  unfold Progress.run in *. rewrite fold_left_app. cbn [fold_left Progress.act].
  set (s := fold_left (λ s a, Progress.act enabled a s) actions (Progress.initial now)) in *.
  unfold Progress.finish.
  destruct (untouched_stop enabled (Progress.closeStep enabled final s)) as [Hst Hfin].
  unfold Progress.totalMs. rewrite Hst, Hfin.
  assert (Hclosed :
    map fst (Progress.stepTimes (Progress.steps (Progress.closeStep enabled final s)))
    = map snd (Progress.stepsOf actions)
    ∧ Progress.finished (Progress.stdout (Progress.term (Progress.closeStep enabled final s)))
      = Progress.stepTimes (Progress.steps (Progress.closeStep enabled final s))
    ∧ fold_left (λ sum item, (sum + item.2)%Z)
        (Progress.stepTimes (Progress.steps (Progress.closeStep enabled final s))) 0%Z
      = match Progress.stepsOf actions with
        | [] => 0%Z
        | (first, _) :: _ => (final - first)%Z
        end).
  { unfold Progress.closeStep.
    destruct (nonEmpty (Progress.lastStep (Progress.steps s))) eqn:El.
    - match goal with |- context [Progress.logStep enabled ?l ?ms ?s0] =>
        destruct (logStep_steps enabled l ms s0) as [-> ->] end.
      fields. cbn [Progress.stepTimes]. rewrite Hshown, map_app. cbn [map fst].
      split; [exact Hlabels|]. split; [reflexivity|].
      destruct (Progress.stepsOf actions) as [|[first m0] rest].
      + destruct Hsum as [Hl _]. rewrite Hl in El. discriminate El.
      + destruct Hsum as [_ Hsum]. unfold Progress.totalMs in Hsum.
        rewrite sum_snoc, Hsum. cbn [snd]. lia.
    - rewrite app_nil_r in Hlabels. split; [exact Hlabels|]. split; [exact Hshown|].
      destruct (Progress.stepsOf actions) as [|[first m0] rest].
      + destruct Hsum as [_ ->]. reflexivity.
      + destruct Hsum as [Hl _]. congruence. }
  destruct Hclosed as (H1 & H2 & H3).
  split; [exact H1|]. split; [exact H2|]. split; [exact H3|]. split.
  - pose proof (consistent_stop enabled _ (consistent_closeStep enabled final s Hcons))
      as (Hint & _).
    rewrite Hint. unfold Progress.stop, Progress.setMessage. fields.
    destruct enabled eqn:He.
    + destruct (consistent_pause true _ (consistent_closeStep true final s Hcons))
        as [_ Hnone]. rewrite (Hnone eq_refl). reflexivity.
    + destruct (consistent_closeStep false final s Hcons) as (_ & _ & _ & H4 & _).
      unfold Progress.pause. rewrite (H4 eq_refl). rewrite (H4 eq_refl). reflexivity.
  - rewrite (shown_labels actions _ Hall). reflexivity.
Qed.

Lemma step_times_add_up_witness :
  map fst (Progress.stepTimes
             (Progress.steps
                (Progress.run true
                   ([Progress.Step 100 "Validating destination"; Progress.Tick 0;
                     Progress.Step 130 "Copying template"; Progress.Tick 1;
                     Progress.Step 190 "Finalizing"] ++ [Progress.Finish 200])
                   (Progress.initial 40))))
  = map snd (Progress.stepsOf
               [Progress.Step 100 "Validating destination"; Progress.Tick 0;
                Progress.Step 130 "Copying template"; Progress.Tick 1;
                Progress.Step 190 "Finalizing"])
  ∧ Progress.finished
      (Progress.stdout
         (Progress.term
            (Progress.run true
               ([Progress.Step 100 "Validating destination"; Progress.Tick 0;
                 Progress.Step 130 "Copying template"; Progress.Tick 1;
                 Progress.Step 190 "Finalizing"] ++ [Progress.Finish 200])
               (Progress.initial 40))))
    = Progress.stepTimes
        (Progress.steps
           (Progress.run true
              ([Progress.Step 100 "Validating destination"; Progress.Tick 0;
                Progress.Step 130 "Copying template"; Progress.Tick 1;
                Progress.Step 190 "Finalizing"] ++ [Progress.Finish 200])
              (Progress.initial 40)))
  ∧ Progress.totalMs
      (Progress.run true
         ([Progress.Step 100 "Validating destination"; Progress.Tick 0;
           Progress.Step 130 "Copying template"; Progress.Tick 1;
           Progress.Step 190 "Finalizing"] ++ [Progress.Finish 200])
         (Progress.initial 40))
    = (200 - 100)%Z
  ∧ Progress.intervals
      (Progress.term
         (Progress.run true
            ([Progress.Step 100 "Validating destination"; Progress.Tick 0;
              Progress.Step 130 "Copying template"; Progress.Tick 1;
              Progress.Step 190 "Finalizing"] ++ [Progress.Finish 200])
            (Progress.initial 40)))
    = []
  ∧ stepLabels
      (trace (shownSteps
                [Progress.Step 100 "Validating destination"; Progress.Tick 0;
                 Progress.Step 130 "Copying template"; Progress.Tick 1;
                 Progress.Step 190 "Finalizing"] (World ∅ [] "")))
    = map snd (Progress.stepsOf
                 [Progress.Step 100 "Validating destination"; Progress.Tick 0;
                  Progress.Step 130 "Copying template"; Progress.Tick 1;
                  Progress.Step 190 "Finalizing"]).
Proof.
  apply (step_times_add_up true
           [Progress.Step 100 "Validating destination"; Progress.Tick 0;
            Progress.Step 130 "Copying template"; Progress.Tick 1;
            Progress.Step 190 "Finalizing"] 40 200 ∅).
  reflexivity.
Defined.

(** ** The script that copies the templates *)

Section ScriptFacts.
Implicit Types (fs : filesystem) (p q src dest dir : path).

Lemma resolve_package_json dir : resolve dir "package.json" = dir ++ ["package.json"].
Proof. reflexivity. Qed.

Lemma lookup_fsRm p fs q :
  fsRm p fs !! q = if isPrefix p q then None else fs !! q.
Proof.
  unfold fsRm. destruct (isPrefix p q) eqn:E.
  - apply map_lookup_filter_None. right. intros e _. cbn [fst]. congruence.
  - destruct (fs !! q) as [e|] eqn:Eq.
    + apply map_lookup_filter_Some. split; [exact Eq|exact E].
    + apply map_lookup_filter_None. left. exact Eq.
Qed.

Lemma updateTemplateDependency_absent fs dir name version :
  fs !! (resolve dir name ++ ["package.json"]) = None →
  updateTemplateDependency dir name version fs = (Normal tt, fs).
Proof.
  intros Hmiss. unfold updateTemplateDependency. rewrite resolve_package_json.
  rewrite (bind_Normal _ _ _ _ _ (existsSync_run fs _)).
  unfold fsExists. rewrite Hmiss. reflexivity.
Qed.

Lemma updateTemplateDependency_object fs dir name version props deps indent nl :
  fs !! (resolve dir name ++ ["package.json"])
  = Some (File (JsonText (JObj props) indent nl)) →
  fs !! resolve dir name = Some Directory →
  pinnable props = Some deps →
  updateTemplateDependency dir name version fs =
  (Normal tt,
   <[resolve dir name ++ ["package.json"] :=
       File (JsonText
               (JObj (assignProp "dependencies"
                        (JObj (assignProp "@dwizi/dzx" (JStr ("^" +:+ version)) deps))
                        (assignProp "dependencies" (JObj deps) props)))
               2 true)]> fs).
Proof.
  intros Hfile Hdir Hpin. unfold updateTemplateDependency. rewrite resolve_package_json.
  rewrite (bind_Normal _ _ _ _ _ (existsSync_run fs _)).
  unfold fsExists. rewrite Hfile. cbn [negb].
  unfold bind at 1. unfold readFileSync, reads, fsReadFile. rewrite Hfile.
  cbn [JSON_parse getMember bind ret].
  assert (Hdeps : orEmptyObject (lookupProp "dependencies" props) = JObj deps).
  { unfold pinnable in Hpin.
    destruct (lookupProp "dependencies" props) as [[| | | | |members]|];
      try discriminate Hpin; injection Hpin as <-; reflexivity. }
  rewrite Hdeps. cbn [setMember bind ret JSON_stringify].
  apply writeFileSync_run; [rewrite dirname_snoc; exact Hdir|congruence].
Qed.

End ScriptFacts.

(** X27. The build-time pin.  [updateTemplateDependency] does nothing
    when the template has no package.json.  When the file holds an
    object whose [dependencies] property is absent, [null] or an
    object, the entry for @dwizi/dzx becomes ["^"] followed by the
    version, whether or not there was such an entry before — unlike
    the patch that the CLI applies, which needs one —, the other
    dependencies and the other properties are kept, and the file is
    rewritten with 2 spaces and a final newline. *)
Theorem updateTemplateDependency_pins (fs : filesystem) (dir : path)
        (name version : string) :
  (fs !! (resolve dir name ++ ["package.json"]) = None →
   updateTemplateDependency dir name version fs = (Normal tt, fs))
  ∧ (∀ props deps indent nl,
       fs !! (resolve dir name ++ ["package.json"])
       = Some (File (JsonText (JObj props) indent nl)) →
       fs !! resolve dir name = Some Directory →
       pinnable props = Some deps →
       ∃ props' deps',
         updateTemplateDependency dir name version fs =
           (Normal tt,
            <[resolve dir name ++ ["package.json"]
                := File (JsonText (JObj props') 2 true)]> fs)
         ∧ lookupProp "dependencies" props' = Some (JObj deps')
         ∧ lookupProp "@dwizi/dzx" deps' = Some (JStr ("^" +:+ version))
         ∧ (∀ k, k ≠ "@dwizi/dzx" → lookupProp k deps' = lookupProp k deps)
         ∧ (∀ k, k ≠ "dependencies" → lookupProp k props' = lookupProp k props)).
Proof.
  split; [apply updateTemplateDependency_absent|].
  intros props deps indent nl Hfile Hdir Hpin.
  eexists. eexists. split; [eapply updateTemplateDependency_object; eassumption|].
  split; [apply lookupProp_assignProp_same|].
  split; [apply lookupProp_assignProp_same|].
  split; [intros k Hk; apply lookupProp_assignProp_other; exact Hk|].
  intros k Hk. rewrite !lookupProp_assignProp_other by exact Hk. reflexivity.
Qed.

Section MirrorFacts.
Variable numberToString : Z → Z → string.
Implicit Types (fs : filesystem) (p q src dest dir : path).

Lemma createDzxTemplatesDir_snoc d :
  createDzxTemplatesDir d = resolve d ".." ++ ["templates"].
Proof. reflexivity. Qed.

(** The dzx package.json lies neither in nor above the templates
    directory of the package. *)
Lemma dzxPackagePath_outside d :
  isPrefix (createDzxTemplatesDir d) (dzxPackagePath d) = false
  ∧ isPrefix (dzxPackagePath d) (createDzxTemplatesDir d) = false.
Proof.
  change (createDzxTemplatesDir d) with (removelast d ++ ["templates"]).
  change (dzxPackagePath d)
    with ((removelast (removelast d) ++ ["dzx"]) ++ ["package.json"]).
  rewrite <- app_assoc. cbn [app].
  destruct (removelast d) as [|x C _] using rev_ind.
  - split; reflexivity.
  - rewrite removelast_last. rewrite <- app_assoc. cbn [app].
    split; apply isPrefix_false; intros r Hr; rewrite <- app_assoc in Hr;
      apply app_inv_head in Hr; discriminate.
Qed.

(** With a version that is a string, the call of the script is the
    function of the build. *)
Lemma updateTemplateDependencyOf_string dir name (v : string) fs :
  updateTemplateDependencyOf numberToString dir name (Some (JStr v)) fs
  = updateTemplateDependency dir name v fs.
Proof.
  reflexivity.
Qed.

(** One call of the loop of the script. *)
Lemma pin_step fs dir name (v : string) :
  resolve dir name = dir ++ [name] →
  pinnableEntry (fs !! (dir ++ [name; "package.json"])) = true →
  (is_Some (fs !! (dir ++ [name; "package.json"])) → fs !! (dir ++ [name]) = Some Directory) →
  ∃ fs', updateTemplateDependencyOf numberToString dir name (Some (JStr v)) fs
         = (Normal tt, fs')
         ∧ (∀ q, q ≠ dir ++ [name; "package.json"] → fs' !! q = fs !! q)
         ∧ (fs !! (dir ++ [name; "package.json"]) = None →
            fs' !! (dir ++ [name; "package.json"]) = None)
         ∧ (∀ props deps indent nl,
              fs !! (dir ++ [name; "package.json"])
              = Some (File (JsonText (JObj props) indent nl)) →
              pinnable props = Some deps →
              fs' !! (dir ++ [name; "package.json"])
              = Some (File (JsonText
                             (JObj (assignProp "dependencies"
                                      (JObj (assignProp "@dwizi/dzx" (JStr ("^" +:+ v)) deps))
                                      (assignProp "dependencies" (JObj deps) props)))
                             2 true))).
Proof.
  intros Hres Hok Hdir.
  assert (Hpath : dir ++ [name; "package.json"] = resolve dir name ++ ["package.json"]).
  { rewrite Hres, <- app_assoc. reflexivity. }
  rewrite Hpath in *. rewrite updateTemplateDependencyOf_string.
  destruct (fs !! (resolve dir name ++ ["package.json"])) as [[[s|j indent nl]|]|] eqn:Efile;
    try discriminate Hok.
  - destruct j as [| | | | |props]; try discriminate Hok.
    cbn [pinnableEntry] in Hok. destruct (pinnable props) as [deps|] eqn:Epin;
      [|discriminate Hok].
    rewrite (updateTemplateDependency_object fs dir name v props deps indent nl Efile);
      [|rewrite Hres; apply Hdir; eauto|exact Epin].
    eexists. split; [reflexivity|]. split.
    { intros q Hq. apply lookup_insert_ne. congruence. }
    split; [discriminate|].
    intros props0 deps0 indent0 nl0 [= <- <- <-] Hpin0.
    rewrite Epin in Hpin0. injection Hpin0 as <-. apply lookup_insert_eq.
  - rewrite (updateTemplateDependency_absent fs dir name v Efile).
    exists fs. split; [reflexivity|]. split; [reflexivity|].
    split; [intros _; exact Efile|]. intros props deps indent nl Hfile. discriminate Hfile.
Qed.

(** Remove the destination, then copy: the destination mirrors the
    source, and nothing else changes. *)
Lemma refresh_mirrors fuel fs src D n :
  fs !! [] = Some Directory →
  closedBelow fs src →
  fs !! src = Some Directory →
  (∀ r, is_Some (fs !! (src ++ r)) → (length r < fuel)%nat) →
  apart src (D ++ [n]) = true →
  (∀ q c, isPrefix q D = true → fs !! q ≠ Some (File c)) →
  ∃ fs', copyDir fuel src (D ++ [n]) (fsRm (D ++ [n]) fs) = (Normal tt, fs')
         ∧ (∀ r, fs' !! ((D ++ [n]) ++ r) = fs !! (src ++ r))
         ∧ (∀ r, fs' !! (src ++ r) = fs !! (src ++ r))
         ∧ (∀ q, isPrefix (D ++ [n]) q = false → isPrefix q (D ++ [n]) = false →
                 fs' !! q = fs !! q).
Proof.
  intros Hroot Hclosed Hsrc Hdepth Hapart Hclear.
  set (dest := D ++ [n]) in *.
  assert (Hkeep : ∀ r, fsRm dest fs !! (src ++ r) = fs !! (src ++ r)).
  { intros r. rewrite lookup_fsRm, (apart_below _ _ _ Hapart). reflexivity. }
  assert (Hgone : ∀ r, fsRm dest fs !! (dest ++ r) = None).
  { intros r. rewrite lookup_fsRm, isPrefix_app. reflexivity. }
  destruct (copyDir_spec fuel src dest (fsRm dest fs)) as [fs' [Hcopy Hfs']].
  { rewrite lookup_fsRm. subst dest. destruct D; exact Hroot. }
  { intros r m. rewrite !Hkeep. apply Hclosed. }
  { rewrite <- (app_nil_r src), Hkeep, app_nil_r. exact Hsrc. }
  { intros r. rewrite Hkeep. apply Hdepth. }
  { exact Hapart. }
  { intros q c Hq. rewrite lookup_fsRm. destruct (isPrefix dest q) eqn:E; [discriminate|].
    subst dest. apply isPrefix_snoc in Hq as [Hq| ->]; [apply Hclear; exact Hq|].
    rewrite isPrefix_refl in E. discriminate. }
  { intros r e1 e2 _. rewrite Hgone. discriminate. }
  exists fs'. split; [exact Hcopy|]. split; [|split].
  - intros r. rewrite Hfs', copied_below_dest, Hkeep, Hgone.
    destruct (fs !! (src ++ r)); reflexivity.
  - intros r. rewrite Hfs', (copied_below_src _ _ _ _ Hapart). apply Hkeep.
  - intros q H1 H2. rewrite Hfs'. unfold copied.
    pose proof H1 as H1'. unfold isPrefix in H1'.
    destruct (stripDir dest q); [discriminate|]. rewrite H2, lookup_fsRm, H1. reflexivity.
Qed.

End MirrorFacts.

(** X28. The script that copies the templates, from its first
    statement to its last.  When the templates of dzx exist, lie apart
    from the templates directory of the package, no file stands above
    that directory, the dzx package.json holds an object whose
    [version] is a string, and each of the three templates has no
    package.json or one that can be pinned, the script completes.  The
    templates directory then holds what the source holds, at the same
    relative paths and with the same contents — files of an earlier
    copy that the source no longer has are gone — except for the
    package.json of the three templates, in which the entry for
    @dwizi/dzx is ["^"] followed by that version and everything else
    is kept; a template without package.json gets none.  The source is
    left as it was. *)
Theorem copyTemplates_mirrors (numberToString : Z → Z → string) (fuel : nat)
        (fs : filesystem) (__dirname : path)
        (dzxPackage : list (string * json)) (indent : nat) (nl : bool) (version : string) :
  wellFormed fs = true →
  fs !! dzxTemplatesDir __dirname = Some Directory →
  apart (dzxTemplatesDir __dirname) (createDzxTemplatesDir __dirname) = true →
  clearWay fs [] (dirname (createDzxTemplatesDir __dirname)) = true →
  (depthBelow fs (dzxTemplatesDir __dirname) < fuel)%nat →
  fs !! dzxPackagePath __dirname = Some (File (JsonText (JObj dzxPackage) indent nl)) →
  lookupProp "version" dzxPackage = Some (JStr version) →
  (∀ name, name ∈ templateNames →
           pinnableEntry (fs !! (dzxTemplatesDir __dirname ++ [name; "package.json"])) = true) →
  ∃ fs', copyTemplates numberToString fuel __dirname fs = (Normal tt, fs')
         ∧ (∀ r, (∀ name, name ∈ templateNames → r ≠ [name; "package.json"]) →
                 fs' !! (createDzxTemplatesDir __dirname ++ r)
                 = fs !! (dzxTemplatesDir __dirname ++ r))
         ∧ (∀ name, name ∈ templateNames →
                    fs !! (dzxTemplatesDir __dirname ++ [name; "package.json"]) = None →
                    fs' !! (createDzxTemplatesDir __dirname ++ [name; "package.json"]) = None)
         ∧ (∀ name props deps indent' nl',
              name ∈ templateNames →
              fs !! (dzxTemplatesDir __dirname ++ [name; "package.json"])
              = Some (File (JsonText (JObj props) indent' nl')) →
              pinnable props = Some deps →
              ∃ props' deps',
                fs' !! (createDzxTemplatesDir __dirname ++ [name; "package.json"])
                = Some (File (JsonText (JObj props') 2 true))
                ∧ lookupProp "dependencies" props' = Some (JObj deps')
                ∧ lookupProp "@dwizi/dzx" deps' = Some (JStr ("^" +:+ version))
                ∧ (∀ k, k ≠ "@dwizi/dzx" → lookupProp k deps' = lookupProp k deps)
                ∧ (∀ k, k ≠ "dependencies" → lookupProp k props' = lookupProp k props))
         ∧ (∀ r, fs' !! (dzxTemplatesDir __dirname ++ r)
                 = fs !! (dzxTemplatesDir __dirname ++ r)).
Proof.
  intros Hwf Hsrc Hapart Hclear Hdepth Hpkg Hversion Hpins.
  destruct (dzxPackagePath_outside __dirname) as [Hout1 Hout2].
  rewrite createDzxTemplatesDir_snoc in *. rewrite dirname_snoc in Hclear.
  set (src := dzxTemplatesDir __dirname) in *.
  set (D := resolve __dirname "..") in *.
  set (dest := D ++ ["templates"]) in *.
  pose proof (wellFormed_root fs Hwf) as Hroot.
  assert (HclearD : ∀ q c, isPrefix q D = true → fs !! q ≠ Some (File c)).
  { intros q c. apply (clearWay_prefix fs D). exact Hclear. }
  (* the templates directory is made when it is missing *)
  assert (Hfirst : ∃ fs1,
            (if negb (fsExists fs dest) then mkdirSync dest else ret tt) fs = (Normal tt, fs1)
            ∧ is_Some (fs1 !! dest)
            ∧ fs1 !! [] = Some Directory
            ∧ (∀ r, fs1 !! (src ++ r) = fs !! (src ++ r))
            ∧ (∀ q c, isPrefix q D = true → fs1 !! q ≠ Some (File c))
            ∧ (∀ q, isPrefix q dest = false → fs1 !! q = fs !! q)).
  { unfold fsExists. destruct (fs !! dest) as [e0|] eqn:Edest; cbn [negb].
    - exists fs. rewrite Edest. repeat split; eauto.
    - destruct (mkdirSync_spec fs dest Hroot) as (fs1 & Hmk & Hfs1).
      { intros q c Hq. apply isPrefix_snoc in Hq as [Hq| ->]; [apply HclearD; exact Hq|].
        fold dest. rewrite Edest. discriminate. }
      exists fs1. split; [exact Hmk|]. split.
      { rewrite Hfs1, isPrefix_refl. eauto. }
      split; [rewrite Hfs1; reflexivity|]. split; [|split].
      + intros r. rewrite Hfs1, (apart_not_above _ _ _ Hapart). reflexivity.
      + intros q c Hq. rewrite Hfs1.
        destruct (isPrefix q dest); [discriminate|]. apply HclearD. exact Hq.
      + intros q Hq. rewrite Hfs1, Hq. reflexivity. }
  destruct Hfirst as (fs1 & Hrun1 & [e1 Hthere] & Hroot1 & Hsrc1 & Hclear1 & Hout).
  destruct (refresh_mirrors fuel fs1 src D "templates")
    as (fs2 & Hcopy & Hdest & Hkeep & Hrest).
  { exact Hroot1. }
  { intros r m. rewrite !Hsrc1. apply (wellFormed_closedBelow fs src Hwf). }
  { rewrite <- (app_nil_r src), Hsrc1, app_nil_r. exact Hsrc. }
  { intros r. rewrite Hsrc1. apply depthBelow_budget. exact Hdepth. }
  { exact Hapart. }
  { exact Hclear1. }
  fold dest in Hcopy, Hdest, Hrest.
  assert (Hdest' : ∀ r, fs2 !! (dest ++ r) = fs !! (src ++ r)).
  { intros r. rewrite Hdest. apply Hsrc1. }
  (* the version *)
  assert (Hpkg2 : fs2 !! dzxPackagePath __dirname
                  = Some (File (JsonText (JObj dzxPackage) indent nl))).
  { rewrite (Hrest _ Hout1 Hout2), (Hout _ Hout2). exact Hpkg. }
  (* the three pins *)
  assert (Hparent : ∀ (name : string),
            is_Some (fs !! (src ++ [name; "package.json"])) →
            fs !! (src ++ [name]) = Some Directory).
  { intros name Hs. apply (wellFormed_parent fs (src ++ [name]) "package.json" Hwf).
    rewrite <- app_assoc. exact Hs. }
  destruct (pin_step numberToString fs2 dest "basic" version eq_refl)
    as (fs3 & Hpin3 & Hother3 & Hnone3 & Hset3).
  { rewrite Hdest'. apply Hpins. repeat constructor. }
  { rewrite !Hdest'. apply Hparent. }
  destruct (pin_step numberToString fs3 dest "tools-only" version eq_refl)
    as (fs4 & Hpin4 & Hother4 & Hnone4 & Hset4).
  { rewrite Hother3 by (intros E; apply app_inv_head in E; discriminate).
    rewrite Hdest'. apply Hpins. repeat constructor. }
  { rewrite !Hother3 by (intros E; apply app_inv_head in E; discriminate).
    rewrite !Hdest'. apply Hparent. }
  destruct (pin_step numberToString fs4 dest "full" version eq_refl)
    as (fs5 & Hpin5 & Hother5 & Hnone5 & Hset5).
  { rewrite Hother4, Hother3 by (intros E; apply app_inv_head in E; discriminate).
    rewrite Hdest'. apply Hpins. repeat constructor. }
  { rewrite !Hother4, !Hother3 by (intros E; apply app_inv_head in E; discriminate).
    rewrite !Hdest'. apply Hparent. }
  assert (Hfinal : ∀ q, (∀ name, name ∈ templateNames → q ≠ dest ++ [name; "package.json"]) →
                        fs5 !! q = fs2 !! q).
  { intros q Hq.
    rewrite Hother5, Hother4, Hother3; [reflexivity| | |]; apply Hq; repeat constructor. }
  exists fs5. split.
  { unfold copyTemplates. rewrite createDzxTemplatesDir_snoc. fold src. fold D. fold dest.
    rewrite (bind_Normal _ _ _ _ _ (existsSync_run fs _)).
    rewrite (bind_Normal _ _ _ _ _ Hrun1).
    rewrite (bind_Normal _ _ _ _ _ (existsSync_run fs1 _)).
    unfold fsExists at 1. rewrite <- (app_nil_r src), Hsrc1, app_nil_r, Hsrc. cbn [negb].
    rewrite (bind_Normal _ _ _ _ _ (existsSync_run fs1 _)).
    unfold fsExists. rewrite Hthere.
    unfold bind at 1. unfold rmSync at 1, writes at 1.
    rewrite (bind_Normal _ _ _ _ _ Hcopy).
    unfold bind at 1. unfold readFileSync, reads, fsReadFile. rewrite Hpkg2.
    cbn [JSON_parse getMember bind ret]. rewrite Hversion.
    cbn [templateNames forEach].
    rewrite (bind_Normal _ _ _ _ _ Hpin3), (bind_Normal _ _ _ _ _ Hpin4),
      (bind_Normal _ _ _ _ _ Hpin5).
    reflexivity. }
  split.
  { intros r Hr. rewrite Hfinal; [apply Hdest'|].
    intros name Hname E. apply app_inv_head in E. exact (Hr name Hname E). }
  assert (Hone : ∀ name, name ∈ templateNames →
            (fs2 !! (dest ++ [name; "package.json"]) = None →
             fs5 !! (dest ++ [name; "package.json"]) = None)
            ∧ (∀ props deps indent' nl',
                 fs2 !! (dest ++ [name; "package.json"])
                 = Some (File (JsonText (JObj props) indent' nl')) →
                 pinnable props = Some deps →
                 fs5 !! (dest ++ [name; "package.json"])
                 = Some (File (JsonText
                                (JObj (assignProp "dependencies"
                                         (JObj (assignProp "@dwizi/dzx"
                                                  (JStr ("^" +:+ version)) deps))
                                         (assignProp "dependencies" (JObj deps) props)))
                                2 true)))).
  { intros name Hname. unfold templateNames in Hname.
    repeat (apply elem_of_cons in Hname as [->|Hname]); [| | |inversion Hname].
    - rewrite Hother5, Hother4 by (intros E; apply app_inv_head in E; discriminate).
      split; [exact Hnone3|exact Hset3].
    - rewrite Hother5 by (intros E; apply app_inv_head in E; discriminate).
      rewrite <- (Hother3 (dest ++ ["tools-only"; "package.json"]))
        by (intros E; apply app_inv_head in E; discriminate).
      split; [exact Hnone4|exact Hset4].
    - rewrite <- (Hother3 (dest ++ ["full"; "package.json"]))
        by (intros E; apply app_inv_head in E; discriminate).
      rewrite <- (Hother4 (dest ++ ["full"; "package.json"]))
        by (intros E; apply app_inv_head in E; discriminate).
      split; [exact Hnone5|exact Hset5]. }
  split.
  { intros name Hname Hnone. apply (Hone name Hname). rewrite Hdest'. exact Hnone. }
  split.
  { intros name props deps indent' nl' Hname Hfile Hpin.
    destruct (Hone name Hname) as [_ Hset].
    rewrite Hdest' in Hset. specialize (Hset props deps indent' nl' Hfile Hpin).
    eexists. eexists. split; [exact Hset|].
    split; [apply lookupProp_assignProp_same|].
    split; [apply lookupProp_assignProp_same|].
    split.
    - intros k Hk. apply lookupProp_assignProp_other. exact Hk.
    - intros k Hk. rewrite !lookupProp_assignProp_other by exact Hk. reflexivity. }
  intros r. rewrite Hfinal; [rewrite Hkeep; apply Hsrc1|].
  intros name _ E. symmetry in E. revert E. apply apart_distinct.
  rewrite <- Hapart. unfold apart. rewrite andb_comm. reflexivity.
Qed.

Lemma copyTemplates_mirrors_witness :
  ∃ fs', copyTemplates (λ _ _, "0") 4 ["repo"; "create-dzx"; "scripts"] monorepoFiles
         = (Normal tt, fs')
         ∧ (∀ r, (∀ name, name ∈ templateNames → r ≠ [name; "package.json"]) →
                 fs' !! (createDzxTemplatesDir ["repo"; "create-dzx"; "scripts"] ++ r)
                 = monorepoFiles !! (dzxTemplatesDir ["repo"; "create-dzx"; "scripts"] ++ r))
         ∧ (∀ name, name ∈ templateNames →
                    monorepoFiles !! (dzxTemplatesDir ["repo"; "create-dzx"; "scripts"]
                                      ++ [name; "package.json"]) = None →
                    fs' !! (createDzxTemplatesDir ["repo"; "create-dzx"; "scripts"]
                            ++ [name; "package.json"]) = None)
         ∧ (∀ name props deps indent' nl',
              name ∈ templateNames →
              monorepoFiles !! (dzxTemplatesDir ["repo"; "create-dzx"; "scripts"]
                                ++ [name; "package.json"])
              = Some (File (JsonText (JObj props) indent' nl')) →
              pinnable props = Some deps →
              ∃ props' deps',
                fs' !! (createDzxTemplatesDir ["repo"; "create-dzx"; "scripts"]
                        ++ [name; "package.json"])
                = Some (File (JsonText (JObj props') 2 true))
                ∧ lookupProp "dependencies" props' = Some (JObj deps')
                ∧ lookupProp "@dwizi/dzx" deps' = Some (JStr ("^" +:+ "0.5.1"))
                ∧ (∀ k, k ≠ "@dwizi/dzx" → lookupProp k deps' = lookupProp k deps)
                ∧ (∀ k, k ≠ "dependencies" → lookupProp k props' = lookupProp k props))
         ∧ (∀ r, fs' !! (dzxTemplatesDir ["repo"; "create-dzx"; "scripts"] ++ r)
                 = monorepoFiles !! (dzxTemplatesDir ["repo"; "create-dzx"; "scripts"] ++ r)).
Proof.
  apply (copyTemplates_mirrors (λ _ _, "0") 4 monorepoFiles ["repo"; "create-dzx"; "scripts"]
           [("name", JStr "@dwizi/dzx"); ("version", JStr "0.5.1")] 2 true "0.5.1").
  - vm_compute. reflexivity.
  - vm_compute. reflexivity.
  - vm_compute. reflexivity.
  - vm_compute. reflexivity.
  - vm_compute. lia.
  - vm_compute. reflexivity.
  - reflexivity.
  - intros name Hname. unfold templateNames in Hname.
    repeat (apply elem_of_cons in Hname as [->|Hname]); [| | |inversion Hname];
      vm_compute; reflexivity.
Defined.

(** The script on the sample checkout: the stale file is gone and the
    package.json of the basic template is pinned to the version of
    dzx. *)
Example copyTemplates_example :
  fst (copyTemplates (λ _ _, "0") 4 ["repo"; "create-dzx"; "scripts"] monorepoFiles)
  = Normal tt
  ∧ snd (copyTemplates (λ _ _, "0") 4 ["repo"; "create-dzx"; "scripts"] monorepoFiles)
      !! ["repo"; "create-dzx"; "templates"; "basic"; "old.txt"] = None
  ∧ snd (copyTemplates (λ _ _, "0") 4 ["repo"; "create-dzx"; "scripts"] monorepoFiles)
      !! ["repo"; "create-dzx"; "templates"; "basic"; "package.json"]
    = Some (File (JsonText
                    (JObj [("name", JStr "basic");
                           ("dependencies", JObj [("@dwizi/dzx", JStr "^0.5.1")])])
                    2 true)).
Proof. repeat split; vm_compute; reflexivity. Qed.

(** X29. The pin of the build makes the pin of the scaffold apply.  On
    a package.json that [updateTemplateDependency] can pin, the entry
    that it writes is never empty, so the patch of the CLI, run on the
    same directory, passes its guard and rewrites the entry to ["^"]
    followed by the version it is given. *)
Theorem build_pin_then_scaffold_pin (fs : filesystem) (dir : path)
        (name buildVersion dzxVersion : string)
        (props deps : list (string * json)) (indent : nat) (nl : bool) :
  fs !! (resolve dir name ++ ["package.json"])
  = Some (File (JsonText (JObj props) indent nl)) →
  fs !! resolve dir name = Some Directory →
  pinnable props = Some deps →
  ∃ fs1 fs2 props' deps',
    updateTemplateDependency dir name buildVersion fs = (Normal tt, fs1)
    ∧ updatePackageJson (resolve dir name) dzxVersion fs1 = (Normal tt, fs2)
    ∧ fs2 !! (resolve dir name ++ ["package.json"])
      = Some (File (JsonText (JObj props') 2 true))
    ∧ lookupProp "dependencies" props' = Some (JObj deps')
    ∧ lookupProp "@dwizi/dzx" deps' = Some (JStr ("^" +:+ dzxVersion))
    ∧ (∀ k, k ≠ "@dwizi/dzx" → lookupProp k deps' = lookupProp k deps)
    ∧ (∀ k, k ≠ "dependencies" → lookupProp k props' = lookupProp k props).
Proof.
  intros Hfile Hdir Hpin.
  pose proof (updateTemplateDependency_object fs dir name buildVersion props deps indent nl
                Hfile Hdir Hpin) as Hbuild.
  match type of Hbuild with _ = (_, ?m) => set (fs1 := m) in * end.
  pose proof (updatePackageJson_pinned fs1 (resolve dir name) dzxVersion
                (assignProp "dependencies"
                   (JObj (assignProp "@dwizi/dzx" (JStr ("^" +:+ buildVersion)) deps))
                   (assignProp "dependencies" (JObj deps) props))
                (assignProp "@dwizi/dzx" (JStr ("^" +:+ buildVersion)) deps)
                2%nat true (lookup_insert_eq _ _ _)) as Hcli.
  assert (Hdir1 : fs1 !! resolve dir name = Some Directory).
  { subst fs1. rewrite lookup_insert_ne; [exact Hdir|].
    intros E. rewrite <- (app_nil_r (resolve dir name)) in E at 2.
    apply app_inv_head in E. discriminate. }
  specialize (Hcli Hdir1 (lookupProp_assignProp_same _ _ _)).
  rewrite lookupProp_assignProp_same in Hcli. specialize (Hcli eq_refl).
  eexists. eexists. eexists. eexists.
  split; [exact Hbuild|]. split; [exact Hcli|].
  split; [apply lookup_insert_eq|].
  split; [apply lookupProp_assignProp_same|].
  split; [apply lookupProp_assignProp_same|].
  split.
  - intros k Hk. rewrite !lookupProp_assignProp_other by exact Hk. reflexivity.
  - intros k Hk. rewrite !lookupProp_assignProp_other by exact Hk. reflexivity.
Qed.

Lemma build_pin_then_scaffold_pin_witness :
  ∃ fs1 fs2 props' deps',
    updateTemplateDependency ["repo"; "dzx"; "templates"] "basic" "0.4.0" monorepoFiles
    = (Normal tt, fs1)
    ∧ updatePackageJson (resolve ["repo"; "dzx"; "templates"] "basic") "0.5.1" fs1
      = (Normal tt, fs2)
    ∧ fs2 !! (resolve ["repo"; "dzx"; "templates"] "basic" ++ ["package.json"])
      = Some (File (JsonText (JObj props') 2 true))
    ∧ lookupProp "dependencies" props' = Some (JObj deps')
    ∧ lookupProp "@dwizi/dzx" deps' = Some (JStr ("^" +:+ "0.5.1"))
    ∧ (∀ k, k ≠ "@dwizi/dzx" → lookupProp k deps' = lookupProp k [])
    ∧ (∀ k, k ≠ "dependencies" → lookupProp k props' = lookupProp k [("name", JStr "basic")]).
Proof.
  apply (build_pin_then_scaffold_pin monorepoFiles ["repo"; "dzx"; "templates"]
           "basic" "0.4.0" "0.5.1" [("name", JStr "basic")] [] 2 true).
  - vm_compute. reflexivity.
  - vm_compute. reflexivity.
  - reflexivity.
Defined.
